(** * agent-gate: the approval broker (src/daemon.js, src/lib/socket.js)

    A shallow embedding of the daemon's request pipeline and of the local
    transport, followed by the properties checked against the written
    specification.

    Conventions of the embedding.
    - A JavaScript string is a [string]: a sequence of code units below 256.
    - A JavaScript number is an IEEE-754 binary64 value, [spec_float].
    - A value produced by JSON.parse is a [JsValue]; objects are association
      lists in property order, with pairwise distinct keys.
    - Module-level mutable state (the two Maps, the timers, the files of the
      pending directory) is threaded explicitly as a [State].
    - Every call on a collaborator (audit log, provider, channel, timers, file
      system, promise resolver) is recorded, in program order, as an [Event].
    - What the outside world answers (provider results, channel results, the
      clock, random bytes) is supplied per call by an [Oracle].
    - A Buffer is a [Buffer]: its bytes, one character each. The text it
      decodes to is computed by the runtime, one Buffer at a time.
    - console output is not part of the model, but the rendering of a
      template literal is where it renders a value taken from a request, for
      the rendering can throw; the note of a standing approval comes from the
      configuration and is taken to render.
    - An exception that no handler catches ends the process; it is recorded
      as the event [Uncaught], and the event loop runs nothing after it. *)

From Stdlib Require Import ZArith QArith.QArith_base QArith.Qround String Ascii List Bool Lia.
From Stdlib Require Import Floats.SpecFloat.
From stdpp Require Import base option list gmap strings pretty vector.

Set Warnings "-register-all".

Local Open Scope string_scope.
Local Open Scope list_scope.
Local Open Scope Z_scope.

(** ** JavaScript values *)

Inductive JsValue : Type :=
| JUndefined
| JNull
| JBool (b : bool)
| JNumber (n : spec_float)
| JString (s : string)
| JArray (items : list JsValue)
| JObject (props : list (string * JsValue)).

(** Result of evaluating an expression that may throw. *)
Inductive Completion (A : Type) : Type :=
| Normal (a : A)
| Throw (message : string).
Arguments Normal {A} a.
Arguments Throw {A} message.

Definition bind_completion {A B} (c : Completion A) (k : A -> Completion B)
  : Completion B :=
  match c with
  | Normal a => k a
  | Throw m => Throw m
  end.

Module Js.

(** ToBoolean. *)
Definition truthy (v : JsValue) : bool :=
  match v with
  | JUndefined | JNull => false
  | JBool b => b
  | JNumber (S754_zero _) | JNumber S754_nan => false
  | JNumber _ => true
  | JString s => negb (String.eqb s EmptyString)
  | JArray _ | JObject _ => true
  end.

Fixpoint assoc (key : string) (props : list (string * JsValue)) : option JsValue :=
  match props with
  | [] => None
  | (k, v) :: rest => if String.eqb k key then Some v else assoc key rest
  end.

(** [v.key] for a key that no prototype defines: own properties of an
    object, [undefined] on the other values, TypeError on null and
    undefined. *)
Definition get (v : JsValue) (key : string) : Completion JsValue :=
  match v with
  | JUndefined =>
      Throw ("Cannot read properties of undefined (reading '" +:+ key +:+ "')")
  | JNull =>
      Throw ("Cannot read properties of null (reading '" +:+ key +:+ "')")
  | JObject props => Normal (default JUndefined (assoc key props))
  | _ => Normal JUndefined
  end.

(** [ch] as a one-character string. *)
Definition char (code : nat) : string := String (ascii_of_nat code) EmptyString.
Definition dquote : string := char 34.
Definition newline : ascii := ascii_of_nat 10.

(** A whole number as a JavaScript number. *)
Definition of_Z (z : Z) : spec_float := binary_normalize 53 1024 z 0 false.

(** s.endsWith(t) for a one-character [t]. *)
Fixpoint endsWith (s : string) (c : ascii) : bool :=
  match s with
  | EmptyString => false
  | String a EmptyString => Ascii.eqb a c
  | String _ rest => endsWith rest c
  end.

(** s.slice(0, -1) *)
Fixpoint dropLast (s : string) : string :=
  match s with
  | EmptyString => EmptyString
  | String _ EmptyString => EmptyString
  | String a rest => String a (dropLast rest)
  end.

(** s.startsWith(p) *)
Definition startsWith (s p : string) : bool := String.prefix p s.

(** String.prototype.toLowerCase on code units below 256. *)
Definition lowerChar (a : ascii) : ascii :=
  let n := nat_of_ascii a in
  if ((65 <=? n) && (n <=? 90))%nat then ascii_of_nat (n + 32)
  else if ((192 <=? n) && (n <=? 222) && negb (n =? 215))%nat
       then ascii_of_nat (n + 32)
  else a.

Fixpoint toLowerCase (s : string) : string :=
  match s with
  | EmptyString => EmptyString
  | String a rest => String (lowerChar a) (toLowerCase rest)
  end.

(** White space and line terminators removed by String.prototype.trim,
    among code units below 256. *)
Definition isSpace (a : ascii) : bool :=
  let n := nat_of_ascii a in
  ((9 <=? n) && (n <=? 13) || (n =? 32) || (n =? 160))%nat.

(** [!s.trim()] *)
Fixpoint blank (s : string) : bool :=
  match s with
  | EmptyString => true
  | String a rest => isSpace a && blank rest
  end.

End Js.

(** The bytes of a Buffer. *)
Definition Buffer := string.

(** What the JavaScript runtime provides and the model does not compute:
    JSON.parse, the rendering of a number as a string, and the decoding of
    the bytes of a Buffer as UTF-8. *)
Class Runtime := {
  JSON_parse : string -> option JsValue;   (* None: SyntaxError *)
  Number_toString : spec_float -> string;
  Buffer_toString : Buffer -> string       (* buffer.toString() *)
}.

Section ToString.
Context {runtime : Runtime}.

(** The TypeError of OrdinaryToPrimitive. *)
Definition notPrimitive : string := "Cannot convert object to primitive value".

(** ToString, as used by template literals. An object made by JSON.parse
    holds no function: with a toString property of its own it has no method
    that gives a primitive value (the valueOf it has or inherits gives none
    either), and the conversion throws; without one, Object.prototype.toString
    answers. An array is joined, element by element from the left. *)
Fixpoint toString (v : JsValue) : Completion string :=
  match v with
  | JUndefined => Normal "undefined"
  | JNull => Normal "null"
  | JBool true => Normal "true"
  | JBool false => Normal "false"
  | JNumber n => Normal (Number_toString n)
  | JString s => Normal s
  | JArray items =>
      let element (x : JsValue) : Completion string :=
        match x with
        | JUndefined | JNull => Normal EmptyString
        | _ => toString x
        end in
      (fix join (l : list JsValue) : Completion string :=
         match l with
         | [] => Normal EmptyString
         | [x] => element x
         | x :: rest =>
             match element x with
             | Throw m => Throw m
             | Normal s =>
                 match join rest with
                 | Throw m => Throw m
                 | Normal t => Normal (s +:+ "," +:+ t)
                 end
             end
         end) items
  | JObject props =>
      match Js.assoc "toString" props with
      | Some _ => Throw notPrimitive
      | None => Normal "[object Object]"
      end
  end.
End ToString.

(** SameValueZero, the key comparison of Map. Arrays and objects are compared
    by identity, and two values that come from different calls of JSON.parse
    are never the same object. *)
Definition sameValueZero (a b : JsValue) : bool :=
  match a, b with
  | JUndefined, JUndefined | JNull, JNull => true
  | JBool x, JBool y => Bool.eqb x y
  | JNumber S754_nan, JNumber S754_nan => true
  | JNumber x, JNumber y => SFeqb x y
  | JString x, JString y => String.eqb x y
  | _, _ => false
  end.

(** ** Configuration and collaborators *)

Record StandingApproval := {
  sa_item : string;
  sa_reasonMatch : string;
  sa_note : JsValue
}.

(** The validated configuration document; times in whole milliseconds. *)
Record Config := {
  cacheTTL : Z;
  approvalTimeoutMs : Z;
  openVaults : list string;
  gatedVaults : list string;
  standingApprovals : list StandingApproval
}.

Record ParsedUri := {
  vault : string;
  item : string;
  field : string
}.

(** src/providers/base.js: the part of the provider that is a function of its
    argument. [read] talks to the secret store; its result comes from the
    [Oracle]. *)
Class Provider := {
  provider_name : string;
  parseUri : JsValue -> Completion (option ParsedUri)
}.

(** src/channels/base.js *)
Record Channel := { channel_name : string }.

#[global] Instance Channel_eq_dec : EqDecision Channel.
Proof. solve_decision. Defined.

Record ReadOptions := { useServiceAccount : bool }.

(** The flag the provider sees: an omitted options argument defaults to the
    empty object, whose useServiceAccount is undefined. *)
Definition elevated (options : option ReadOptions) : bool :=
  match options with
  | Some o => useServiceAccount o
  | None => false
  end.

(** Answers of the outside world during one run of a handler. *)
Record Oracle := {
  now : Z;                                              (* Date.now() *)
  uptime : Q;                                           (* process.uptime() *)
  randomBytes : vec Byte.byte 8;                        (* crypto.randomBytes(8) *)
  provider_read : JsValue -> option ReadOptions -> string + string;
      (* provider.read(uri, options): the value, or e.message *)
  channel_send : Channel -> JsValue -> JsValue + string
      (* channel.sendApprovalRequest(params): the message ref, or e.message *)
}.

(** ** State of the daemon *)

(** pendingRequests: requestId -> { resolve, timer, pollInterval }. The
    resolver is named by the promise it settles. *)
Record Pending := {
  resolve : nat;
  timer : nat;
  pollInterval : nat
}.

Record CacheEntry := {
  value : string;
  expiresAt : Z
}.

(** What an armed timer runs when it fires. *)
Inductive Task :=
| TimeoutTask (requestId : string) (promise : nat)   (* setTimeout of waitForApproval *)
| PollTask (requestId : string).                     (* setInterval of waitForApproval *)

Inductive Settlement :=
| Fulfilled (approved : bool)
| Rejected (message : string).

Record State := {
  pendingRequests : gmap string Pending;
  cache : list (JsValue * CacheEntry);       (* Map, in insertion order *)
  pendingDir : gmap string string;           (* files of PENDING_DIR: name -> content *)
  timers : gmap nat Task;                    (* armed timeouts and intervals *)
  promises : gmap nat Settlement;            (* settled promises of waitForApproval *)
  nextId : nat                               (* next fresh handle *)
}.

Definition with_pendingRequests (m : gmap string Pending) (st : State) : State :=
  {| pendingRequests := m; cache := cache st; pendingDir := pendingDir st;
     timers := timers st; promises := promises st; nextId := nextId st |}.
Definition with_cache (c : list (JsValue * CacheEntry)) (st : State) : State :=
  {| pendingRequests := pendingRequests st; cache := c; pendingDir := pendingDir st;
     timers := timers st; promises := promises st; nextId := nextId st |}.
Definition with_pendingDir (d : gmap string string) (st : State) : State :=
  {| pendingRequests := pendingRequests st; cache := cache st; pendingDir := d;
     timers := timers st; promises := promises st; nextId := nextId st |}.
Definition with_timers (t : gmap nat Task) (st : State) : State :=
  {| pendingRequests := pendingRequests st; cache := cache st; pendingDir := pendingDir st;
     timers := t; promises := promises st; nextId := nextId st |}.
Definition with_promises (p : gmap nat Settlement) (st : State) : State :=
  {| pendingRequests := pendingRequests st; cache := cache st; pendingDir := pendingDir st;
     timers := timers st; promises := p; nextId := nextId st |}.
Definition with_nextId (n : nat) (st : State) : State :=
  {| pendingRequests := pendingRequests st; cache := cache st; pendingDir := pendingDir st;
     timers := timers st; promises := promises st; nextId := n |}.

(** ** Observable calls *)

Inductive Event :=
| AuditLog (entry : JsValue)                                   (* audit.log(entry) *)
| ProviderRead (uri : JsValue) (options : option ReadOptions)  (* provider.read(uri, options) *)
| SendApprovalRequest (channel : Channel) (params : JsValue)
| UpdateApprovalMessage (channel : Channel) (ref : JsValue) (approved : bool)
| SetTimeout (handle : nat) (delay : Z)
| SetInterval (handle : nat) (period : Z)
| ClearTimeout (handle : nat)
| ClearInterval (handle : nat)
| RegistrySet (requestId : string)                             (* pendingRequests.set *)
| RegistryDelete (requestId : string)                          (* pendingRequests.delete *)
| ExistsSync (file : string)
| ReadFileSync (file : string)
| UnlinkSync (file : string)
| ResolveCall (promise : nat) (approved : bool)                (* pending.resolve(approved) *)
| RejectCall (promise : nat) (message : string)                (* reject(new Error(message)) *)
| Uncaught (message : string).                                 (* thrown out of a listener *)

(** How an async handler ends. *)
Inductive Outcome :=
| Return (response : JsValue)
| Reject (message : string).

(** What handleRead keeps across its await on waitForApproval. *)
Record Waiting := {
  w_uri : JsValue;
  w_reason : JsValue;
  w_parsed : ParsedUri;
  w_requestId : string;
  w_messageRefs : list (Channel * JsValue);
  w_promise : nat
}.

Inductive Progress :=
| Finished (trace : list Event) (outcome : Outcome) (st : State)
| Awaiting (trace : list Event) (w : Waiting) (st : State).

(** ** src/daemon.js *)

Definition hexDigit (n : N) : ascii :=
  match String.get (N.to_nat n) "0123456789abcdef" with
  | Some c => c
  | None => "0"%char
  end.

(** buffer.toString('hex') *)
Definition hex (bytes : list Byte.byte) : string :=
  foldr (fun b s =>
           let n := Byte.to_N b in
           String (hexDigit (n / 16)) (String (hexDigit (n mod 16)) s))
        EmptyString bytes.

Definition generateRequestId (o : Oracle) : string :=
  hex (vec_to_list (randomBytes o)).

Definition str (s : string) : JsValue := JString s.
Definition num (z : Z) : JsValue := JNumber (Js.of_Z z).

(** v === 'literal' *)
Definition is_literal (v : JsValue) (literal : string) : bool :=
  match v with
  | JString s => String.eqb s literal
  | _ => false
  end.

Definition settle (promise : nat) (s : Settlement) (st : State) : State :=
  match promises st !! promise with
  | Some _ => st                       (* already settled: the call is a no-op *)
  | None => with_promises (<[promise := s]> (promises st)) st
  end.

Definition registry_get (requestId : JsValue) (st : State) : option Pending :=
  match requestId with
  | JString id => pendingRequests st !! id
  | _ => None                          (* every key of the Map is a string *)
  end.

Definition cache_get (uri : JsValue) (c : list (JsValue * CacheEntry)) : option CacheEntry :=
  snd <$> List.find (fun e => sameValueZero (fst e) uri) c.

Definition cache_delete (uri : JsValue) (c : list (JsValue * CacheEntry))
  : list (JsValue * CacheEntry) :=
  List.filter (fun e => negb (sameValueZero (fst e) uri)) c.

Definition cache_set (uri : JsValue) (entry : CacheEntry) (c : list (JsValue * CacheEntry))
  : list (JsValue * CacheEntry) :=
  if existsb (fun e => sameValueZero (fst e) uri) c
  then List.map (fun e => if sameValueZero (fst e) uri then (fst e, entry) else e) c
  else c ++ [(uri, entry)].

Section Daemon.
Context {runtime : Runtime} {provider : Provider}.
Variable config : Config.
Variable channels : list Channel.

Definition OPEN_VAULTS : gset string := list_to_set (Js.toLowerCase <$> openVaults config).
Definition GATED_VAULTS : gset string := list_to_set (Js.toLowerCase <$> gatedVaults config).
Definition STANDING_APPROVALS : list StandingApproval := standingApprovals config.

(** The loop of matchesStandingApproval over the rules still to visit. A
    reason that is not a string has no startsWith method. *)
Fixpoint scanStandingApprovals (rules : list StandingApproval) (item : string)
    (reason : JsValue) : Completion (option StandingApproval) :=
  match rules with
  | [] => Normal None
  | sa :: rest =>
      if negb (String.eqb (sa_item sa) item) then scanStandingApprovals rest item reason
      else
        let pattern := sa_reasonMatch sa in
        if Js.endsWith pattern "*" then
          match reason with
          | JString r =>
              if Js.startsWith r (Js.dropLast pattern) then Normal (Some sa)
              else scanStandingApprovals rest item reason
          | _ => Throw "reason.startsWith is not a function"
          end
        else if is_literal reason pattern then Normal (Some sa)
        else scanStandingApprovals rest item reason
  end.

Definition matchesStandingApproval (item : string) (reason : JsValue)
  : Completion (option StandingApproval) :=
  if negb (Js.truthy reason) then Normal None
  else scanStandingApprovals STANDING_APPROVALS item reason.

Definition getCached (o : Oracle) (uri : JsValue) (st : State) : option string * State :=
  if cacheTTL config <=? 0 then (None, st)
  else match cache_get uri (cache st) with
       | None => (None, st)
       | Some entry =>
           if now o >? expiresAt entry
           then (None, with_cache (cache_delete uri (cache st)) st)
           else (Some (value entry), st)
       end.

Definition setCache (o : Oracle) (uri : JsValue) (v : string) (st : State) : State :=
  if cacheTTL config <=? 0 then st
  else with_cache
         (cache_set uri {| value := v; expiresAt := now o + cacheTTL config |} (cache st))
         st.

(** The executor of the promise made by waitForApproval; the two callbacks
    it arms are [onTimeout] and [onPoll] below. *)
Definition waitForApproval (requestId : string) (st : State) : list Event * nat * State :=
  let promise := nextId st in
  let timer := S promise in
  let pollInterval := S timer in
  ([SetTimeout timer (approvalTimeoutMs config); SetInterval pollInterval 500;
    RegistrySet requestId],
   promise,
   with_nextId (S pollInterval)
     (with_timers (<[pollInterval := PollTask requestId]>
                     (<[timer := TimeoutTask requestId promise]> (timers st)))
        (with_pendingRequests
           (<[requestId := {| resolve := promise; timer := timer;
                              pollInterval := pollInterval |}]> (pendingRequests st))
           st))).

Definition cleanup (requestId : JsValue) (st : State) : list Event * State :=
  match requestId with
  | JString id =>
      match pendingRequests st !! id with
      | None => ([], st)
      | Some pending =>
          let file := id +:+ ".json" in
          ([ClearTimeout (timer pending); ClearInterval (pollInterval pending);
            RegistryDelete id; UnlinkSync file],
           with_pendingDir (delete file (pendingDir st))
             (with_pendingRequests (delete id (pendingRequests st))
                (with_timers (delete (pollInterval pending)
                                (delete (timer pending) (timers st))) st)))
      end
  | _ => ([], st)
  end.

Definition resolveApproval (requestId approved : JsValue) (st : State)
  : bool * list Event * State :=
  match registry_get requestId st with
  | None => (false, [], st)
  | Some pending =>
      let '(ev, st1) := cleanup requestId st in
      let b := Js.truthy approved in          (* !!approved *)
      (true, ev ++ [ResolveCall (resolve pending) b],
       settle (resolve pending) (Fulfilled b) st1)
  end.

Definition timeoutMessage : string :=
  "Approval timed out after "
    +:+ Number_toString (SFdiv 53 1024 (Js.of_Z (approvalTimeoutMs config)) (Js.of_Z 1000))
    +:+ "s".

(** The setTimeout callback of waitForApproval, for the timer [handle]. *)
Definition onTimeout (handle : nat) (st : State) : list Event * State :=
  match timers st !! handle with
  | Some (TimeoutTask requestId promise) =>
      let '(ev, st1) := cleanup (JString requestId)
                          (with_timers (delete handle (timers st)) st) in
      (ev ++ [RejectCall promise timeoutMessage],
       settle promise (Rejected timeoutMessage) st1)
  | _ => ([], st)
  end.

(** One run of the setInterval callback of waitForApproval, for the
    interval [handle]. Whatever is thrown inside is swallowed by its catch. *)
Definition onPoll (handle : nat) (st : State) : list Event * State :=
  match timers st !! handle with
  | Some (PollTask requestId) =>
      let filePath := requestId +:+ ".json" in
      match pendingDir st !! filePath with
      | None => ([ExistsSync filePath], st)
      | Some content =>
          match JSON_parse content with
          | None => ([ExistsSync filePath; ReadFileSync filePath], st)
          | Some data =>
              let st1 := with_timers (delete handle (timers st))
                           (with_pendingDir (delete filePath (pendingDir st)) st) in
              let ev := [ExistsSync filePath; ReadFileSync filePath;
                         UnlinkSync filePath; ClearInterval handle] in
              match Js.get data "approved" with
              | Throw _ => (ev, st1)
              | Normal approved =>
                  let '(_, ev', st2) := resolveApproval (JString requestId) approved st1 in
                  (ev ++ ev', st2)
              end
          end
      end
  | _ => ([], st)
  end.

Definition error_response (message : string) : JsValue := JObject [("error", str message)].
Definition value_response (v : string) : JsValue := JObject [("value", str v)].

(** The loop of handleRead over the channels still to prompt: the calls made
    and the message refs collected. *)
Fixpoint sendApprovalRequests (o : Oracle) (chs : list Channel) (requestId : string)
    (params : JsValue) : list Event * list (Channel * JsValue) :=
  match chs with
  | [] => ([], [])
  | channel :: rest =>
      let '(ev, refs) := sendApprovalRequests o rest requestId params in
      match channel_send o channel params with
      | inl ref => (SendApprovalRequest channel params :: ev, (channel, ref) :: refs)
      | inr message =>
          (SendApprovalRequest channel params
             :: AuditLog (JObject [("action", str "channel_error");
                                   ("channel", str (channel_name channel));
                                   ("requestId", str requestId);
                                   ("error", str message)])
             :: ev,
           refs)
      end
  end.

(** The loops over messageRefs. The third argument of the call (item, field
    and vault) is not recorded; an update that fails is swallowed. *)
Definition updateApprovalMessages (refs : list (Channel * JsValue)) (approved : bool)
  : list Event :=
  (fun r => UpdateApprovalMessage (fst r) (snd r) approved) <$> refs.

(** handleRead up to its return, or up to its await on waitForApproval. *)
Definition handleRead (st : State) (o : Oracle) (request : JsValue) : Progress :=
  match Js.get request "uri", Js.get request "reason" with
  | Throw m, _ | _, Throw m => Finished [] (Reject m) st
  | Normal uri, Normal reason =>
  if negb (Js.truthy uri) then
    Finished [] (Return (error_response
                           ("Missing " +:+ Js.dquote +:+ "uri" +:+ Js.dquote +:+ " field"))) st
  else
  match parseUri uri with
  | Throw m => Finished [] (Reject m) st
  | Normal None =>
      match toString uri with
      | Throw m => Finished [] (Reject m) st
      | Normal rendered =>
          Finished [] (Return (error_response ("Invalid URI: " +:+ rendered))) st
      end
  | Normal (Some parsed) =>
  let vaultLower := Js.toLowerCase (vault parsed) in
  (* Open vault: read directly *)
  if bool_decide (vaultLower ∈ OPEN_VAULTS) then
    let allowed :=
      AuditLog (JObject [("action", str "read"); ("uri", uri);
                         ("vault", str (vault parsed)); ("item", str (item parsed));
                         ("field", str (field parsed));
                         ("type", str "open"); ("result", str "allowed")]) in
    match provider_read o uri None with
    | inl v => Finished [allowed; ProviderRead uri None] (Return (value_response v)) st
    | inr message =>
        Finished [allowed; ProviderRead uri None;
                  AuditLog (JObject [("action", str "read_error"); ("uri", uri);
                                     ("error", str message)])]
                 (Return (error_response message)) st
    end
  (* Gated vault: require approval *)
  else if bool_decide (vaultLower ∈ GATED_VAULTS) then
    if negb (Js.truthy reason) then
      Finished [] (Return (error_response
                             ("Reason is REQUIRED for gated vault items. Pass --reason "
                                +:+ Js.dquote +:+ "..." +:+ Js.dquote))) st
    else
    match matchesStandingApproval (item parsed) reason with
    | Throw m => Finished [] (Reject m) st
    | Normal (Some standing) =>
        let noted :=
          AuditLog (JObject [("action", str "read"); ("uri", uri);
                             ("vault", str (vault parsed)); ("item", str (item parsed));
                             ("field", str (field parsed));
                             ("type", str "gated"); ("result", str "standing_approval");
                             ("standingNote", sa_note standing); ("reason", reason)]) in
        let options := Some {| useServiceAccount := true |} in
        match provider_read o uri options with
        | inl v =>
            Finished [noted; ProviderRead uri options;
                      AuditLog (JObject [("action", str "read"); ("uri", uri);
                                         ("vault", str (vault parsed));
                                         ("item", str (item parsed));
                                         ("field", str (field parsed));
                                         ("type", str "gated");
                                         ("result", str "standing_approved_read")])]
                     (Return (value_response v)) st
        | inr message =>
            Finished [noted; ProviderRead uri options;
                      AuditLog (JObject [("action", str "read_error"); ("uri", uri);
                                         ("error", str message)])]
                     (Return (error_response message)) st
        end
    | Normal None =>
    (* Check cache *)
    match getCached o uri st with
    | (Some cached, st1) =>
        Finished [AuditLog (JObject [("action", str "read"); ("uri", uri);
                                     ("vault", str (vault parsed));
                                     ("item", str (item parsed));
                                     ("field", str (field parsed));
                                     ("type", str "gated"); ("result", str "cache_hit")])]
                 (Return (value_response cached)) st1
    | (None, st1) =>
    (* Send approval request to all channels *)
    let requestId := generateRequestId o in
    let requested :=
      AuditLog (JObject [("action", str "request"); ("requestId", str requestId);
                         ("uri", uri); ("vault", str (vault parsed));
                         ("item", str (item parsed)); ("field", str (field parsed));
                         ("reason", reason);
                         ("type", str "gated"); ("result", str "pending")]) in
    let params := JObject [("requestId", str requestId); ("item", str (item parsed));
                           ("field", str (field parsed)); ("vault", str (vault parsed));
                           ("reason", reason)] in
    let '(sent, messageRefs) := sendApprovalRequests o channels requestId params in
    if (length messageRefs =? 0)%nat && (0 <? length channels)%nat then
      Finished (requested :: sent)
               (Return (error_response "Failed to send approval request to any channel")) st1
    else
      (* Wait for approval *)
      let '(armed, promise, st2) := waitForApproval requestId st1 in
      Awaiting (requested :: sent ++ armed)
               {| w_uri := uri; w_reason := reason; w_parsed := parsed;
                  w_requestId := requestId; w_messageRefs := messageRefs;
                  w_promise := promise |}
               st2
    end
    end
  else
    Finished [] (Return (error_response
                           ("Vault " +:+ Js.dquote +:+ vault parsed +:+ Js.dquote
                              +:+ " is not configured as open or gated"))) st
  end
  end.

(** handleRead from the moment its awaited promise is settled, in the state
    and with the answers of that later moment. *)
Definition handleRead_resumed (w : Waiting) (s : Settlement) (st : State) (o : Oracle)
  : list Event * Outcome * State :=
  let uri := w_uri w in
  let parsed := w_parsed w in
  let requestId := w_requestId w in
  let reason := w_reason w in
  match s with
  | Fulfilled approved =>
      let updates := updateApprovalMessages (w_messageRefs w) approved in
      if negb approved then
        (updates ++
           [AuditLog (JObject [("action", str "denied"); ("requestId", str requestId);
                               ("uri", uri); ("vault", str (vault parsed));
                               ("item", str (item parsed)); ("field", str (field parsed));
                               ("reason", reason)])],
         Return (error_response "Request denied by operator"), st)
      else
        let approval :=
          AuditLog (JObject [("action", str "approved"); ("requestId", str requestId);
                             ("uri", uri); ("vault", str (vault parsed));
                             ("item", str (item parsed)); ("field", str (field parsed));
                             ("reason", reason)]) in
        let options := Some {| useServiceAccount := true |} in
        match provider_read o uri options with
        | inl v =>
            (updates ++
               [approval; ProviderRead uri options;
                AuditLog (JObject [("action", str "read"); ("requestId", str requestId);
                                   ("uri", uri); ("vault", str (vault parsed));
                                   ("item", str (item parsed));
                                   ("field", str (field parsed)); ("reason", reason);
                                   ("type", str "gated"); ("result", str "approved_read")])],
             Return (value_response v), setCache o uri v st)
        | inr message =>
            (updates ++
               [approval; ProviderRead uri options;
                AuditLog (JObject [("action", str "read_error");
                                   ("requestId", str requestId); ("uri", uri);
                                   ("error", str message)])],
             Return (error_response message), st)
        end
  | Rejected message =>
      (updateApprovalMessages (w_messageRefs w) false ++
         [AuditLog (JObject [("action", str "timeout"); ("requestId", str requestId);
                             ("uri", uri); ("reason", reason)])],
       Return (error_response message), st)
  end.

Definition handleRequest (st : State) (o : Oracle) (request : JsValue) : Progress :=
  match Js.get request "action" with
  | Throw m => Finished [] (Reject m) st
  | Normal action =>
      if is_literal action "read" then handleRead st o request
      else if is_literal action "ping" then
        Finished [] (Return (JObject [("status", str "ok");
                                      ("pending", num (Z.of_nat (size (pendingRequests st))))]))
                 st
      else if is_literal action "status" then
        Finished []
          (Return (JObject [("status", str "running");
                            ("pending", num (Z.of_nat (size (pendingRequests st))));
                            ("cacheSize", num (Z.of_nat (length (cache st))));
                            ("uptime", num (Qfloor (uptime o)));
                            ("channels", JArray ((fun c => str (channel_name c)) <$> channels));
                            ("provider", str provider_name)]))
          st
      else
        match toString action with
        | Throw m => Finished [] (Reject m) st
        | Normal rendered =>
            Finished [] (Return (error_response ("Unknown action: " +:+ rendered))) st
        end
  end.

(** The writeHead and end calls of one HTTP exchange. *)
Record HttpResponse := {
  statusCode : Z;
  body : JsValue
}.

(** ERR_HTTP_HEADERS_SENT, thrown by writeHead once the response is under
    way. *)
Definition headersSent : string := "Cannot write headers after they are sent to the client".

(** The end listener of POST /callback, on the collected [text] of the
    request body (what its chunks decode to, each on its own, in order).
    After the answer the listener logs the id of the request.
    When the id does not render, the TypeError is thrown inside the try
    block, after res.end: the catch block calls writeHead on a response whose
    headers are sent, that call throws, and nothing catches it. *)
Definition postCallback (text : string) (st : State) : list Event * HttpResponse * State :=
  let invalid := {| statusCode := 400; body := error_response "Invalid JSON" |} in
  match JSON_parse text with
  | None => ([], invalid, st)
  | Some data =>
      match Js.get data "requestId" with
      | Throw _ => ([], invalid, st)
      | Normal requestId =>
          if negb (Js.truthy requestId) then
            ([], {| statusCode := 400; body := error_response "Missing requestId" |}, st)
          else
            match Js.get data "approved" with
            | Throw _ => ([], invalid, st)
            | Normal approved =>
                let '(resolved, ev, st1) := resolveApproval requestId approved st in
                let answer :=
                  {| statusCode := 200;
                     body := JObject [("ok", JBool true); ("resolved", JBool resolved)] |} in
                match toString requestId with
                | Normal _ => (ev, answer, st1)
                | Throw _ => (ev ++ [Uncaught headersSent], answer, st1)
                end
            end
      end
  end.
End Daemon.

(** ** src/lib/socket.js: one connection of SocketServer *)

(** The handler given to the constructor is asynchronous: a call returns a
    promise at once and the promise settles in a later job of the event loop.
    A connection is therefore driven by two kinds of events: a chunk arrives,
    or the promise of an earlier call settles. Each line that gets a response
    is numbered in arrival order, and each write is recorded with the number
    of the line it answers. *)
Record Connection := {
  buf : string;
  arrived : nat;                        (* lines answered or handed over so far *)
  inflight : list (nat * JsValue);      (* calls of the handler still unsettled *)
  written : list (nat * JsValue)        (* conn.write calls, oldest first *)
}.

Inductive ConnEvent :=
| Data (chunk : Buffer)                       (* conn.on('data') *)
| Settled (line : nat) (outcome : Outcome).   (* then / catch of handler(request) *)

Definition newConnection : Connection :=
  {| buf := EmptyString; arrived := 0; inflight := []; written := [] |}.

Section Transport.
Context {runtime : Runtime}.

(** The body of the while loop once [line] has been cut off the buffer. *)
Definition onLine (line rest : string) (c : Connection) : Connection :=
  if Js.blank line then
    {| buf := rest; arrived := arrived c; inflight := inflight c; written := written c |}
  else
    match JSON_parse line with
    | None =>
        {| buf := rest; arrived := S (arrived c); inflight := inflight c;
           written := written c ++ [(arrived c, JObject [("error", JString "Invalid JSON")])] |}
    | Some request =>
        {| buf := rest; arrived := S (arrived c);
           inflight := inflight c ++ [(arrived c, request)];
           written := written c |}
    end.

(** The while loop; every round removes at least the line feed it found, so
    the length of the buffer bounds the number of rounds. *)
Fixpoint drain (rounds : nat) (c : Connection) : Connection :=
  match rounds with
  | O => c
  | S rounds' =>
      match String.index 0 (String Js.newline EmptyString) (buf c) with
      | None => c
      | Some idx =>
          let line := String.substring 0 idx (buf c) in
          let rest := String.substring (S idx) (String.length (buf c) - S idx) (buf c) in
          drain rounds' (onLine line rest c)
      end
  end.

(** The data listener: the chunk is decoded on its own and appended. *)
Definition onData (chunk : Buffer) (c : Connection) : Connection :=
  let text := buf c +:+ Buffer_toString chunk in
  drain (String.length text)
        {| buf := text; arrived := arrived c; inflight := inflight c; written := written c |}.

Definition response_of (o : Outcome) : JsValue :=
  match o with
  | Return result => result
  | Reject message => JObject [("error", JString message)]
  end.

Definition onSettled (line : nat) (o : Outcome) (c : Connection) : Connection :=
  if existsb (fun p => Nat.eqb (fst p) line) (inflight c) then
    {| buf := buf c; arrived := arrived c;
       inflight := List.filter (fun p => negb (Nat.eqb (fst p) line)) (inflight c);
       written := written c ++ [(line, response_of o)] |}
  else c.

Definition connStep (c : Connection) (e : ConnEvent) : Connection :=
  match e with
  | Data chunk => onData chunk c
  | Settled line o => onSettled line o c
  end.

Definition connRun (events : list ConnEvent) : Connection :=
  fold_left connStep events newConnection.

(** The client sends one request at a time: a chunk arrives only when no
    call is in flight and completes at most one line. *)
Fixpoint one_at_a_time (c : Connection) (events : list ConnEvent) : bool :=
  match events with
  | [] => true
  | e :: rest =>
      match e with
      | Data chunk =>
          (length (inflight c) =? 0)%nat
            && (arrived (onData chunk c) <=? S (arrived c))%nat
      | Settled _ _ => true
      end && one_at_a_time (connStep c e) rest
  end.
End Transport.

(** Responses are in request order when the numbers of the answered lines
    increase along the writes. *)
Fixpoint increasing (l : list nat) : bool :=
  match l with
  | a :: (b :: _) as rest => (a <? b)%nat && increasing rest
  | _ => true
  end.

Definition in_request_order (c : Connection) : Prop :=
  increasing (fst <$> written c) = true.

(** [c'] continues [c]: writes and calls were only appended, each under a
    number not used before. *)
Definition continues (c c' : Connection) : Prop :=
  exists W F,
    written c' = written c ++ W
    /\ inflight c' = inflight c ++ F
    /\ arrived c' = (arrived c + length W + length F)%nat
    /\ Forall (fun p => (arrived c <= p.1 < arrived c')%nat) (W ++ F).

(** The invariant of a connection used by one request at a time. *)
Definition orderly (c : Connection) : Prop :=
  increasing (fst <$> written c) = true
  /\ Forall (fun p => (p.1 < arrived c)%nat) (written c)
  /\ (length (inflight c) <= 1)%nat
  /\ Forall (fun p => (p.1 < arrived c)%nat
                      /\ Forall (fun q => (q.1 < p.1)%nat) (written c))
            (inflight c).

(** ** Vocabulary of the properties *)

Definition trace_of (p : Progress) : list Event :=
  match p with
  | Finished trace _ _ | Awaiting trace _ _ => trace
  end.

Definition state_of (p : Progress) : State :=
  match p with
  | Finished _ _ st | Awaiting _ _ st => st
  end.

(** The response of a handler that has returned one. *)
Definition response_to (p : Progress) : option JsValue :=
  match p with
  | Finished _ (Return response) _ => Some response
  | _ => None
  end.

(** The calls of provider.read in a trace, in order. *)
Fixpoint provider_calls (trace : list Event) : list (JsValue * option ReadOptions) :=
  match trace with
  | [] => []
  | ProviderRead uri options :: rest => (uri, options) :: provider_calls rest
  | _ :: rest => provider_calls rest
  end.

(** The calls of channel.sendApprovalRequest in a trace. *)
Fixpoint prompts (trace : list Event) : list Channel :=
  match trace with
  | [] => []
  | SendApprovalRequest channel _ :: rest => channel :: prompts rest
  | _ :: rest => prompts rest
  end.

(** The entries given to audit.log in a trace. *)
Fixpoint audited (trace : list Event) : list JsValue :=
  match trace with
  | [] => []
  | AuditLog entry :: rest => entry :: audited rest
  | _ :: rest => audited rest
  end.

(** The calls of a one-shot resolver in a trace. *)
Fixpoint resolver_calls (trace : list Event) : list (nat * bool) :=
  match trace with
  | [] => []
  | ResolveCall promise approved :: rest => (promise, approved) :: resolver_calls rest
  | _ :: rest => resolver_calls rest
  end.

Definition has_result (result : string) (entry : JsValue) : bool :=
  match Js.get entry "result" with
  | Normal v => is_literal v result
  | Throw _ => false
  end.

Definition keys (v : JsValue) : list string :=
  match v with
  | JObject props => fst <$> props
  | _ => []
  end.

(** The response that carries the answer of provider.read. *)
Definition read_response (answer : string + string) : JsValue :=
  match answer with
  | inl v => JObject [("value", JString v)]
  | inr message => JObject [("error", JString message)]
  end.

Definition elevated_options : option ReadOptions := Some {| useServiceAccount := true |}.

Inductive Classification := Open | Gated | Unknown.

Section Vocabulary.
Context {runtime : Runtime} {provider : Provider}.
Variable config : Config.
Variable channels : list Channel.

(** Classification of a container, as the two tests of handleRead decide it. *)
Definition classify (container : string) : Classification :=
  if bool_decide (Js.toLowerCase container ∈ OPEN_VAULTS config) then Open
  else if bool_decide (Js.toLowerCase container ∈ GATED_VAULTS config) then Gated
  else Unknown.

(** The reference of a read request, when the request carries one that the
    provider recognises. *)
Definition reference_of (request : JsValue) : option (JsValue * ParsedUri) :=
  match Js.get request "uri", Js.get request "reason" with
  | Normal uri, Normal _ =>
      if Js.truthy uri then
        match parseUri uri with
        | Normal (Some parsed) => Some (uri, parsed)
        | _ => None
        end
      else None
  | _, _ => None
  end.

(** A whole run of handleRead: up to the await, and, if it awaits, from the
    settlement [s] of its promise on, in the state [st'] and with the answers
    [o'] of that moment. *)
Definition handleRead_run (st : State) (o : Oracle) (request : JsValue)
    (s : Settlement) (st' : State) (o' : Oracle) : list Event * Outcome * State :=
  match handleRead config channels st o request with
  | Finished trace outcome st1 => (trace, outcome, st1)
  | Awaiting trace w _ =>
      let '(trace', outcome, st2) := handleRead_resumed config w s st' o' in
      (trace ++ trace', outcome, st2)
  end.

(** The rule of the specification: exact match, or prefix match when the
    pattern ends with an asterisk. *)
Definition rule_matches (sa : StandingApproval) (item reason : string) : bool :=
  String.eqb (sa_item sa) item
    && (String.eqb (sa_reasonMatch sa) reason
        || (Js.endsWith (sa_reasonMatch sa) "*"
            && Js.startsWith reason (Js.dropLast (sa_reasonMatch sa)))).

Definition first_match (item reason : string) : option StandingApproval :=
  if String.eqb reason EmptyString then None
  else List.find (fun sa => rule_matches sa item reason) (standingApprovals config).
End Vocabulary.

(** ** The event loop *)

(** The jobs that touch the state of the daemon; the event loop runs them one
    at a time, each to its end or to its next await. *)
Inductive Job :=
| Request (o : Oracle) (request : JsValue)            (* a request reaches handleRequest *)
| Resume (w : Waiting) (s : Settlement) (o : Oracle)  (* handleRead goes on after its await *)
| Callback (text : string)                            (* a body was posted to /callback *)
| TimerFired (handle : nat)                           (* a timeout of waitForApproval *)
| IntervalFired (handle : nat).                       (* an interval of waitForApproval *)

Definition initialState : State := {|
  pendingRequests := ∅; cache := []; pendingDir := ∅; timers := ∅;
  promises := ∅; nextId := 0
|}.

(** The process has ended: an exception went uncaught. *)
Definition exited (trace : list Event) : bool :=
  existsb (fun e => match e with Uncaught _ => true | _ => false end) trace.

Section EventLoop.
Context {runtime : Runtime} {provider : Provider}.
Variable config : Config.
Variable channels : list Channel.

Definition runJob (st : State) (j : Job) : list Event * State :=
  match j with
  | Request o request =>
      let p := handleRequest config channels st o request in (trace_of p, state_of p)
  | Resume w s o =>
      let '(trace, _, st1) := handleRead_resumed config w s st o in (trace, st1)
  | Callback text =>
      let '(trace, _, st1) := postCallback text st in (trace, st1)
  | TimerFired handle => onTimeout config handle st
  | IntervalFired handle => onPoll handle st
  end.

End EventLoop.

(** The registry holds the resolvers that can still be called: promises made
    so far, each under one id, none of them called yet. *)
Definition registry_sound (m : gmap string Pending) (next : nat) (called : list nat) : Prop :=
  (forall id p, m !! id = Some p -> (resolve p < next)%nat /\ resolve p ∉ called)
  /\ (forall id1 id2 p1 p2,
        m !! id1 = Some p1 -> m !! id2 = Some p2 -> resolve p1 = resolve p2 -> id1 = id2)
  /\ (forall c, c ∈ called -> (c < next)%nat)
  /\ NoDup called.

(** What one job does to the registry and to the resolvers. *)
Inductive Effect (st : State) (trace : list Event) (st' : State) : Prop :=
| Untouched :
    resolver_calls trace = [] ->
    pendingRequests st' = pendingRequests st -> nextId st' = nextId st ->
    Effect st trace st'
| Dropped (id : string) :
    resolver_calls trace = [] ->
    pendingRequests st' = delete id (pendingRequests st) -> nextId st' = nextId st ->
    Effect st trace st'
| Resolved (id : string) (p : Pending) (b : bool) :
    pendingRequests st !! id = Some p ->
    resolver_calls trace = [(resolve p, b)] ->
    pendingRequests st' = delete id (pendingRequests st) -> nextId st' = nextId st ->
    Effect st trace st'
| Registered (id : string) :
    resolver_calls trace = [] ->
    pendingRequests st'
    = <[id := {| resolve := nextId st; timer := S (nextId st);
                 pollInterval := S (S (nextId st)) |}]> (pendingRequests st) ->
    nextId st' = S (S (S (nextId st))) ->
    Effect st trace st'.

(** ** Concrete collaborators, for the examples *)

Module Sample.

Definition quoted (s : string) : string := Js.dquote +:+ s +:+ Js.dquote.

(** The provider of src/providers/onepassword.js. Its parseUri applies
    uri.match with the pattern op://vault/item/field, where vault and item
    hold no slash and field holds no line terminator. *)
Fixpoint untilSlash (s : string) : option (string * string) :=
  match s with
  | EmptyString => None
  | String a rest =>
      if Ascii.eqb a "/" then Some (EmptyString, rest)
      else match untilSlash rest with
           | Some (before, after) => Some (String a before, after)
           | None => None
           end
  end.

Fixpoint singleLine (s : string) : bool :=
  match s with
  | EmptyString => true
  | String a rest =>
      negb (Nat.eqb (nat_of_ascii a) 10 || Nat.eqb (nat_of_ascii a) 13) && singleLine rest
  end.

Definition matchOp (s : string) : option ParsedUri :=
  if negb (String.prefix "op://" s) then None
  else
    match untilSlash (String.substring 5 (String.length s - 5) s) with
    | None => None
    | Some (v, rest) =>
        match untilSlash rest with
        | None => None
        | Some (i, f) =>
            if String.eqb v EmptyString || String.eqb i EmptyString
               || String.eqb f EmptyString || negb (singleLine f)
            then None
            else Some {| vault := v; item := i; field := f |}
        end
    end.

#[export] Instance onepassword : Provider := {|
  provider_name := "onepassword";
  parseUri uri :=
    match uri with
    | JString s => Normal (matchOp s)
    | _ => Throw "uri.match is not a function"
    end
|}.

Definition requestId : string := "00a1b2c3d4e5f607".

Definition approveBody : string :=
  "{" +:+ quoted "requestId" +:+ ":" +:+ quoted requestId +:+ ","
      +:+ quoted "approved" +:+ ":true}".
Definition bareBody : string :=
  "{" +:+ quoted "requestId" +:+ ":" +:+ quoted requestId +:+ "}".
(** A callback whose requestId is an object with a toString property. *)
Definition spoiledBody : string :=
  "{" +:+ quoted "requestId" +:+ ":{" +:+ quoted "toString" +:+ ":1}}".
Definition approvedFile : string := "{" +:+ quoted "approved" +:+ ":true}".
Definition statusLine : string := "{" +:+ quoted "action" +:+ ":" +:+ quoted "status" +:+ "}".
Definition pingLine : string := "{" +:+ quoted "action" +:+ ":" +:+ quoted "ping" +:+ "}".

(** JSON.parse on the documents the examples use. The texts oops and x,
    which are not JSON, are not among them. *)
Definition documents : list (string * JsValue) :=
  [ ("null", JNull);
    ("1", JNumber (Js.of_Z 1));
    (approveBody, JObject [("requestId", JString requestId); ("approved", JBool true)]);
    (bareBody, JObject [("requestId", JString requestId)]);
    (spoiledBody,
     JObject [("requestId", JObject [("toString", JNumber (Js.of_Z 1))])]);
    (approvedFile, JObject [("approved", JBool true)]);
    (statusLine, JObject [("action", JString "status")]);
    (pingLine, JObject [("action", JString "ping")]) ].

(** Number::toString on the whole numbers of magnitude below 2^53, which are
    rendered by their decimal digits; the examples render no other number. *)
Definition wholeToString (n : spec_float) : string :=
  match n with
  | S754_zero _ => "0"
  | S754_nan => "NaN"
  | S754_infinity false => "Infinity"
  | S754_infinity true => "-Infinity"
  | S754_finite s m e =>
      let magnitude :=
        if (0 <=? e)%Z then pretty (Z.pos m * 2 ^ e)%Z
        else pretty (Z.pos m / 2 ^ (- e))%Z in
      if s then "-" +:+ magnitude else magnitude
  end.

(** UTF-8 decoding of bytes below 128, each of which stands for itself; the
    examples send no other byte. *)
Definition asciiToString (bytes : Buffer) : string := bytes.

#[export] Instance runtime : Runtime := {|
  JSON_parse text := Js.assoc text documents;
  Number_toString := wholeToString;
  Buffer_toString := asciiToString
|}.

Definition telegram : Channel := {| channel_name := "telegram" |}.

Definition config : Config := {|
  cacheTTL := 900000;
  approvalTimeoutMs := 300000;
  openVaults := ["Pub"];
  gatedVaults := ["Sec"];
  standingApprovals :=
    [ {| sa_item := "cron-key"; sa_reasonMatch := "cron:*"; sa_note := JString "nightly" |} ]
|}.

(** A vault listed as open and as gated, and no caching. *)
Definition overlapping : Config := {|
  cacheTTL := 0;
  approvalTimeoutMs := 300000;
  openVaults := ["Both"];
  gatedVaults := ["both"; "Sec"];
  standingApprovals := []
|}.

Definition entropy : vec Byte.byte 8 :=
  [# Byte.x00; Byte.xa1; Byte.xb2; Byte.xc3; Byte.xd4; Byte.xe5; Byte.xf6; Byte.x07].

(** The provider answers v, every channel accepts the prompt. *)
Definition oracle : Oracle := {|
  now := 1000;
  uptime := 25 # 2;
  randomBytes := entropy;
  provider_read _ _ := inl "v";
  channel_send _ _ := inl (JObject [("messageId", JNumber (Js.of_Z 7))])
|}.

Definition idle : State := initialState.

Definition readRequest (uri : string) (reason : JsValue) : JsValue :=
  JObject [("action", JString "read"); ("uri", JString uri); ("reason", reason)].

(** The state in which one gated read is waiting for its approval. *)
Definition waiting : State :=
  match handleRead config [telegram] idle oracle
          (readRequest "op://Sec/stripe/key" (JString "check webhook")) with
  | Awaiting _ _ st => st
  | Finished _ _ st => st
  end.

(** The same, with a file dropped for the waiting request. *)
Definition dropped (content : string) : State :=
  with_pendingDir (<[requestId +:+ ".json" := content]> (pendingDir waiting)) waiting.

End Sample.

(** * Further parts of the code *)

(** ** Further vocabulary for src/daemon.js *)

(** The calls of channel.updateApprovalMessage in a trace, in order. *)
Fixpoint updates (trace : list Event) : list (Channel * JsValue * bool) :=
  match trace with
  | [] => []
  | UpdateApprovalMessage channel ref approved :: rest => (channel, ref, approved) :: updates rest
  | _ :: rest => updates rest
  end.

(** The boolean with which handleRead updates the channel messages. *)
Definition approved_of (s : Settlement) : bool :=
  match s with
  | Fulfilled approved => approved
  | Rejected _ => false
  end.

(** The channels that accept a prompt, each with the message ref it answers. *)
Definition successes (o : Oracle) (chs : list Channel) (params : JsValue)
  : list (Channel * JsValue) :=
  omap (fun channel =>
          match channel_send o channel params with
          | inl ref => Some (channel, ref)
          | inr _ => None
          end) chs.

(** The audit entries written for the channels that refuse a prompt. *)
Definition channel_errors (o : Oracle) (chs : list Channel) (requestId : string)
    (params : JsValue) : list JsValue :=
  omap (fun channel =>
          match channel_send o channel params with
          | inl _ => None
          | inr message =>
              Some (JObject [("action", str "channel_error");
                             ("channel", str (channel_name channel));
                             ("requestId", str requestId);
                             ("error", str message)])
          end) chs.

(** The argument of sendApprovalRequest built by handleRead. *)
Definition promptParams (o : Oracle) (parsed : ParsedUri) (reason : JsValue) : JsValue :=
  JObject [("requestId", str (generateRequestId o)); ("item", str (item parsed));
           ("field", str (field parsed)); ("vault", str (vault parsed));
           ("reason", reason)].

Definition isLowerHex (a : ascii) : bool :=
  let n := nat_of_ascii a in
  ((48 <=? n) && (n <=? 57) || (97 <=? n) && (n <=? 102))%nat.

Section ApprovalPath.
Context {runtime : Runtime} {provider : Provider}.
Variable config : Config.

(** The request reaches the approval path of handleRead: its reference is
    recognised, its container is gated, it gives a reason, no standing
    approval matches and the cache has no fresh value. *)
Definition asks_approval (st : State) (o : Oracle) (request uri : JsValue)
    (parsed : ParsedUri) (reason : JsValue) : Prop :=
  reference_of request = Some (uri, parsed)
  /\ Js.get request "reason" = Normal reason
  /\ classify config (vault parsed) = Gated
  /\ Js.truthy reason = true
  /\ matchesStandingApproval config (item parsed) reason = Normal None
  /\ (getCached config o uri st).1 = None.
End ApprovalPath.

(** ** src/daemon.js: the request listener of startHttpServer *)

(** [s] without its prefix [p]. *)
Fixpoint stripPrefix (p s : string) : option string :=
  match p, s with
  | EmptyString, _ => Some s
  | String a p', String b s' => if Ascii.eqb a b then stripPrefix p' s' else None
  | String _ _, EmptyString => None
  end.

(** The alternation (approve|deny) followed by a colon: the decision and
    what follows. *)
Definition matchAction (s : string) : option (bool * string) :=
  match stripPrefix "approve:" s with
  | Some rest => Some (true, rest)
  | None =>
      match stripPrefix "deny:" s with
      | Some rest => Some (false, rest)
      | None => None
      end
  end.

(** s.match(/^ag:(approve|deny):(.+)$/): the decision and the id. The dot
    takes no line terminator and, without the m flag, the dollar is the end
    of the string. *)
Definition matchCallbackData (s : string) : option (bool * string) :=
  match stripPrefix "ag:" s with
  | None => None
  | Some rest =>
      match matchAction rest with
      | None => None
      | Some (approve, id) =>
          if String.eqb id EmptyString || negb (Sample.singleLine id) then None
          else Some (approve, id)
      end
  end.

(** The callback data a channel puts on its two buttons
    (src/channels/telegram.js). *)
Definition callbackData (approve : bool) (requestId : string) : string :=
  "ag:" +:+ (if approve then "approve" else "deny") +:+ ":" +:+ requestId.

(** What the request listener answers: the status of writeHead and the
    document given to res.end, if any. The three Access-Control headers are
    the same on every answer and are left out. *)
Record Reply := {
  status : Z;
  payload : option JsValue
}.

Definition json (r : HttpResponse) : Reply :=
  {| status := statusCode r; payload := Some (body r) |}.

Section HttpServer.
Context {runtime : Runtime}.

(** The end listener of POST /channel-callback, on the collected [text] of
    the request body. A callback_data that is truthy and not a string has no
    match method: the call throws inside the try. *)
Definition postChannelCallback (text : string) (st : State)
  : list Event * HttpResponse * State :=
  let invalid := {| statusCode := 400; body := error_response "Invalid JSON" |} in
  match JSON_parse text with
  | None => ([], invalid, st)
  | Some data =>
      match Js.get data "callback_data" with
      | Throw _ => ([], invalid, st)
      | Normal callback_data =>
          match (if Js.truthy callback_data then callback_data else JString "") with
          | JString s =>
              match matchCallbackData s with
              | None =>
                  ([], {| statusCode := 400;
                          body := error_response "Invalid callback_data" |}, st)
              | Some (approve, id) =>
                  let '(resolved, ev, st1) :=
                    resolveApproval (JString id) (JBool approve) st in
                  (ev,
                   {| statusCode := 200;
                      body := JObject [("ok", JBool true); ("resolved", JBool resolved)] |},
                   st1)
              end
          | _ => ([], invalid, st)
          end
      end
  end.

(** The listener given to http.createServer, for a request with the given
    method and url whose body is [text]. *)
Definition requestListener (method url text : string) (st : State)
  : list Event * Reply * State :=
  if String.eqb method "OPTIONS" then
    ([], {| status := 200; payload := None |}, st)
  else if String.eqb method "GET" && String.eqb url "/health" then
    ([], json {| statusCode := 200;
                 body := JObject [("status", str "ok");
                                  ("pending", num (Z.of_nat (size (pendingRequests st))))] |},
     st)
  else if String.eqb method "POST" && String.eqb url "/callback" then
    let '(ev, response, st1) := postCallback text st in (ev, json response, st1)
  else if String.eqb method "POST" && String.eqb url "/channel-callback" then
    let '(ev, response, st1) := postChannelCallback text st in (ev, json response, st1)
  else
    ([], json {| statusCode := 404; body := error_response "Not found" |}, st).
End HttpServer.

(** ** src/watcher.js *)

(** The pattern /ag:(approve|deny):([a-f0-9]{16})/g holds ASCII characters
    only, and decoding a buffer as UTF-8 keeps every ASCII byte in its place
    and turns the other bytes into characters outside ASCII: the search is
    made on the bytes of the chunk. *)

(** Sixteen characters among 0-9 and a-f at the start of [s]. *)
Definition takeId (s : string) : option string :=
  let id := String.substring 0 16 s in
  if (String.length id =? 16)%nat && forallb isLowerHex (list_ascii_of_string id)
  then Some id else None.

(** A match of the pattern that starts at the first character of [s]. *)
Definition matchHere (s : string) : option (bool * string) :=
  match stripPrefix "ag:" s with
  | None => None
  | Some rest =>
      match matchAction rest with
      | None => None
      | Some (approve, rest') =>
          match takeId rest' with
          | Some id => Some (approve, id)
          | None => None
          end
      end
  end.

(** The matches that the loop over CALLBACK_RE.exec finds, from left to
    right; after a match the search goes on behind it. [skip] counts the
    characters of the last match that are still ahead. *)
Fixpoint execAll (skip : nat) (s : string) : list (bool * string) :=
  match s with
  | EmptyString => []
  | String _ rest =>
      match skip with
      | S k => execAll k rest
      | O =>
          match matchHere s with
          | Some (approve, id) =>
              (approve, id)
                :: execAll (String.length (callbackData approve id) - 1) rest
          | None => execAll 0 rest
          end
      end
  end.

Record Watcher := {
  processed : gset string;
  filePositions : gmap string N
}.

Definition newWatcher : Watcher := {| processed := ∅; filePositions := ∅ |}.

(** What the watcher does for a match it has not seen before. *)
Inductive WatcherEvent :=
| Routed (approve : bool) (requestId : string)        (* writeFileSync returned *)
| WriteFailed (approve : bool) (requestId : string).  (* writeFileSync threw *)

Definition actionOf (approve : bool) : string := if approve then "approve" else "deny".

(** `${action}:${requestId}` *)
Definition keyOf (approve : bool) (requestId : string) : string :=
  actionOf approve +:+ ":" +:+ requestId.

(** JSON.stringify({ approved }) *)
Definition stringifyApproved (approved : bool) : string :=
  "{" +:+ Js.dquote +:+ "approved" +:+ Js.dquote +:+ ":"
      +:+ (if approved then "true" else "false") +:+ "}".

(** Read at most 64KB at a time. *)
Definition WINDOW : N := 65536.

Section WatcherFiles.
(** Whether writeFileSync succeeds on a file of the pending directory. *)
Variable writable : string -> bool.

(** The body of the while loop of scanFile, over the matches of one chunk. *)
Fixpoint route (matches : list (bool * string)) (seen : gset string)
    (dir : gmap string string) : list WatcherEvent * gset string * gmap string string :=
  match matches with
  | [] => ([], seen, dir)
  | (approve, requestId) :: rest =>
      let key := keyOf approve requestId in
      if bool_decide (key ∈ seen) then route rest seen dir
      else
        let seen1 := {[key]} ∪ seen in
        let outPath := requestId +:+ ".json" in
        if writable outPath then
          let '(ev, seen2, dir2) :=
            route rest seen1 (<[outPath := stringifyApproved approve]> dir) in
          (Routed approve requestId :: ev, seen2, dir2)
        else
          let '(ev, seen2, dir2) := route rest seen1 dir in
          (WriteFailed approve requestId :: ev, seen2, dir2)
  end.

(** Where scanFile starts to read a file with the given content: at the
    recorded position, or at 0 when the file is shorter than that. *)
Definition startOf (w : Watcher) (filePath content : string) : N :=
  let recorded := default 0%N (filePositions w !! filePath) in
  if (N.of_nat (String.length content) <? recorded)%N then 0%N else recorded.

(** The chunk that scanFile reads. *)
Definition windowOf (w : Watcher) (filePath content : string) : string :=
  let lastPos := startOf w filePath content in
  let bufSize := N.min (N.of_nat (String.length content) - lastPos) WINDOW in
  String.substring (N.to_nat lastPos) (N.to_nat bufSize) content.

(** scanFile(filePath), on the session files [files] (contents by path) and
    the pending directory [dir]. A file that is shorter than the recorded
    position has its position reset and is scanned again at once, which the
    model writes as one pass from position 0; a file that statSync finds can
    be opened and read. *)
Definition scanFile (files : gmap string string) (filePath : string) (w : Watcher)
    (dir : gmap string string) : list WatcherEvent * Watcher * gmap string string :=
  match files !! filePath with
  | None => ([], w, dir)
  | Some content =>
      let size := N.of_nat (String.length content) in
      let recorded := default 0%N (filePositions w !! filePath) in
      let positions := if (size <? recorded)%N then <[filePath := 0%N]> (filePositions w)
                       else filePositions w in
      let lastPos := startOf w filePath content in
      if (size =? lastPos)%N then
        ([], {| processed := processed w; filePositions := positions |}, dir)
      else
        let bufSize := N.min (size - lastPos) WINDOW in
        let '(ev, seen, dir1) :=
          route (execAll 0 (windowOf w filePath content)) (processed w) dir in
        (ev,
         {| processed := seen;
            filePositions := <[filePath := (lastPos + bufSize)%N]> positions |},
         dir1)
  end.

(** The life of the watcher: a sequence of calls of scanFile, from poll or
    from the fs.watch listener, each on the session files as they are at
    that time. *)
Fixpoint watch (scans : list (gmap string string * string)) (w : Watcher)
    (dir : gmap string string) : list WatcherEvent * Watcher * gmap string string :=
  match scans with
  | [] => ([], w, dir)
  | (files, filePath) :: rest =>
      let '(ev, w1, dir1) := scanFile files filePath w dir in
      let '(ev', w2, dir2) := watch rest w1 dir1 in
      (ev ++ ev', w2, dir2)
  end.
End WatcherFiles.

(** The decisions for which the watcher called writeFileSync, in order. *)
Definition attempts (events : list WatcherEvent) : list string :=
  (fun e => match e with
            | Routed approve requestId | WriteFailed approve requestId =>
                keyOf approve requestId
            end) <$> events.

(** ** src/daemon.js: shutdown, and the daemon as a whole *)

(** The loop of shutdown over the registry, whose keys come in the order
    [ids]: the entry is cleaned up and its resolver is called with false. An
    entry that is gone when its turn comes is not visited. *)
Fixpoint denyAll (ids : list string) (st : State) : list Event * State :=
  match ids with
  | [] => ([], st)
  | id :: rest =>
      match pendingRequests st !! id with
      | None => denyAll rest st
      | Some pending =>
          let '(ev, st1) := cleanup (JString id) st in
          let '(ev', st2) := denyAll rest (settle (resolve pending) (Fulfilled false) st1) in
          (ev ++ ResolveCall (resolve pending) false :: ev', st2)
      end
  end.

(** shutdown(signal), up to process.exit; closing the two servers and
    removing the pid file leave the state of the model as it is. *)
Definition shutdown (signal : string) (pid : Z) (order : list string) (st : State)
  : list Event * State :=
  let '(ev, st1) := denyAll order st in
  (AuditLog (JObject [("action", str "daemon_stop"); ("signal", str signal);
                      ("pid", num pid)]) :: ev,
   with_pendingRequests ∅ st1).

(** Everything that touches the state of the daemon: the jobs of the event
    loop, a request to the callback server, and a file that another process
    puts into the pending directory. *)
Inductive DaemonJob :=
| Loop (j : Job)
| Http (method url text : string)
| FileDrop (name content : string).

(** The ids that a trace registers are not in the registry of [st]. *)
Definition fresh (st : State) (trace : list Event) : bool :=
  forallb (fun e => match e with
                    | RegistrySet id =>
                        match pendingRequests st !! id with
                        | None => true
                        | Some _ => false
                        end
                    | _ => true
                    end) trace.

Section DaemonLoop.
Context {runtime : Runtime} {provider : Provider}.
Variable config : Config.
Variable channels : list Channel.

Definition runDaemonJob (st : State) (j : DaemonJob) : list Event * State :=
  match j with
  | Loop j => runJob config channels st j
  | Http method url text =>
      let '(trace, _, st1) := requestListener method url text st in (trace, st1)
  | FileDrop name content =>
      ([], with_pendingDir (<[name := content]> (pendingDir st)) st)
  end.

Fixpoint runDaemon (st : State) (jobs : list DaemonJob) : list Event * State :=
  match jobs with
  | [] => ([], st)
  | j :: rest =>
      let '(trace, st1) := runDaemonJob st j in
      if exited trace then (trace, st1)
      else
        let '(trace', st2) := runDaemon st1 rest in
        (trace ++ trace', st2)
  end.

(** No id is given out while it is pending: no job of the run registers an
    id that is in the registry when the job starts. *)
Fixpoint distinctIds (st : State) (jobs : list DaemonJob) : bool :=
  match jobs with
  | [] => true
  | j :: rest =>
      let '(trace, st1) := runDaemonJob st j in
      fresh st trace && (exited trace || distinctIds st1 rest)
  end.
End DaemonLoop.

(** The resolver calls that shutdown makes for the registry [m] visited in
    the order [ids]. *)
Definition denials (m : gmap string Pending) (ids : list string) : list (nat * bool) :=
  omap (fun id => (fun pending => (resolve pending, false)) <$> m !! id) ids.

(** ** src/cli.js: cmdRead *)

(** [!v] for a variable that holds null or a string. *)
Definition unset (v : option string) : bool :=
  match v with
  | None => true
  | Some s => String.eqb s EmptyString
  end.

(** The loop of cmdRead over the arguments; [inl] is the message given to
    die, which ends the process. *)
Fixpoint scanArgs (args : list string) (uri reason : option string)
  : string + (option string * option string) :=
  match args with
  | [] => inr (uri, reason)
  | arg :: rest =>
      if String.eqb arg "--reason" || String.eqb arg "-r" then
        match rest with
        | value :: rest' =>
            if String.eqb value EmptyString then inl "--reason requires a value"
            else scanArgs rest' uri (Some value)
        | [] => inl "--reason requires a value"
        end
      else if String.prefix "--reason=" arg then
        scanArgs rest uri (Some (String.substring 9 (String.length arg - 9) arg))
      else if String.prefix "-" arg then inl ("Unknown option: " +:+ arg)
      else if unset uri then scanArgs rest (Some arg) reason
      else inl ("Unexpected argument: " +:+ arg)
  end.

Definition usage : string :=
  "Usage: agent-gate read " +:+ Js.dquote +:+ "op://Vault/Item/field" +:+ Js.dquote
    +:+ " [--reason " +:+ Js.dquote +:+ "..." +:+ Js.dquote +:+ "]".

(** The request that cmdRead sends, or the message it dies with before
    sending anything. checkDaemon, which looks at the socket file, is taken
    to pass. *)
Definition cmdRead_request (args : list string) : string + JsValue :=
  match scanArgs args None None with
  | inl message => inl message
  | inr (uri, reason) =>
      match uri with
      | None => inl usage
      | Some u =>
          if String.eqb u EmptyString then inl usage
          else if negb (String.prefix "op://" u) then inl "URI must start with op://"
          else
            inr (JObject ([("action", str "read"); ("uri", str u)]
                          ++ match reason with
                             | Some r => if String.eqb r EmptyString then []
                                         else [("reason", str r)]
                             | None => []
                             end))
      end
  end.

(** ** src/lib/socket.js: sendRequest *)

(** What happens to the connection of the client and to its timer. *)
Inductive ClientEvent :=
| Connected                     (* conn.on('connect') *)
| Chunk (chunk : Buffer)        (* conn.on('data') *)
| Failed (message : string)     (* conn.on('error') *)
| TimedOut.                     (* the setTimeout callback *)

Record Client := {
  c_buf : string;
  c_done : bool;
  c_settled : option Outcome;   (* how the promise of sendRequest was settled *)
  c_sent : nat;                 (* conn.write calls *)
  c_destroyed : bool;           (* conn.destroy was called *)
  c_timer : bool                (* the timer is armed *)
}.

Definition newClient : Client :=
  {| c_buf := EmptyString; c_done := false; c_settled := None; c_sent := 0;
     c_destroyed := false; c_timer := true |}.

Section ClientSide.
Context {runtime : Runtime}.

(** How the promise is settled on the first line of the response. *)
Definition answer (line : string) : Outcome :=
  match JSON_parse line with
  | Some response => Return response
  | None => Reject ("Invalid response: " +:+ line)
  end.

Definition clientStep (c : Client) (e : ClientEvent) : Client :=
  match e with
  | Connected =>
      {| c_buf := c_buf c; c_done := c_done c; c_settled := c_settled c;
         c_sent := S (c_sent c); c_destroyed := c_destroyed c; c_timer := c_timer c |}
  | Chunk chunk =>
      let buf := c_buf c +:+ Buffer_toString chunk in
      match String.index 0 (String Js.newline EmptyString) buf with
      | Some idx =>
          if c_done c then
            {| c_buf := buf; c_done := c_done c; c_settled := c_settled c;
               c_sent := c_sent c; c_destroyed := c_destroyed c; c_timer := c_timer c |}
          else
            let line := String.substring 0 idx buf in
            {| c_buf := buf; c_done := true;
               c_settled := Some (answer line);
               c_sent := c_sent c; c_destroyed := true; c_timer := false |}
      | None =>
          {| c_buf := buf; c_done := c_done c; c_settled := c_settled c;
             c_sent := c_sent c; c_destroyed := c_destroyed c; c_timer := c_timer c |}
      end
  | Failed message =>
      if c_done c then c
      else
        {| c_buf := c_buf c; c_done := true; c_settled := Some (Reject message);
           c_sent := c_sent c; c_destroyed := c_destroyed c; c_timer := false |}
  | TimedOut =>
      if c_done c then c
      else
        {| c_buf := c_buf c; c_done := true; c_settled := Some (Reject "Request timed out");
           c_sent := c_sent c; c_destroyed := true; c_timer := c_timer c |}
  end.

Definition clientRun (events : list ClientEvent) : Client :=
  fold_left clientStep events newClient.

(** The text received: what the chunks among the events decode to, each on
    its own, in order. *)
Fixpoint received (events : list ClientEvent) : string :=
  match events with
  | [] => EmptyString
  | Chunk chunk :: rest => Buffer_toString chunk +:+ received rest
  | _ :: rest => received rest
  end.
End ClientSide.

(** No error and no timeout among the events. *)
Definition undisturbed (events : list ClientEvent) : bool :=
  forallb (fun e => match e with Failed _ | TimedOut => false | _ => true end) events.

(** The position recorded for a file, 0 when there is none. *)
Definition positionOf (w : Watcher) (filePath : string) : N :=
  default 0%N (filePositions w !! filePath).

Section WatcherReads.
Variable writable : string -> bool.

(** The chunks that the scans of [filePath] read in a run, oldest first. *)
Fixpoint chunksRead (filePath : string) (scans : list (gmap string string * string))
    (w : Watcher) (dir : gmap string string) : list string :=
  match scans with
  | [] => []
  | (files, scanned) :: rest =>
      let '(_, w1, dir1) := scanFile writable files scanned w dir in
      match files !! scanned with
      | Some content =>
          if String.eqb scanned filePath then [windowOf w scanned content] else []
      | None => []
      end ++ chunksRead filePath rest w1 dir1
  end.
End WatcherReads.

(** The file at [filePath] is only appended to: at every scan of it, it
    holds what it held at the scan before, [before] at first, and more. The
    last content seen is [final]. *)
Fixpoint appendOnly (filePath before : string) (scans : list (gmap string string * string))
    (final : string) : Prop :=
  match scans with
  | [] => final = before
  | (files, scanned) :: rest =>
      if String.eqb scanned filePath then
        exists more, files !! filePath = Some (before +:+ more)
                     /\ appendOnly filePath (before +:+ more) rest final
      else appendOnly filePath before rest final
  end.

(** The chunks in one piece. *)
Definition joined (chunks : list string) : string := foldr String.append EmptyString chunks.

(** ** Vocabulary of the further properties *)

(** No slash in [s]: what the class [^/] of the reference pattern takes. *)
Fixpoint slashFree (s : string) : bool :=
  match s with
  | EmptyString => true
  | String a rest => negb (Ascii.eqb a "/") && slashFree rest
  end.

(** What the end listeners of the two POST routes have in common. *)
Definition settles_or_nothing (st : State) (result : list Event * HttpResponse * State) : Prop :=
  let '(trace, response, st') := result in
  (trace = [] /\ st' = st
   /\ body response <> JObject [("ok", JBool true); ("resolved", JBool true)])
  \/ (response = {| statusCode := 200;
                    body := JObject [("ok", JBool true); ("resolved", JBool true)] |}
      /\ exists id approved,
           is_Some (pendingRequests st !! id)
           /\ resolveApproval (JString id) approved st = (true, trace, st')).

(** The characters before the id in a callback data. *)
Definition headOf (approve : bool) : list ascii :=
  list_ascii_of_string ("ag:" +:+ actionOf approve +:+ ":").

(** What a run of the watcher adds to the set of processed decisions. *)
Definition extends (seen : gset string) (events : list WatcherEvent) (seen' : gset string)
  : Prop :=
  NoDup (attempts events)
  /\ (forall key, key ∈ attempts events -> key ∉ seen)
  /\ (forall key, key ∈ seen' <-> key ∈ attempts events \/ key ∈ seen).

(** The files that a run of the watcher leaves in the pending directory. *)
Definition writes_decisions (dir : gmap string string) (events : list WatcherEvent)
    (dir' : gmap string string) : Prop :=
  forall name content,
    dir' !! name = Some content ->
    dir !! name = Some content
    \/ exists approve requestId,
         name = requestId +:+ ".json" /\ content = stringifyApproved approve
         /\ Routed approve requestId ∈ events.

(** What the loop of scanFile does for the matches of a chunk. *)
Definition routes (writable : string -> bool) (matches : list (bool * string)) (events : list WatcherEvent)
    (seen' : gset string) (dir' : gmap string string) : Prop :=
  (forall approve id, (approve, id) ∈ matches -> keyOf approve id ∈ seen')
  /\ (forall approve id, Routed approve id ∈ events ->
        writable (id +:+ ".json") = true
        /\ exists approved, dir' !! (id +:+ ".json") = Some (stringifyApproved approved))
  /\ (forall approve id, WriteFailed approve id ∈ events ->
        writable (id +:+ ".json") = false).

(** The first line of [s] and what follows its line feed. *)
Fixpoint cutLine (s : string) : option (string * string) :=
  match s with
  | EmptyString => None
  | String a rest =>
      if Ascii.eqb a Js.newline then Some (EmptyString, rest)
      else match cutLine rest with
           | Some (line, after) => Some (String a line, after)
           | None => None
           end
  end.

(** The connection with [text] added to its buffer. *)
Definition feed (text : string) (c : Connection) : Connection :=
  {| buf := buf c +:+ text; arrived := arrived c; inflight := inflight c;
     written := written c |}.

(** The numbers of the lines that were answered or handed to the handler. *)
Definition taken (c : Connection) : list nat :=
  (fst <$> written c) ++ (fst <$> inflight c).

(** What the loop of shutdown leaves behind. *)
Definition denied (ids : list string) (st : State) (trace : list Event) (st' : State) : Prop :=
  (forall id, pendingRequests st' !! id
              = if bool_decide (id ∈ ids) then None else pendingRequests st !! id)
  /\ resolver_calls trace = denials (pendingRequests st) ids
  /\ (audited trace = [] /\ provider_calls trace = [] /\ prompts trace = [])
  /\ (forall handle, timers st !! handle = None -> timers st' !! handle = None)
  /\ (forall name, pendingDir st !! name = None -> pendingDir st' !! name = None)
  /\ (forall id pending, id ∈ ids -> pendingRequests st !! id = Some pending ->
        timers st' !! timer pending = None /\ timers st' !! pollInterval pending = None
        /\ pendingDir st' !! (id +:+ ".json") = None
        /\ (promises st !! resolve pending = None ->
            promises st' !! resolve pending = Some (Fulfilled false)))
  /\ (forall promise s, promises st !! promise = Some s -> promises st' !! promise = Some s)
  /\ (cache st' = cache st /\ nextId st' = nextId st).

(** Every pending request has its timeout armed, and no handle of the
    registry or of the timers is one that is still to be given out. *)
Definition armed (st : State) : Prop :=
  (forall handle task, timers st !! handle = Some task -> (handle < nextId st)%nat)
  /\ (forall id pending, pendingRequests st !! id = Some pending ->
        timers st !! timer pending = Some (TimeoutTask id (resolve pending))
        /\ (pollInterval pending < nextId st)%nat
        /\ forall task, timers st !! pollInterval pending = Some task -> task = PollTask id).

(** Every promise of waitForApproval that is not settled is the one of a
    pending request, and every armed timeout is the timeout of the pending
    request that it names. Handles are given out three at a time: to the
    promise, to its timeout and to its interval. *)
Definition owned (st : State) : Prop :=
  (exists n, nextId st = (3 * n)%nat)
  /\ (forall k, (3 * k < nextId st)%nat -> promises st !! (3 * k)%nat = None ->
        exists id pending,
          pendingRequests st !! id = Some pending /\ resolve pending = (3 * k)%nat)
  /\ (forall handle id promise,
        timers st !! handle = Some (TimeoutTask id promise) ->
        exists pending,
          pendingRequests st !! id = Some pending
          /\ resolve pending = promise /\ timer pending = handle).

(** The audit entry that stands for a call of provider.read: it names the
    same uri; a read without options follows the entry of an open container,
    a read with the service account follows an approval or a standing
    approval. *)
Definition accounts_for (entry uri : JsValue) (options : option ReadOptions) : Prop :=
  Js.get entry "uri" = Normal uri
  /\ match options with
     | None => has_result "allowed" entry = true
     | Some _ =>
         Js.get entry "action" = Normal (JString "approved")
         \/ has_result "standing_approval" entry = true
     end.

(** Every call of provider.read in [trace] comes directly behind an audit
    entry that accounts for it; [previous] is the event before the trace. *)
Fixpoint reads_audited (previous : option Event) (trace : list Event) : Prop :=
  match trace with
  | [] => True
  | e :: rest =>
      match e with
      | ProviderRead uri options =>
          exists entry, previous = Some (AuditLog entry) /\ accounts_for entry uri options
      | _ => True
      end /\ reads_audited (Some e) rest
  end.

(** * Properties *)

(** ** Strings *)

Lemma prefix_iff (p s : string) :
  String.prefix p s = true <-> exists rest, s = p +:+ rest.
Proof.
  revert s. induction p as [|a p IH]; intros s; simpl.
  - destruct s; split; eauto.
  - destruct s as [|b s]; simpl.
    + split; [discriminate | intros [rest H]; discriminate].
    + destruct (ascii_dec a b) as [->|Hne].
      * rewrite IH. split; intros [rest H]; exists rest; [by rewrite H | by injection H].
      * split; [discriminate | intros [rest H]; injection H; congruence].
Qed.

Lemma endsWith_iff (s : string) (c : ascii) :
  Js.endsWith s c = true <-> s = Js.dropLast s +:+ String c EmptyString.
Proof.
  induction s as [|a s IH]; [split; discriminate|].
  destruct s as [|b s].
  - simpl. rewrite Ascii.eqb_eq. split; [by intros -> | by injection 1].
  - change (Js.endsWith (String a (String b s)) c) with (Js.endsWith (String b s) c).
    change (Js.dropLast (String a (String b s)) +:+ String c EmptyString)
      with (String a (Js.dropLast (String b s) +:+ String c EmptyString)).
    rewrite IH. split; [by intros <- | by injection 1].
Qed.

Lemma dropLast_snoc (p : string) (c : ascii) :
  Js.dropLast (p +:+ String c EmptyString) = p.
Proof.
  induction p as [|a p IH]; [reflexivity|].
  simpl. rewrite IH. destruct p; reflexivity.
Qed.

Lemma endsWith_snoc (p : string) (c : ascii) :
  Js.endsWith (p +:+ String c EmptyString) c = true.
Proof. apply endsWith_iff. by rewrite dropLast_snoc. Qed.

Lemma prefix_dropLast (s : string) : String.prefix (Js.dropLast s) s = true.
Proof.
  induction s as [|a s IH]; [reflexivity|].
  destruct s as [|b s]; [reflexivity|].
  change (Js.dropLast (String a (String b s))) with (String a (Js.dropLast (String b s))).
  cbn [String.prefix]. destruct (ascii_dec a a); [exact IH | congruence].
Qed.

Lemma hex_length (bytes : list Byte.byte) :
  String.length (hex bytes) = (2 * length bytes)%nat.
Proof. induction bytes as [|b bytes IH]; simpl in *; lia. Qed.

(** A request identifier is 16 characters long; in particular it is not the
    empty string. *)
Lemma generateRequestId_length (o : Oracle) :
  String.length (generateRequestId o) = 16%nat.
Proof. unfold generateRequestId. by rewrite hex_length, length_vec_to_list. Qed.

Lemma generateRequestId_truthy (o : Oracle) :
  Js.truthy (JString (generateRequestId o)) = true.
Proof.
  pose proof (generateRequestId_length o) as H. simpl.
  destruct (generateRequestId o); [discriminate | reflexivity].
Qed.

(** ** The standing-approval matcher *)

Section Matcher.
Variable config : Config.

Lemma rule_matches_iff (sa : StandingApproval) (item reason : string) :
  rule_matches sa item reason = true <->
  sa_item sa = item /\
  (sa_reasonMatch sa = reason \/
   exists prefix rest, sa_reasonMatch sa = prefix +:+ "*" /\ reason = prefix +:+ rest).
Proof.
  unfold rule_matches, Js.startsWith.
  rewrite andb_true_iff, orb_true_iff, andb_true_iff, !String.eqb_eq, prefix_iff.
  split; intros [Hitem Hpat]; split; try done.
  - destruct Hpat as [?|[Hends [rest Hrest]]]; [by left | right].
    exists (Js.dropLast (sa_reasonMatch sa)), rest. split; [|done].
    by apply endsWith_iff.
  - destruct Hpat as [?|(prefix & rest & Hp & Hr)]; [by left | right].
    rewrite Hp, dropLast_snoc. split; [apply endsWith_snoc | by exists rest].
Qed.

Lemma scanStandingApprovals_find (rules : list StandingApproval) (item reason : string) :
  scanStandingApprovals rules item (JString reason)
  = Normal (List.find (fun sa => rule_matches sa item reason) rules).
Proof.
  induction rules as [|sa rules IH]; [reflexivity|].
  cbn [scanStandingApprovals List.find]. unfold rule_matches at 1, Js.startsWith, is_literal.
  destruct (String.eqb (sa_item sa) item); cbn [negb andb]; [|exact IH].
  destruct (Js.endsWith (sa_reasonMatch sa) "*") eqn:Hends; cbn [andb].
  - destruct (String.prefix (Js.dropLast (sa_reasonMatch sa)) reason) eqn:Hpre.
    + by rewrite orb_true_r.
    + rewrite orb_false_r.
      destruct (String.eqb_spec (sa_reasonMatch sa) reason) as [Heq|_]; [|exact IH].
      rewrite Heq, prefix_dropLast in Hpre. discriminate.
  - rewrite orb_false_r, (String.eqb_sym reason).
    destruct (String.eqb (sa_reasonMatch sa) reason); [done | exact IH].
Qed.
End Matcher.

(** C5. Standing-approval matching: the rules are scanned in configuration
    order and the first rule that matches is returned; a reason that is empty
    (or absent) matches no rule; a rule matches when its item is the request
    item and its reasonMatch is the reason, or ends with an asterisk and the
    reason starts with the text before that asterisk; the pattern foo* matches
    foo, foobar and foo:x and does not match fo or barfoo. *)
Theorem standing_approval_first_match (config : Config) :
  (forall item reason,
      matchesStandingApproval config item (JString reason)
      = Normal (first_match config item reason))
  /\ (forall item reason,
         Js.truthy reason = false ->
         matchesStandingApproval config item reason = Normal None)
  /\ (forall sa item reason,
         rule_matches sa item reason = true <->
         sa_item sa = item /\
         (sa_reasonMatch sa = reason \/
          exists prefix rest, sa_reasonMatch sa = prefix +:+ "*" /\ reason = prefix +:+ rest))
  /\ (let rule := {| sa_item := "k"; sa_reasonMatch := "foo*"; sa_note := JUndefined |} in
      rule_matches rule "k" "foo" = true
      /\ rule_matches rule "k" "foobar" = true
      /\ rule_matches rule "k" "foo:x" = true
      /\ rule_matches rule "k" "fo" = false
      /\ rule_matches rule "k" "barfoo" = false).
Proof.
  split; [|split; [|split]].
  - intros item reason. unfold matchesStandingApproval, first_match, STANDING_APPROVALS.
    cbn [Js.truthy]. destruct (String.eqb reason EmptyString); cbn [negb]; [reflexivity|].
    apply scanStandingApprovals_find.
  - intros item reason H. unfold matchesStandingApproval. by rewrite H.
  - apply rule_matches_iff.
  - repeat split.
Qed.

(** ** Traces *)

Lemma provider_calls_app (t1 t2 : list Event) :
  provider_calls (t1 ++ t2) = provider_calls t1 ++ provider_calls t2.
Proof.
  induction t1 as [|e t1 IH]; [reflexivity|].
  destruct e; simpl; by rewrite ?IH.
Qed.

Lemma audited_app (t1 t2 : list Event) :
  audited (t1 ++ t2) = audited t1 ++ audited t2.
Proof.
  induction t1 as [|e t1 IH]; [reflexivity|].
  destruct e; simpl; by rewrite ?IH.
Qed.

Lemma prompts_app (t1 t2 : list Event) :
  prompts (t1 ++ t2) = prompts t1 ++ prompts t2.
Proof.
  induction t1 as [|e t1 IH]; [reflexivity|].
  destruct e; simpl; by rewrite ?IH.
Qed.

Lemma provider_calls_updates (refs : list (Channel * JsValue)) (approved : bool) :
  provider_calls (updateApprovalMessages refs approved) = [].
Proof. induction refs as [|r refs IH]; [reflexivity | exact IH]. Qed.

Lemma audited_updates (refs : list (Channel * JsValue)) (approved : bool) :
  audited (updateApprovalMessages refs approved) = [].
Proof. induction refs as [|r refs IH]; [reflexivity | exact IH]. Qed.

Lemma provider_calls_sends (o : Oracle) (chs : list Channel) (requestId : string)
    (params : JsValue) :
  provider_calls (fst (sendApprovalRequests o chs requestId params)) = [].
Proof.
  induction chs as [|c chs IH]; [reflexivity|]. simpl.
  destruct (sendApprovalRequests o chs requestId params) as [ev refs].
  destruct (channel_send o c params); exact IH.
Qed.

Lemma audited_sends_no_result (o : Oracle) (chs : list Channel) (requestId : string)
    (params : JsValue) (result : string) :
  existsb (has_result result) (audited (fst (sendApprovalRequests o chs requestId params)))
  = false.
Proof.
  induction chs as [|c chs IH]; [reflexivity|]. simpl.
  destruct (sendApprovalRequests o chs requestId params) as [ev refs].
  destruct (channel_send o c params); exact IH.
Qed.

(** ** handleRead *)

Section Read.
Context {runtime : Runtime} {provider : Provider}.
Variable config : Config.
Variable channels : list Channel.

Lemma reference_of_inv (request uri : JsValue) (parsed : ParsedUri) :
  reference_of request = Some (uri, parsed) ->
  Js.get request "uri" = Normal uri
  /\ (exists reason, Js.get request "reason" = Normal reason)
  /\ Js.truthy uri = true
  /\ parseUri uri = Normal (Some parsed).
Proof.
  unfold reference_of.
  destruct (Js.get request "uri") as [u|]; [|discriminate].
  destruct (Js.get request "reason") as [r|]; [|discriminate].
  destruct (Js.truthy u) eqn:Ht; [|discriminate].
  destruct (parseUri u) as [[p|]|] eqn:Hp; try discriminate.
  intros [= <- <-]. eauto.
Qed.

Lemma classify_open (container : string) :
  classify config container = Open <->
  bool_decide (Js.toLowerCase container ∈ OPEN_VAULTS config) = true.
Proof. unfold classify. repeat case_bool_decide; split; congruence. Qed.

Lemma classify_gated (container : string) :
  classify config container = Gated <->
  bool_decide (Js.toLowerCase container ∈ OPEN_VAULTS config) = false
  /\ bool_decide (Js.toLowerCase container ∈ GATED_VAULTS config) = true.
Proof. unfold classify. repeat case_bool_decide; split; try tauto; try congruence; intros []; congruence. Qed.

(** The open path, whatever the gated list says. *)
Lemma handleRead_open (st : State) (o : Oracle) (request uri : JsValue) (parsed : ParsedUri) :
  reference_of request = Some (uri, parsed) ->
  Js.toLowerCase (vault parsed) ∈ OPEN_VAULTS config ->
  let allowed :=
    AuditLog (JObject [("action", str "read"); ("uri", uri);
                       ("vault", str (vault parsed)); ("item", str (item parsed));
                       ("field", str (field parsed));
                       ("type", str "open"); ("result", str "allowed")]) in
  handleRead config channels st o request
  = Finished
      ([allowed; ProviderRead uri None]
         ++ match provider_read o uri None with
            | inl _ => []
            | inr message => [AuditLog (JObject [("action", str "read_error"); ("uri", uri);
                                                 ("error", str message)])]
            end)
      (Return (read_response (provider_read o uri None))) st.
Proof.
  intros Href Hopen. apply reference_of_inv in Href as (Hu & [reason Hr] & Ht & Hp).
  unfold handleRead. rewrite Hu, Hr, Ht, Hp. cbn [negb].
  rewrite (bool_decide_eq_true_2 _ Hopen).
  destruct (provider_read o uri None); reflexivity.
Qed.

(** C9. A container listed both as open and as gated is served by the open
    path: the read is audited as open, the provider is called once, without
    the service account, no channel is prompted, nothing is left pending,
    and the answer of the provider is returned. *)
Theorem open_list_takes_precedence (st : State) (o : Oracle) (request uri : JsValue)
    (parsed : ParsedUri) :
  reference_of request = Some (uri, parsed) ->
  Js.toLowerCase (vault parsed) ∈ OPEN_VAULTS config ->
  Js.toLowerCase (vault parsed) ∈ GATED_VAULTS config ->
  classify config (vault parsed) = Open
  /\ exists trace,
      handleRead config channels st o request
      = Finished trace (Return (read_response (provider_read o uri None))) st
      /\ head (audited trace)
         = Some (JObject [("action", str "read"); ("uri", uri);
                          ("vault", str (vault parsed)); ("item", str (item parsed));
                          ("field", str (field parsed));
                          ("type", str "open"); ("result", str "allowed")])
      /\ provider_calls trace = [(uri, None)]
      /\ prompts trace = [].
Proof.
  intros Href Hopen _. split; [by apply classify_open, bool_decide_eq_true_2|].
  eexists. split; [by apply handleRead_open|].
  destruct (provider_read o uri None); repeat split.
Qed.

(** C4. A read of a gated container whose reason is absent or empty is
    answered with the error that asks for a reason; the handler makes no
    call at all before it returns (no audit entry, no channel prompt) and
    leaves the state as it was. *)
Theorem gated_read_requires_reason (st : State) (o : Oracle) (request uri : JsValue)
    (parsed : ParsedUri) :
  reference_of request = Some (uri, parsed) ->
  classify config (vault parsed) = Gated ->
  Js.get request "reason" = Normal JUndefined
    \/ Js.get request "reason" = Normal (JString EmptyString) ->
  handleRead config channels st o request
  = Finished []
      (Return (JObject [("error",
                         JString ("Reason is REQUIRED for gated vault items. Pass --reason "
                                    +:+ Js.dquote +:+ "..." +:+ Js.dquote))]))
      st.
Proof.
  intros Href [Hopen Hgated]%classify_gated Hreason.
  apply reference_of_inv in Href as (Hu & _ & Ht & Hp).
  unfold handleRead. rewrite Hu, Ht, Hp. cbn [negb]. rewrite Hopen, Hgated.
  by destruct Hreason as [-> | ->].
Qed.

Lemma provider_calls_resumed (w : Waiting) (s : Settlement) (st : State) (o : Oracle) :
  provider_calls (handleRead_resumed config w s st o).1.1
  = match s with
    | Fulfilled true => [(w_uri w, elevated_options)]
    | _ => []
    end.
Proof.
  unfold handleRead_resumed. destruct s as [[|]|]; cbn [negb].
  - destruct (provider_read o (w_uri w) _); cbn [fst];
      by rewrite provider_calls_app, provider_calls_updates.
  - cbn [fst]. by rewrite provider_calls_app, provider_calls_updates.
  - cbn [fst]. by rewrite provider_calls_app, provider_calls_updates.
Qed.

(** What handleRead has done when it awaits: it has called no provider, and
    it resumes on the reference of the request. *)
Lemma handleRead_awaiting (st : State) (o : Oracle) (request : JsValue)
    (trace : list Event) (w : Waiting) (st1 : State) :
  handleRead config channels st o request = Awaiting trace w st1 ->
  reference_of request = Some (w_uri w, w_parsed w)
  /\ provider_calls trace = []
  /\ w_requestId w = generateRequestId o
  /\ pendingRequests st1 !! w_requestId w
     = Some {| resolve := w_promise w; timer := S (w_promise w);
               pollInterval := S (S (w_promise w)) |}.
Proof.
  unfold handleRead, reference_of.
  destruct (Js.get request "uri") as [uri|]; [|by destruct (Js.get request "reason")].
  destruct (Js.get request "reason") as [reason|]; [|done].
  destruct (Js.truthy uri); cbn [negb]; [|done].
  destruct (parseUri uri) as [[parsed|]|]; [|by destruct (toString uri)|done].
  case_bool_decide; [by destruct (provider_read o uri None)|].
  case_bool_decide; [|done].
  destruct (negb (Js.truthy reason)); [done|].
  destruct (matchesStandingApproval config (item parsed) reason) as [[sa|]|]; [|  |done].
  { by destruct (provider_read o uri _). }
  destruct (getCached config o uri st) as [[cached|] st0]; [done|].
  pose proof (provider_calls_sends o channels (generateRequestId o)
    (JObject [("requestId", str (generateRequestId o)); ("item", str (item parsed));
              ("field", str (field parsed)); ("vault", str (vault parsed));
              ("reason", reason)])) as Hsent.
  destruct (sendApprovalRequests o channels _ _) as [sent refs].
  destruct (_ && _); [done|].
  cbn [waitForApproval]. intros [= <- <- <-]. cbn [w_uri w_parsed w_requestId w_promise].
  split; [done|]. split; [|split; [done|]].
  - cbn [provider_calls]. rewrite provider_calls_app. cbn [fst] in Hsent. by rewrite Hsent.
  - unfold waitForApproval. cbn. apply lookup_insert_eq.
Qed.

(** C1. A read of an open container calls provider.read once and without
    the service-account flag; every call of provider.read made for a read of
    a gated container, before or after the approval, carries
    useServiceAccount = true, and both the standing-approval path and the
    approved path make that call. *)
Theorem elevated_flag_follows_classification (st : State) (o : Oracle)
    (request uri : JsValue) (parsed : ParsedUri) (s : Settlement) (st' : State)
    (o' : Oracle) :
  reference_of request = Some (uri, parsed) ->
  let calls :=
    provider_calls (handleRead_run config channels st o request s st' o').1.1 in
  (classify config (vault parsed) = Open ->
     calls = [(uri, None)] /\ Forall (fun call => elevated call.2 = false) calls)
  /\ (classify config (vault parsed) = Gated ->
      Forall (fun call => elevated call.2 = true) calls
      /\ (forall reason sa,
            Js.get request "reason" = Normal reason ->
            matchesStandingApproval config (item parsed) reason = Normal (Some sa) ->
            calls = [(uri, elevated_options)])
      /\ (forall trace w st1,
            handleRead config channels st o request = Awaiting trace w st1 ->
            s = Fulfilled true ->
            calls = [(uri, elevated_options)])).
Proof.
  intros Href calls. split.
  - intros Hopen%classify_open%bool_decide_eq_true_1.
    assert (calls = [(uri, None)]) as ->; [|by repeat constructor].
    subst calls. unfold handleRead_run. rewrite (handleRead_open st o _ _ _ Href Hopen).
    cbn [fst]. by destruct (provider_read o uri None).
  - intros [Hopen Hgated]%classify_gated.
    assert (calls = [] \/ calls = [(uri, elevated_options)]) as Hcalls.
    { subst calls. unfold handleRead_run.
      destruct (handleRead config channels st o request) as [trace out st1|trace w st1] eqn:Hrun.
      - cbn [fst]. revert Hrun. apply reference_of_inv in Href as (Hu & [reason Hr] & Ht & Hp).
        unfold handleRead. rewrite Hu, Hr, Ht, Hp. cbn [negb]. rewrite Hopen, Hgated.
        destruct (negb (Js.truthy reason)); [intros [= <- _ _]; by left|].
        destruct (matchesStandingApproval config (item parsed) reason) as [[sa|]|].
        + destruct (provider_read o uri _); intros [= <- _ _]; by right.
        + destruct (getCached config o uri st) as [[cached|] st0];
            [intros [= <- _ _]; by left|].
          pose proof (provider_calls_sends o channels (generateRequestId o)
            (JObject [("requestId", str (generateRequestId o)); ("item", str (item parsed));
                      ("field", str (field parsed)); ("vault", str (vault parsed));
                      ("reason", reason)])) as Hsent.
          destruct (sendApprovalRequests o channels _ _) as [sent refs].
          destruct (_ && _); [|done]. intros [= <- _ _]. left. exact Hsent.
        + intros [= <- _ _]; by left.
      - apply handleRead_awaiting in Hrun as (Href' & Hnone & _).
        rewrite Href in Href'. injection Href' as Hw _.
        pose proof (provider_calls_resumed w s st' o') as Hres.
        destruct (handleRead_resumed config w s st' o') as [[trace' out] st2].
        cbn [fst] in *. rewrite provider_calls_app, Hnone, Hres, <- Hw.
        destruct s as [[|]|]; auto. }
    split; [destruct Hcalls as [-> | ->]; by repeat constructor|]. split.
    + intros reason sa Hr Hsa. subst calls. unfold handleRead_run.
      apply reference_of_inv in Href as (Hu & _ & Ht & Hp).
      unfold handleRead. rewrite Hu, Hr, Ht, Hp. cbn [negb]. rewrite Hopen, Hgated.
      destruct (negb (Js.truthy reason)) eqn:Hfalsy.
      { unfold matchesStandingApproval in Hsa. by rewrite Hfalsy in Hsa. }
      rewrite Hsa. by destruct (provider_read o uri _).
    + intros trace w st1 Hrun ->. subst calls. unfold handleRead_run. rewrite Hrun.
      apply handleRead_awaiting in Hrun as (Href' & Hnone & _).
      rewrite Href in Href'. injection Href' as Hw _.
      pose proof (provider_calls_resumed w (Fulfilled true) st' o') as Hres.
      destruct (handleRead_resumed config w (Fulfilled true) st' o') as [[trace' out] st2].
      cbn [fst] in *. by rewrite provider_calls_app, Hnone, Hres, <- Hw.
Qed.

Lemma getCached_disabled (o : Oracle) (uri : JsValue) (st : State) :
  cacheTTL config <= 0 -> getCached config o uri st = (None, st).
Proof. intros H. unfold getCached. by rewrite (Zle_imp_le_bool _ _ H). Qed.

Lemma setCache_disabled (o : Oracle) (uri : JsValue) (v : string) (st : State) :
  cacheTTL config <= 0 -> setCache config o uri v st = st.
Proof. intros H. unfold setCache. by rewrite (Zle_imp_le_bool _ _ H). Qed.

Lemma no_cache_hit_resumed (w : Waiting) (s : Settlement) (st : State) (o : Oracle) :
  existsb (has_result "cache_hit") (audited (handleRead_resumed config w s st o).1.1) = false.
Proof.
  unfold handleRead_resumed. destruct s as [[|]|]; cbn [negb].
  - destruct (provider_read o (w_uri w) _); cbn [fst];
      by rewrite audited_app, audited_updates.
  - cbn [fst]. by rewrite audited_app, audited_updates.
  - cbn [fst]. by rewrite audited_app, audited_updates.
Qed.

Lemma no_cache_hit_before_await (st : State) (o : Oracle) (request : JsValue) :
  cacheTTL config <= 0 ->
  existsb (has_result "cache_hit")
          (audited (trace_of (handleRead config channels st o request))) = false
  /\ cache (state_of (handleRead config channels st o request)) = cache st.
Proof.
  intros Httl. unfold handleRead.
  destruct (Js.get request "uri") as [uri|]; [|by destruct (Js.get request "reason")].
  destruct (Js.get request "reason") as [reason|]; [|done].
  destruct (Js.truthy uri); cbn [negb]; [|done].
  destruct (parseUri uri) as [[parsed|]|]; [|by destruct (toString uri)|done].
  case_bool_decide; [by destruct (provider_read o uri None)|].
  case_bool_decide; [|done].
  destruct (negb (Js.truthy reason)); [done|].
  destruct (matchesStandingApproval config (item parsed) reason) as [[sa|]|]; [|  |done].
  { by destruct (provider_read o uri _). }
  rewrite (getCached_disabled _ _ _ Httl).
  pose proof (audited_sends_no_result o channels (generateRequestId o)
    (JObject [("requestId", str (generateRequestId o)); ("item", str (item parsed));
              ("field", str (field parsed)); ("vault", str (vault parsed));
              ("reason", reason)]) "cache_hit") as Hsent.
  destruct (sendApprovalRequests o channels _ _) as [sent refs]. cbn [fst] in Hsent.
  destruct (_ && _); cbn [trace_of state_of audited]; [cbn [existsb]; by rewrite Hsent|].
  unfold waitForApproval. cbn [trace_of state_of audited].
  cbn [existsb]. by rewrite audited_app, existsb_app, Hsent.
Qed.

(** C6. With a cache TTL of zero or less the cache is disabled: every
    lookup answers absent and leaves the cache as it is, every store leaves
    the cache as it is, and no run of handleRead, from any state and for any
    request, writes an audit entry whose result is cache_hit. *)
Theorem cache_disabled_without_ttl :
  cacheTTL config <= 0 ->
  (forall o uri st, getCached config o uri st = (None, st))
  /\ (forall o uri v st, setCache config o uri v st = st)
  /\ (forall st o request s st' o',
         existsb (has_result "cache_hit")
                 (audited (handleRead_run config channels st o request s st' o').1.1)
         = false)
  /\ (forall st o request,
         cache (state_of (handleRead config channels st o request)) = cache st)
  /\ (forall w s st o, cache (handleRead_resumed config w s st o).2 = cache st).
Proof.
  intros Httl. split; [|split; [|split; [|split]]].
  - intros. by apply getCached_disabled.
  - intros. by apply setCache_disabled.
  - intros st o request s st' o'. unfold handleRead_run.
    destruct (no_cache_hit_before_await st o request Httl) as [Hbefore _].
    destruct (handleRead config channels st o request) as [trace out st1|trace w st1];
      [exact Hbefore|].
    pose proof (no_cache_hit_resumed w s st' o') as Hafter.
    destruct (handleRead_resumed config w s st' o') as [[trace' out] st2].
    cbn [fst trace_of] in *. by rewrite audited_app, existsb_app, Hbefore, Hafter.
  - intros st o request. by apply no_cache_hit_before_await.
  - intros w s st o. unfold handleRead_resumed.
    destruct s as [[|]|]; cbn [negb]; [|done|done].
    destruct (provider_read o (w_uri w) _); cbn [snd]; [|done].
    by rewrite setCache_disabled.
Qed.
End Read.

(** ** The registry of pending requests and its three ingresses *)

Lemma settle_pendingRequests (p : nat) (s : Settlement) (st : State) :
  pendingRequests (settle p s st) = pendingRequests st.
Proof. unfold settle. by destruct (promises st !! p). Qed.

Lemma settle_timers (p : nat) (s : Settlement) (st : State) :
  timers (settle p s st) = timers st.
Proof. unfold settle. by destruct (promises st !! p). Qed.

Lemma settle_pendingDir (p : nat) (s : Settlement) (st : State) :
  pendingDir (settle p s st) = pendingDir st.
Proof. unfold settle. by destruct (promises st !! p). Qed.

Lemma settle_unsettled (p : nat) (s : Settlement) (st : State) :
  promises st !! p = None -> promises (settle p s st) !! p = Some s.
Proof. intros H. unfold settle. rewrite H. apply lookup_insert_eq. Qed.

Lemma settle_settled (p : nat) (s s0 : Settlement) (st : State) :
  promises st !! p = Some s0 -> settle p s st = st.
Proof. intros H. unfold settle. by rewrite H. Qed.

(** What resolveApproval does when the entry exists. *)
Lemma resolveApproval_pending (id : string) (pending : Pending) (approved : JsValue)
    (st : State) :
  pendingRequests st !! id = Some pending ->
  resolveApproval (JString id) approved st
  = (true,
     [ClearTimeout (timer pending); ClearInterval (pollInterval pending);
      RegistryDelete id; UnlinkSync (id +:+ ".json");
      ResolveCall (resolve pending) (Js.truthy approved)],
     settle (resolve pending) (Fulfilled (Js.truthy approved))
       (with_pendingDir (delete (id +:+ ".json") (pendingDir st))
          (with_pendingRequests (delete id (pendingRequests st))
             (with_timers (delete (pollInterval pending)
                             (delete (timer pending) (timers st))) st)))).
Proof. intros H. unfold resolveApproval, registry_get, cleanup. by rewrite H. Qed.

Lemma resolveApproval_absent (requestId approved : JsValue) (st : State) :
  registry_get requestId st = None ->
  resolveApproval requestId approved st = (false, [], st).
Proof. intros H. unfold resolveApproval. by rewrite H. Qed.


Lemma resolver_calls_app (t1 t2 : list Event) :
  resolver_calls (t1 ++ t2) = resolver_calls t1 ++ resolver_calls t2.
Proof.
  induction t1 as [|e t1 IH]; [reflexivity|].
  destruct e; simpl; by rewrite ?IH.
Qed.

Lemma resolver_calls_updates (refs : list (Channel * JsValue)) (approved : bool) :
  resolver_calls (updateApprovalMessages refs approved) = [].
Proof. induction refs as [|r refs IH]; [reflexivity | exact IH]. Qed.

Lemma resolver_calls_sends (o : Oracle) (chs : list Channel) (requestId : string)
    (params : JsValue) :
  resolver_calls (fst (sendApprovalRequests o chs requestId params)) = [].
Proof.
  induction chs as [|c chs IH]; [reflexivity|]. simpl.
  destruct (sendApprovalRequests o chs requestId params) as [ev refs].
  destruct (channel_send o c params); exact IH.
Qed.

Lemma registry_sound_initial : registry_sound ∅ 0 [].
Proof.
  split; [|split; [|split]].
  - intros id p H. by rewrite lookup_empty in H.
  - intros id1 id2 p1 p2 H. by rewrite lookup_empty in H.
  - intros c Hc. by apply elem_of_nil in Hc.
  - constructor.
Qed.

Lemma registry_sound_delete (m : gmap string Pending) (next : nat) (called : list nat)
    (id : string) :
  registry_sound m next called -> registry_sound (delete id m) next called.
Proof.
  intros (Hfresh & Hinj & Hbound & Hnodup). split; [|split; [|split]]; try done.
  - intros id0 p [_ H]%lookup_delete_Some. by apply (Hfresh _ _ H).
  - intros id1 id2 p1 p2 [_ H1]%lookup_delete_Some [_ H2]%lookup_delete_Some.
    by apply Hinj.
Qed.

Lemma registry_sound_resolve (m : gmap string Pending) (next : nat) (called : list nat)
    (id : string) (p : Pending) :
  registry_sound m next called -> m !! id = Some p ->
  registry_sound (delete id m) next (called ++ [resolve p]).
Proof.
  intros (Hfresh & Hinj & Hbound & Hnodup) Hp.
  destruct (Hfresh _ _ Hp) as [Hlt Hnew]. split; [|split; [|split]].
  - intros id0 p0 [Hne H]%lookup_delete_Some. split; [by apply (Hfresh _ _ H)|].
    rewrite elem_of_app, list_elem_of_singleton. intros [Hin|Heq].
    + by apply (Hfresh _ _ H).
    + apply Hne. by apply (Hinj _ _ _ _ Hp H).
  - intros id1 id2 p1 p2 [_ H1]%lookup_delete_Some [_ H2]%lookup_delete_Some.
    by apply Hinj.
  - intros c. rewrite elem_of_app, list_elem_of_singleton. intros [Hin| ->]; auto.
  - apply NoDup_app. repeat split; [done| |apply NoDup_singleton].
    intros c Hin ->%list_elem_of_singleton. contradiction.
Qed.

Lemma registry_sound_insert (m : gmap string Pending) (next : nat) (called : list nat)
    (id : string) :
  registry_sound m next called ->
  registry_sound (<[id := {| resolve := next; timer := S next; pollInterval := S (S next) |}]> m)
                 (S (S (S next))) called.
Proof.
  intros (Hfresh & Hinj & Hbound & Hnodup). split; [|split; [|split]].
  - intros id0 p [[_ <-]|[_ H]]%lookup_insert_Some; cbn.
    + split; [lia|]. intros Hin. apply Hbound in Hin. lia.
    + destruct (Hfresh _ _ H). split; [lia | done].
  - intros id1 id2 p1 p2 [[<- <-]|[Hne1 H1]]%lookup_insert_Some
      [[<- <-]|[Hne2 H2]]%lookup_insert_Some; cbn; try done.
    + intros Heq. destruct (Hfresh _ _ H2). lia.
    + intros Heq. destruct (Hfresh _ _ H1). lia.
    + by apply Hinj.
  - intros c Hin. apply Hbound in Hin. lia.
  - done.
Qed.

Lemma registry_sound_effect (st st' : State) (trace : list Event) (called : list nat) :
  Effect st trace st' ->
  registry_sound (pendingRequests st) (nextId st) called ->
  registry_sound (pendingRequests st') (nextId st') (called ++ (fst <$> resolver_calls trace)).
Proof.
  intros [Hcalls Hm Hn | id Hcalls Hm Hn | id p b Hp Hcalls Hm Hn | id Hcalls Hm Hn] Hsound;
    rewrite Hcalls, Hm, Hn; cbn [fmap list_fmap]; rewrite ?app_nil_r.
  - done.
  - by apply registry_sound_delete.
  - by apply registry_sound_resolve.
  - by apply registry_sound_insert.
Qed.

Lemma Effect_within (st0 st st' : State) (before trace after : list Event) :
  pendingRequests st0 = pendingRequests st -> nextId st0 = nextId st ->
  resolver_calls before = [] -> resolver_calls after = [] ->
  Effect st0 trace st' -> Effect st (before ++ trace ++ after) st'.
Proof.
  intros Hm Hn Hbefore Hafter.
  assert (resolver_calls (before ++ trace ++ after) = resolver_calls trace) as Hsame
    by (by rewrite !resolver_calls_app, Hbefore, Hafter, app_nil_r).
  intros [Hcalls Hm' Hn' | id Hcalls Hm' Hn' | id p b Hp Hcalls Hm' Hn' | id Hcalls Hm' Hn'];
    rewrite Hm in *; rewrite Hn in *.
  - apply Untouched; congruence.
  - apply (Dropped _ _ _ id); congruence.
  - apply (Resolved _ _ _ id p b); congruence.
  - apply (Registered _ _ _ id); congruence.
Qed.

Lemma cleanup_effect (requestId : JsValue) (st : State) :
  Effect st (cleanup requestId st).1 (cleanup requestId st).2.
Proof.
  unfold cleanup. destruct requestId as [| | | |id| |]; try by apply Untouched.
  destruct (pendingRequests st !! id) as [pending|]; [|by apply Untouched].
  by apply (Dropped _ _ _ id).
Qed.

Lemma resolveApproval_effect (requestId approved : JsValue) (st : State) :
  Effect st (resolveApproval requestId approved st).1.2 (resolveApproval requestId approved st).2.
Proof.
  destruct (registry_get requestId st) as [pending|] eqn:Hget.
  - destruct requestId as [| | | |id| |]; try discriminate. cbn [registry_get] in Hget.
    rewrite (resolveApproval_pending _ _ _ _ Hget). cbn [fst snd].
    apply (Resolved _ _ _ id pending (Js.truthy approved)); try done.
    + by rewrite settle_pendingRequests.
    + unfold settle. by destruct (promises _ !! _).
  - rewrite (resolveApproval_absent _ _ _ Hget). by apply Untouched.
Qed.

Section EventLoopProperties.
Context {runtime : Runtime} {provider : Provider}.
Variable config : Config.
Variable channels : list Channel.

(** The exception that ends the process calls no resolver. *)
Lemma Effect_exit (st : State) (trace : list Event) (st' : State) (m : string) :
  Effect st trace st' -> Effect st (trace ++ [Uncaught m]) st'.
Proof.
  assert (resolver_calls (trace ++ [Uncaught m]) = resolver_calls trace) as Hcalls.
  { rewrite resolver_calls_app. cbn. apply app_nil_r. }
  intros [H1 H2 H3|id H1 H2 H3|id p b H0 H1 H2 H3|id H1 H2 H3].
  - apply Untouched; by rewrite ?Hcalls.
  - apply (Dropped _ _ _ id); by rewrite ?Hcalls.
  - apply (Resolved _ _ _ id p b); by rewrite ?Hcalls.
  - apply (Registered _ _ _ id); by rewrite ?Hcalls.
Qed.

Lemma postCallback_effect (text : string) (st : State) :
  Effect st (postCallback text st).1.1 (postCallback text st).2.
Proof.
  unfold postCallback. destruct (JSON_parse text) as [data|]; [|by apply Untouched].
  destruct (Js.get data "requestId") as [requestId|]; [|by apply Untouched].
  destruct (negb (Js.truthy requestId)); [by apply Untouched|].
  destruct (Js.get data "approved") as [approved|]; [|by apply Untouched].
  pose proof (resolveApproval_effect requestId approved st) as H.
  destruct (resolveApproval requestId approved st) as [[resolved ev] st1].
  destruct (toString requestId); [exact H|by apply Effect_exit].
Qed.

Lemma onTimeout_effect (handle : nat) (st : State) :
  Effect st (onTimeout config handle st).1 (onTimeout config handle st).2.
Proof.
  unfold onTimeout.
  destruct (timers st !! handle) as [[requestId promise|requestId]|]; try by apply Untouched.
  pose proof (cleanup_effect (JString requestId)
                (with_timers (delete handle (timers st)) st)) as H.
  destruct (cleanup (JString requestId) _) as [ev st1]. cbn [fst snd] in *.
  apply (Effect_within _ st _ [] ev [RejectCall promise (timeoutMessage config)])
    in H; try done.
  destruct H as [Hcalls Hm Hn | id Hcalls Hm Hn | id p b Hp Hcalls Hm Hn | id Hcalls Hm Hn].
  - apply Untouched; try done; unfold settle; by destruct (promises _ !! _).
  - apply (Dropped _ _ _ id); try done; unfold settle; by destruct (promises _ !! _).
  - apply (Resolved _ _ _ id p b); try done; unfold settle; by destruct (promises _ !! _).
  - apply (Registered _ _ _ id); try done; unfold settle; by destruct (promises _ !! _).
Qed.

Lemma onPoll_effect (handle : nat) (st : State) :
  Effect st (onPoll handle st).1 (onPoll handle st).2.
Proof.
  unfold onPoll.
  destruct (timers st !! handle) as [[requestId promise|requestId]|]; try by apply Untouched.
  cbv zeta.
  destruct (pendingDir st !! (requestId +:+ ".json")) as [content|]; [|by apply Untouched].
  destruct (JSON_parse content) as [data|]; [|by apply Untouched].
  destruct (Js.get data "approved") as [approved|]; [|by apply Untouched].
  match goal with
  | |- context [resolveApproval ?r ?a ?s] =>
      pose proof (resolveApproval_effect r a s) as H;
      destruct (resolveApproval r a s) as [[resolved ev] st1]
  end.
  cbn [fst snd] in *.
  apply (Effect_within _ st _
           [ExistsSync (requestId +:+ ".json"); ReadFileSync (requestId +:+ ".json");
            UnlinkSync (requestId +:+ ".json"); ClearInterval handle] ev []) in H; try done.
  by rewrite app_nil_r in H.
Qed.

Lemma handleRead_resumed_effect (w : Waiting) (s : Settlement) (st : State) (o : Oracle) :
  Effect st (handleRead_resumed config w s st o).1.1 (handleRead_resumed config w s st o).2.
Proof.
  unfold handleRead_resumed. destruct s as [[|]|]; cbn [negb].
  - destruct (provider_read o (w_uri w) _); cbn [fst snd];
      (apply Untouched; [by rewrite resolver_calls_app, resolver_calls_updates | |]);
      try done; unfold setCache; by destruct (cacheTTL config <=? 0).
  - apply Untouched; [|done|done]. cbn [fst]. by rewrite resolver_calls_app, resolver_calls_updates.
  - apply Untouched; [|done|done]. cbn [fst]. by rewrite resolver_calls_app, resolver_calls_updates.
Qed.

Lemma getCached_registry (o : Oracle) (uri : JsValue) (st : State) :
  pendingRequests (getCached config o uri st).2 = pendingRequests st
  /\ nextId (getCached config o uri st).2 = nextId st.
Proof.
  unfold getCached. destruct (cacheTTL config <=? 0); [done|].
  destruct (cache_get uri (cache st)) as [entry|]; [|done].
  by destruct (now o >? expiresAt entry).
Qed.

Lemma handleRead_effect (st : State) (o : Oracle) (request : JsValue) :
  Effect st (trace_of (handleRead config channels st o request))
         (state_of (handleRead config channels st o request)).
Proof.
  unfold handleRead.
  destruct (Js.get request "uri") as [uri|];
    [|destruct (Js.get request "reason"); by apply Untouched].
  destruct (Js.get request "reason") as [reason|]; [|by apply Untouched].
  destruct (Js.truthy uri); cbn [negb]; [|by apply Untouched].
  destruct (parseUri uri) as [[parsed|]|];
    [|destruct (toString uri); by apply Untouched|by apply Untouched].
  case_bool_decide; [destruct (provider_read o uri None); by apply Untouched|].
  case_bool_decide; [|by apply Untouched].
  destruct (negb (Js.truthy reason)); [by apply Untouched|].
  destruct (matchesStandingApproval config (item parsed) reason) as [[sa|]|];
    [destruct (provider_read o uri _); by apply Untouched| |by apply Untouched].
  destruct (getCached_registry o uri st) as [Hm Hn].
  destruct (getCached config o uri st) as [[cached|] st0]; cbn [snd] in Hm, Hn;
    [by apply Untouched|].
  pose proof (resolver_calls_sends o channels (generateRequestId o)
    (JObject [("requestId", str (generateRequestId o)); ("item", str (item parsed));
              ("field", str (field parsed)); ("vault", str (vault parsed));
              ("reason", reason)])) as Hsent.
  destruct (sendApprovalRequests o channels _ _) as [sent refs]. cbn [fst] in Hsent.
  destruct (_ && _); cbn [trace_of state_of].
  - apply Untouched; [exact Hsent | done | done].
  - unfold waitForApproval. cbn [trace_of state_of].
    apply (Registered _ _ _ (generateRequestId o)).
    + cbn [resolver_calls]. by rewrite resolver_calls_app, Hsent.
    + cbn. by rewrite Hm, Hn.
    + cbn. by rewrite Hn.
Qed.

Lemma handleRequest_effect (st : State) (o : Oracle) (request : JsValue) :
  Effect st (trace_of (handleRequest config channels st o request))
         (state_of (handleRequest config channels st o request)).
Proof.
  unfold handleRequest. destruct (Js.get request "action") as [action|]; [|by apply Untouched].
  destruct (is_literal action "read"); [apply handleRead_effect|].
  destruct (is_literal action "ping"); [by apply Untouched|].
  destruct (is_literal action "status"); [by apply Untouched|].
  destruct (toString action); by apply Untouched.
Qed.

Lemma runJob_effect (st : State) (j : Job) :
  Effect st (runJob config channels st j).1 (runJob config channels st j).2.
Proof.
  destruct j as [o request|w s o|text|handle|handle]; cbn [runJob].
  - apply handleRequest_effect.
  - pose proof (handleRead_resumed_effect w s st o) as H.
    by destruct (handleRead_resumed config w s st o) as [[trace out] st1].
  - pose proof (postCallback_effect text st) as H.
    by destruct (postCallback text st) as [[trace out] st1].
  - apply onTimeout_effect.
  - apply onPoll_effect.
Qed.


End EventLoopProperties.

Section Registry.
Context {runtime : Runtime} {provider : Provider}.
Variable config : Config.
Variable channels : list Channel.


(** C10. POST /callback coerces approved to a boolean: for a pending id the
    answer is 200 with ok true and resolved true, and the resolver of the
    entry is called once, with the truth value of the approved field of the
    body; a field that is absent reads as undefined, which is falsy; the
    promise, unsettled so far, is fulfilled with that boolean; and a read
    that resumes on false answers that the operator denied the request. *)
Theorem callback_coerces_approved (text : string) (data : JsValue) (id : string)
    (pending : Pending) (st : State) :
  JSON_parse text = Some data ->
  Js.get data "requestId" = Normal (JString id) ->
  id <> EmptyString ->
  pendingRequests st !! id = Some pending ->
  exists approved st1,
    Js.get data "approved" = Normal approved
    /\ (forall props, data = JObject props -> Js.assoc "approved" props = None ->
        approved = JUndefined /\ Js.truthy approved = false)
    /\ postCallback text st
       = ([ClearTimeout (timer pending); ClearInterval (pollInterval pending);
           RegistryDelete id; UnlinkSync (id +:+ ".json");
           ResolveCall (resolve pending) (Js.truthy approved)],
          {| statusCode := 200;
             body := JObject [("ok", JBool true); ("resolved", JBool true)] |},
          st1)
    /\ (promises st !! resolve pending = None ->
        promises st1 !! resolve pending = Some (Fulfilled (Js.truthy approved)))
    /\ (forall w st' o,
           (handleRead_resumed config w (Fulfilled false) st' o).1.2
           = Return (JObject [("error", JString "Request denied by operator")])).
Proof.
  intros Hparse Hid Hne Hget.
  assert (exists approved, Js.get data "approved" = Normal approved) as [approved Happ].
  { destruct data; try discriminate; cbn; eauto. }
  exists approved. eexists. split; [exact Happ|]. split; [|split; [|split]].
  - intros props -> Hnone. cbn in Happ. rewrite Hnone in Happ.
    injection Happ as <-. by split.
  - unfold postCallback. rewrite Hparse, Hid. cbn [Js.truthy].
    apply String.eqb_neq in Hne. rewrite Hne. cbn [negb]. rewrite Happ.
    by rewrite (resolveApproval_pending _ _ _ _ Hget).
  - intros Hunsettled. by apply settle_unsettled.
  - reflexivity.
Qed.

(** What one run of the poller leaves of the pending directory: only the
    file named after its own request can change. *)
Lemma onPoll_other_files (handle : nat) (st : State) (name : string) :
  (forall requestId, timers st !! handle = Some (PollTask requestId) ->
                     name <> requestId +:+ ".json") ->
  pendingDir (onPoll handle st).2 !! name = pendingDir st !! name.
Proof.
  intros Hname. unfold onPoll.
  destruct (timers st !! handle) as [[|requestId]|]; [done| |done].
  specialize (Hname requestId eq_refl).
  destruct (pendingDir st !! (requestId +:+ ".json")) as [content|]; [|done].
  destruct (JSON_parse content) as [data|]; [|done].
  destruct (Js.get data "approved") as [approved|].
  - unfold resolveApproval, registry_get, cleanup.
    cbn [pendingRequests with_timers with_pendingDir].
    destruct (pendingRequests st !! requestId) as [pending|]; cbn [snd].
    + rewrite settle_pendingDir. cbn. by rewrite !lookup_delete_ne.
    + cbn. by rewrite lookup_delete_ne.
  - cbn. by rewrite lookup_delete_ne.
Qed.

(** C3, as the code has it. One run of the poller of a pending request whose
    file exists: when the content parses to a value whose approved field can
    be read, the file is read, unlinked, the interval is cleared, and only
    then the entry is removed and the resolver called, with the truth value
    of approved; afterwards the file and the entry are gone and the interval
    is disarmed. When the content does not parse, nothing is unlinked and
    nothing is resolved. In every case a file with another name is left as
    it is. *)
Theorem poll_unlinks_before_resolving (handle : nat) (id content : string)
    (pending : Pending) (st : State) :
  timers st !! handle = Some (PollTask id) ->
  pendingRequests st !! id = Some pending ->
  pendingDir st !! (id +:+ ".json") = Some content ->
  let file := id +:+ ".json" in
  (forall data approved,
      JSON_parse content = Some data ->
      Js.get data "approved" = Normal approved ->
      exists st1,
        onPoll handle st
        = ([ExistsSync file; ReadFileSync file; UnlinkSync file; ClearInterval handle;
            ClearTimeout (timer pending); ClearInterval (pollInterval pending);
            RegistryDelete id; UnlinkSync file;
            ResolveCall (resolve pending) (Js.truthy approved)],
           st1)
        /\ pendingDir st1 !! file = None
        /\ pendingRequests st1 !! id = None
        /\ timers st1 !! handle = None)
  /\ (JSON_parse content = None ->
      onPoll handle st = ([ExistsSync file; ReadFileSync file], st))
  /\ (forall name, name <> file ->
      pendingDir (onPoll handle st).2 !! name = pendingDir st !! name).
Proof.
  intros Htask Hpending Hfile file. subst file. split; [|split].
  - intros data approved Hparse Happroved. eexists. split.
    + unfold onPoll. rewrite Htask. cbv zeta. rewrite Hfile, Hparse, Happroved.
      rewrite (resolveApproval_pending id pending); [reflexivity | exact Hpending].
    + rewrite settle_pendingDir, settle_pendingRequests, settle_timers. cbn.
      split; [apply lookup_delete_eq|]. split; [apply lookup_delete_eq|].
      destruct (decide (pollInterval pending = handle)) as [->|?];
        [apply lookup_delete_eq | rewrite lookup_delete_ne by done].
      destruct (decide (timer pending = handle)) as [->|?];
        [apply lookup_delete_eq | rewrite lookup_delete_ne by done].
      apply lookup_delete_eq.
  - intros Hparse. unfold onPoll. rewrite Htask. cbv zeta. by rewrite Hfile, Hparse.
  - intros name Hname. apply onPoll_other_files.
    intros requestId. rewrite Htask. by intros [= <-].
Qed.
End Registry.

(** ** The status action *)

(** C8, as the code has it. The response to a status request has exactly the
    fields status (running), pending, cacheSize, uptime (whole seconds),
    channels (the channel names) and provider (the provider name), and the
    request changes nothing. *)
Theorem status_response_fields {runtime : Runtime} {provider : Provider}
    (config : Config) (channels : list Channel) (st : State) (o : Oracle)
    (request : JsValue) :
  Js.get request "action" = Normal (JString "status") ->
  handleRequest config channels st o request
  = Finished []
      (Return (JObject [("status", JString "running");
                        ("pending", JNumber (Js.of_Z (Z.of_nat (size (pendingRequests st)))));
                        ("cacheSize", JNumber (Js.of_Z (Z.of_nat (length (cache st)))));
                        ("uptime", JNumber (Js.of_Z (Qfloor (uptime o))));
                        ("channels", JArray ((fun c => JString (channel_name c)) <$> channels));
                        ("provider", JString provider_name)]))
      st
  /\ (keys <$> response_to (handleRequest config channels st o request))
     = Some ["status"; "pending"; "cacheSize"; "uptime"; "channels"; "provider"].
Proof.
  intros Haction. unfold handleRequest. rewrite Haction. by cbn.
Qed.

(** ** The local transport *)

Lemma index_newline_lt (s : string) (idx : nat) :
  String.index 0 (String Js.newline EmptyString) s = Some idx ->
  (idx < String.length s)%nat.
Proof.
  revert idx. induction s as [|b s IH]; intros idx; cbn [String.index].
  - discriminate.
  - destruct (String.prefix _ _); [intros [= <-]; simpl; lia|].
    destruct (String.index 0 _ s) as [n|]; [|discriminate].
    intros [= <-]. specialize (IH n eq_refl). simpl. lia.
Qed.

Lemma substring_length_le (n m : nat) (s : string) :
  (String.length (String.substring n m s) <= m)%nat.
Proof.
  revert n m. induction s as [|a s IH]; intros [|n] [|m]; simpl; try lia.
  - specialize (IH 0%nat m). lia.
  - apply (IH n 0%nat).
  - apply (IH n (S m)).
Qed.

Lemma increasing_snoc (l : list nat) (x : nat) :
  increasing l = true -> Forall (fun y => (y < x)%nat) l -> increasing (l ++ [x]) = true.
Proof.
  induction l as [|a l IH]; [done|]. intros Hinc Hall.
  apply Forall_cons in Hall as [Ha Hall].
  destruct l as [|b l].
  - simpl. by rewrite (proj2 (Nat.ltb_lt _ _) Ha).
  - change (increasing (a :: b :: l)) with ((a <? b)%nat && increasing (b :: l)) in Hinc.
    apply andb_true_iff in Hinc as [Hab Hinc].
    change (increasing ((a :: b :: l) ++ [x]))
      with ((a <? b)%nat && increasing ((b :: l) ++ [x])).
    rewrite Hab. by apply IH.
Qed.

Section TransportProperties.
Context {runtime : Runtime}.

(** The loop of the data listener runs to its end: no complete line is
    left in the buffer. *)
Lemma drain_complete (rounds : nat) (c : Connection) :
  (String.length (buf c) <= rounds)%nat ->
  String.index 0 (String Js.newline EmptyString) (buf (drain rounds c)) = None.
Proof.
  revert c. induction rounds as [|rounds IH]; intros c Hlen.
  - simpl. destruct (buf c); [reflexivity | simpl in Hlen; lia].
  - cbn [drain].
    destruct (String.index 0 _ (buf c)) as [idx|] eqn:Hidx; [|exact Hidx].
    apply IH. apply index_newline_lt in Hidx.
    assert (buf (onLine (String.substring 0 idx (buf c))
                        (String.substring (S idx) (String.length (buf c) - S idx) (buf c)) c)
            = String.substring (S idx) (String.length (buf c) - S idx) (buf c)) as ->.
    { unfold onLine. destruct (Js.blank _); [done|]. by destruct (JSON_parse _). }
    pose proof (substring_length_le (S idx) (String.length (buf c) - S idx) (buf c)). lia.
Qed.

Lemma onData_complete (chunk : Buffer) (c : Connection) :
  String.index 0 (String Js.newline EmptyString) (buf (onData chunk c)) = None.
Proof. unfold onData. by apply drain_complete. Qed.

Lemma continues_refl (c c' : Connection) :
  written c' = written c -> inflight c' = inflight c -> arrived c' = arrived c ->
  continues c c'.
Proof.
  intros Hw Hf Ha. exists [], []. rewrite !app_nil_r, Hw, Hf, Ha. simpl.
  repeat split; [lia | constructor].
Qed.

Lemma continues_trans (c1 c2 c3 : Connection) :
  continues c1 c2 -> continues c2 c3 -> continues c1 c3.
Proof.
  intros (W & F & Hw & Hf & Ha & Hall) (W' & F' & Hw' & Hf' & Ha' & Hall').
  exists (W ++ W'), (F ++ F'). rewrite Hw', Hw, Hf', Hf, Ha', Ha, !length_app, !app_assoc.
  repeat split; [lia|].
  apply Forall_app in Hall as [HW HF]. apply Forall_app in Hall' as [HW' HF'].
  rewrite !Forall_app. repeat split;
    (eapply Forall_impl; [eassumption | cbn; intros; lia]).
Qed.

Lemma onLine_continues (line rest : string) (c : Connection) :
  continues c (onLine line rest c).
Proof.
  unfold onLine. destruct (Js.blank line); [by apply continues_refl|].
  destruct (JSON_parse line) as [request|].
  - exists [], [(arrived c, request)]. cbn. rewrite app_nil_r.
    repeat split; [lia|]. repeat constructor; cbn; lia.
  - exists [(arrived c, JObject [("error", JString "Invalid JSON")])], []. cbn.
    rewrite app_nil_r. repeat split; [lia|]. repeat constructor; cbn; lia.
Qed.

Lemma drain_continues (rounds : nat) (c : Connection) : continues c (drain rounds c).
Proof.
  revert c. induction rounds as [|rounds IH]; intros c; [by apply continues_refl|].
  cbn [drain]. destruct (String.index 0 _ (buf c)); [|by apply continues_refl].
  eapply continues_trans; [apply onLine_continues | apply IH].
Qed.

Lemma onData_continues (chunk : Buffer) (c : Connection) : continues c (onData chunk c).
Proof.
  unfold onData. eapply continues_trans; [|apply drain_continues].
  by apply continues_refl.
Qed.

Lemma orderly_onData (chunk : Buffer) (c : Connection) :
  orderly c -> inflight c = [] -> (arrived (onData chunk c) <= S (arrived c))%nat ->
  orderly (onData chunk c).
Proof.
  intros (Hinc & Hbound & _ & _) Hidle Hone.
  destruct (onData_continues chunk c) as (W & F & Hw & Hf & Ha & Hall).
  rewrite Hidle in Hf. cbn in Hf. unfold orderly. rewrite Hw, Hf.
  assert (Forall (fun p => (p.1 < arrived (onData chunk c))%nat) (written c)) as Hbound'.
  { eapply Forall_impl; [exact Hbound | cbn; intros; lia]. }
  apply Forall_app in Hall as [HW HF].
  destruct W as [|[a r] [|? W]], F as [|[b q] [|? F]]; cbn in Ha; try lia.
  - rewrite app_nil_r. repeat split; [done | done | cbn; lia | constructor].
  - rewrite app_nil_r. apply Forall_cons in HF as [HF _]. cbn in HF.
    repeat split; [done | done | cbn; lia |].
    apply Forall_cons. split; [|constructor]. cbn. split; [lia|].
    eapply Forall_impl; [exact Hbound | cbn; intros; lia].
  - apply Forall_cons in HW as [HW _]. cbn in HW.
    repeat split; [| |cbn; lia|constructor].
    + rewrite fmap_app. apply increasing_snoc; [done|].
      rewrite Forall_fmap. eapply Forall_impl; [exact Hbound | cbn; intros; lia].
    + apply Forall_app. split; [done|]. apply Forall_cons. split; [cbn; lia | constructor].
Qed.

Lemma orderly_onSettled (line : nat) (o : Outcome) (c : Connection) :
  orderly c -> orderly (onSettled line o c).
Proof.
  intros (Hinc & Hbound & Hlen & Hfly). unfold onSettled.
  destruct (existsb _ (inflight c)) eqn:Hex; [|done].
  destruct (inflight c) as [|[n request] [|? rest]]; [done| |cbn in Hlen; lia].
  cbn in Hex. rewrite orb_false_r in Hex. apply Nat.eqb_eq in Hex. subst n.
  apply Forall_cons in Hfly as [[Hlt Hbelow] _]. cbn in Hlt, Hbelow.
  unfold orderly. cbn. rewrite Nat.eqb_refl. cbn.
  repeat split; [| |lia|constructor].
  - rewrite fmap_app. apply increasing_snoc; [done|]. by rewrite Forall_fmap.
  - apply Forall_app. split; [done|]. apply Forall_cons. by split; [|constructor].
Qed.

Lemma orderly_run (events : list ConnEvent) (c : Connection) :
  orderly c -> one_at_a_time c events = true ->
  orderly (fold_left connStep events c).
Proof.
  revert c. induction events as [|e events IH]; intros c Hc Hseq; [done|].
  cbn [one_at_a_time] in Hseq. apply andb_true_iff in Hseq as [He Hseq].
  cbn [fold_left]. apply IH; [|done].
  destruct e as [chunk|line o]; cbn [connStep].
  - apply andb_true_iff in He as [Hidle Hone].
    apply Nat.eqb_eq, nil_length_inv in Hidle. apply Nat.leb_le in Hone.
    by apply orderly_onData.
  - by apply orderly_onSettled.
Qed.

(** C7, as the code has it. A malformed line is answered while its chunk is
    read and a request is answered when the promise of its handler settles;
    on a connection used by one request at a time (a chunk arrives only when
    no call is in flight and completes at most one line) the responses are
    written in the order in which the requests were received. *)
Theorem responses_ordered_one_at_a_time (events : list ConnEvent) :
  one_at_a_time newConnection events = true ->
  in_request_order (connRun events).
Proof.
  intros Hseq. apply (orderly_run events newConnection); [|done].
  repeat split; cbn; (lia || constructor).
Qed.
End TransportProperties.

(** * Further properties *)

(** ** handleRequest and handleRead: refusals and failures *)

Lemma is_literal_eq (v : JsValue) (literal : string) :
  is_literal v literal = true <-> v = JString literal.
Proof.
  destruct v; cbn; try (split; [discriminate | by intros]).
  rewrite String.eqb_eq. split; [by intros -> | by intros [= ->]].
Qed.

Lemma updates_app (t1 t2 : list Event) :
  updates (t1 ++ t2) = updates t1 ++ updates t2.
Proof.
  induction t1 as [|e t1 IH]; [reflexivity|].
  destruct e; simpl; by rewrite ?IH.
Qed.

Lemma updates_updateApprovalMessages (refs : list (Channel * JsValue)) (approved : bool) :
  updates (updateApprovalMessages refs approved) = (fun r => (r.1, r.2, approved)) <$> refs.
Proof. induction refs as [|r refs IH]; [reflexivity|]. cbn. by rewrite <- IH. Qed.

Section Refusals.
Context {runtime : Runtime} {provider : Provider}.
Variable config : Config.
Variable channels : list Channel.

(** X1. handleRequest calls a collaborator or changes the state only for a
    read whose reference the provider recognises and whose container is open
    or gated: every other request (another action, no action, a missing or
    unrecognised uri, a container in neither list) is answered without any
    call and leaves the state as it was. *)
Theorem only_classified_reads_act (st : State) (o : Oracle) (request : JsValue) :
  trace_of (handleRequest config channels st o request) <> []
    \/ state_of (handleRequest config channels st o request) <> st ->
  exists uri parsed,
    Js.get request "action" = Normal (JString "read")
    /\ reference_of request = Some (uri, parsed)
    /\ classify config (vault parsed) <> Unknown.
Proof.
  unfold handleRequest, reference_of.
  destruct (Js.get request "action") as [action|]; [|intros [[]|[]]; done].
  destruct (is_literal action "read") eqn:Hread.
  - apply is_literal_eq in Hread as ->. unfold handleRead.
    destruct (Js.get request "uri") as [uri|];
      [|destruct (Js.get request "reason"); intros [[]|[]]; done].
    destruct (Js.get request "reason") as [reason|]; [|intros [[]|[]]; done].
    destruct (Js.truthy uri); cbn [negb]; [|intros [[]|[]]; done].
    destruct (parseUri uri) as [[parsed|]|];
      [|destruct (toString uri); intros [[]|[]]; done|intros [[]|[]]; done].
    intros Hacts. exists uri, parsed. split; [done|]. split; [done|].
    unfold classify. revert Hacts.
    destruct (bool_decide (Js.toLowerCase (vault parsed) ∈ OPEN_VAULTS config)); [done|].
    destruct (bool_decide (Js.toLowerCase (vault parsed) ∈ GATED_VAULTS config)); [done|].
    intros [[]|[]]; done.
  - destruct (is_literal action "ping"); [intros [[]|[]]; done|].
    destruct (is_literal action "status"); [intros [[]|[]]; done|].
    destruct (toString action); intros [[]|[]]; done.
Qed.

Lemma scan_non_string (rules : list StandingApproval) (item : string) (reason : JsValue) :
  (forall r, reason <> JString r) ->
  scanStandingApprovals rules item reason
  = if existsb (fun sa => String.eqb (sa_item sa) item && Js.endsWith (sa_reasonMatch sa) "*")
               rules
    then Throw "reason.startsWith is not a function"
    else Normal None.
Proof.
  intros Hreason. induction rules as [|sa rules IH]; [reflexivity|].
  cbn [scanStandingApprovals existsb].
  destruct (String.eqb (sa_item sa) item); cbn [negb andb orb]; [|exact IH].
  destruct (Js.endsWith (sa_reasonMatch sa) "*"); cbn [orb].
  - destruct reason; try reflexivity. by destruct (Hreason s).
  - destruct reason; cbn [is_literal]; try exact IH. by destruct (Hreason s).
Qed.

(** The one exception that ToString throws on a value made by JSON.parse. *)
Lemma toString_throws (v : JsValue) (m : string) : toString v = Throw m -> m = notPrimitive.
Proof.
  revert v m. fix IH 1. intros v m.
  destruct v as [| |[|]|n|s|items|props]; cbn [toString]; try discriminate.
  - assert (Forall (fun x => forall m', toString x = Throw m' -> m' = notPrimitive) items)
      as Helements.
    { clear m. induction items as [|x rest IHrest]; constructor;
        [intros m'; apply IH|exact IHrest]. }
    clear IH. revert m.
    induction Helements as [|x rest Hx _ IHrest]; intros m; [discriminate|].
    assert (forall m', match x with
                       | JUndefined | JNull => Normal EmptyString
                       | _ => toString x
                       end = Throw m' -> m' = notPrimitive) as Helement.
    { intros m'. destruct x; try discriminate; apply Hx. }
    destruct rest as [|y rest]; [apply Helement|].
    destruct (match x with
              | JUndefined | JNull => Normal EmptyString
              | _ => toString x
              end) eqn:Hhead; [|intros [= <-]; by apply Helement].
    match goal with
    | |- context [match ?j with Normal _ => _ | Throw _ => _ end] => destruct j eqn:Hj
    end; [discriminate|].
    intros [= <-]. by apply IHrest.
  - destruct (Js.assoc "toString" props); [by intros [= <-]|discriminate].
Qed.

Lemma handleRead_typed (st : State) (o : Oracle) (request uri reason : JsValue) :
  Js.get request "uri" = Normal uri ->
  Js.get request "reason" = Normal reason ->
  (forall m, parseUri uri <> Throw m) ->
  Js.truthy reason = false \/ (exists r, reason = JString r) ->
  forall trace m st1,
    handleRead config channels st o request = Finished trace (Reject m) st1 ->
    parseUri uri = Normal None /\ toString uri = Throw m /\ trace = [] /\ st1 = st.
Proof.
  intros Hu Hr Hparse Hreason trace m st1. unfold handleRead. rewrite Hu, Hr.
  destruct (Js.truthy uri); cbn [negb]; [|done].
  destruct (parseUri uri) as [[parsed|]|m0] eqn:Hp; [| | by destruct (Hparse m0)];
    [|destruct (toString uri); [done|by intros [= <- <- <-]]].
  case_bool_decide; [by destruct (provider_read o uri None)|].
  case_bool_decide; [|done].
  destruct (negb (Js.truthy reason)) eqn:Hfalsy; [done|].
  assert (exists found, matchesStandingApproval config (item parsed) reason = Normal found)
    as [found ->].
  { destruct Hreason as [Hf|[r ->]].
    - by rewrite Hf in Hfalsy.
    - unfold matchesStandingApproval. rewrite Hfalsy.
      rewrite scanStandingApprovals_find. eauto. }
  destruct found as [sa|]; [by destruct (provider_read o uri _)|].
  destruct (getCached config o uri st) as [[cached|] st0]; [done|].
  destruct (sendApprovalRequests o channels _ _) as [sent refs].
  by destruct (_ && _).
Qed.

(** X2. For a request whose uri the provider can examine without throwing
    and whose reason is a string or falsy, handleRead ends with a rejection
    in one case only: the provider does not recognise the uri and the uri
    does not render as a string for the message of the response (it is an
    object with a toString property, or an array that holds one); the
    rejection then carries the TypeError, and nothing was called or changed.
    A uri that is a string, a number or a boolean renders, so that such a
    request always ends with a response. Once resumed, handleRead ends with
    a response whatever the settlement. *)
Theorem typed_requests_get_a_response (st : State) (o : Oracle) (request uri reason : JsValue) :
  Js.get request "uri" = Normal uri ->
  Js.get request "reason" = Normal reason ->
  (forall m, parseUri uri <> Throw m) ->
  Js.truthy reason = false \/ (exists r, reason = JString r) ->
  (forall trace m st1,
      handleRead config channels st o request = Finished trace (Reject m) st1 ->
      parseUri uri = Normal None /\ toString uri = Throw m /\ m = notPrimitive
      /\ trace = [] /\ st1 = st)
  /\ (Js.truthy uri = true -> parseUri uri = Normal None ->
      forall m, toString uri = Throw m ->
                handleRead config channels st o request = Finished [] (Reject m) st)
  /\ ((forall props, uri <> JObject props) -> (forall items, uri <> JArray items) ->
      forall trace m st1,
        handleRead config channels st o request <> Finished trace (Reject m) st1)
  /\ (forall w s st' o',
         exists response, (handleRead_resumed config w s st' o').1.2 = Return response).
Proof.
  intros Hu Hr Hparse Hreason. split; [|split; [|split]].
  - intros trace m st1 Hrejected.
    destruct (handleRead_typed st o request uri reason Hu Hr Hparse Hreason _ _ _ Hrejected)
      as (Hnone & Hthrown & -> & ->).
    pose proof (toString_throws _ _ Hthrown) as Hm. done.
  - intros Htruthy Hnone m Hthrown. unfold handleRead.
    by rewrite Hu, Hr, Htruthy, Hnone, Hthrown.
  - intros Hobject Harray trace m st1 Hrejected.
    destruct (handleRead_typed st o request uri reason Hu Hr Hparse Hreason _ _ _ Hrejected)
      as (_ & Hthrown & _).
    destruct uri; try discriminate;
      [destruct b; discriminate|by destruct (Harray items)|by destruct (Hobject props)].
  - intros w s st' o'. unfold handleRead_resumed.
    destruct s as [[|]|]; cbn [negb]; [|eauto|eauto].
    destruct (provider_read o' (w_uri w) _); eauto.
Qed.

(** X3. A reason that is truthy but not a string: when some standing rule
    for the item is a prefix rule, the read of a gated container is rejected
    with the TypeError of reason.startsWith, before any call; when no rule
    for the item is a prefix rule, the reason matches no rule. *)
Theorem non_string_reason (st : State) (o : Oracle) (request uri : JsValue)
    (parsed : ParsedUri) (reason : JsValue) :
  reference_of request = Some (uri, parsed) ->
  classify config (vault parsed) = Gated ->
  Js.get request "reason" = Normal reason ->
  Js.truthy reason = true ->
  (forall r, reason <> JString r) ->
  ((exists sa, sa ∈ standingApprovals config /\ sa_item sa = item parsed
               /\ Js.endsWith (sa_reasonMatch sa) "*" = true) ->
   handleRead config channels st o request
   = Finished [] (Reject "reason.startsWith is not a function") st)
  /\ ((forall sa, sa ∈ standingApprovals config -> sa_item sa = item parsed ->
                  Js.endsWith (sa_reasonMatch sa) "*" = false) ->
      matchesStandingApproval config (item parsed) reason = Normal None).
Proof.
  intros Href [Hopen Hgated]%classify_gated Hr Htruthy Hreason.
  assert (matchesStandingApproval config (item parsed) reason
          = if existsb (fun sa => String.eqb (sa_item sa) (item parsed)
                                  && Js.endsWith (sa_reasonMatch sa) "*")
                       (standingApprovals config)
            then Throw "reason.startsWith is not a function" else Normal None) as Hscan.
  { unfold matchesStandingApproval. rewrite Htruthy. cbn [negb]. by apply scan_non_string. }
  split.
  - intros (sa & Hin & Hitem & Hends).
    apply reference_of_inv in Href as (Hu & _ & Ht & Hp).
    unfold handleRead. rewrite Hu, Hr, Ht, Hp. cbn [negb]. rewrite Hopen, Hgated, Htruthy.
    cbn [negb]. rewrite Hscan.
    assert (existsb (fun sa => String.eqb (sa_item sa) (item parsed)
                               && Js.endsWith (sa_reasonMatch sa) "*")
                    (standingApprovals config) = true) as ->; [|done].
    apply existsb_exists. exists sa. split; [by apply list_elem_of_In|].
    by rewrite Hitem, String.eqb_refl, Hends.
  - intros Hnone. rewrite Hscan.
    destruct (existsb _ _) eqn:Hex; [|done].
    apply existsb_exists in Hex as (sa & Hin%list_elem_of_In & Hsa).
    apply andb_true_iff in Hsa as [Hitem%String.eqb_eq Hends].
    by rewrite (Hnone sa Hin Hitem) in Hends.
Qed.

Lemma sendApprovalRequests_spec (o : Oracle) (chs : list Channel)
    (requestId : string) (params : JsValue) :
  prompts (sendApprovalRequests o chs requestId params).1 = chs
  /\ (sendApprovalRequests o chs requestId params).2 = successes o chs params
  /\ audited (sendApprovalRequests o chs requestId params).1
     = channel_errors o chs requestId params
  /\ (length (successes o chs params) + length (channel_errors o chs requestId params)
      = length chs)%nat.
Proof.
  induction chs as [|c chs (IH1 & IH2 & IH3 & IH4)]; [done|].
  cbn [sendApprovalRequests successes channel_errors omap list_omap].
  destruct (sendApprovalRequests o chs requestId params) as [ev refs].
  unfold successes, channel_errors in *. cbn [fst snd] in *.
  destruct (channel_send o c params); cbn; rewrite IH1, IH2, IH3; repeat split; lia.
Qed.

(** X4. The prompt loop of handleRead calls sendApprovalRequest on every
    configured channel, once and in configuration order; it keeps one message
    ref per channel that accepted, and writes one channel_error audit entry
    per channel that refused, in the same order. *)
Theorem every_channel_is_prompted_once (o : Oracle) (chs : list Channel)
    (requestId : string) (params : JsValue) :
  prompts (sendApprovalRequests o chs requestId params).1 = chs
  /\ (sendApprovalRequests o chs requestId params).2 = successes o chs params
  /\ audited (sendApprovalRequests o chs requestId params).1
     = channel_errors o chs requestId params
  /\ (length (successes o chs params) + length (channel_errors o chs requestId params)
      = length chs)%nat.
Proof. apply sendApprovalRequests_spec. Qed.

Lemma getCached_frame (o : Oracle) (uri : JsValue) (st : State) :
  let st0 := (getCached config o uri st).2 in
  pendingRequests st0 = pendingRequests st /\ timers st0 = timers st
  /\ promises st0 = promises st /\ pendingDir st0 = pendingDir st
  /\ nextId st0 = nextId st.
Proof.
  unfold getCached. destruct (cacheTTL config <=? 0); [done|].
  destruct (cache_get uri (cache st)) as [entry|]; [|done].
  by destruct (now o >? expiresAt entry).
Qed.

(** handleRead on the approval path, as one equation. *)
Lemma handleRead_asks (st : State) (o : Oracle) (request uri : JsValue)
    (parsed : ParsedUri) (reason : JsValue) :
  asks_approval config st o request uri parsed reason ->
  handleRead config channels st o request
  = let st0 := (getCached config o uri st).2 in
    let sends := sendApprovalRequests o channels (generateRequestId o)
                   (promptParams o parsed reason) in
    let requested :=
      AuditLog (JObject [("action", str "request"); ("requestId", str (generateRequestId o));
                         ("uri", uri); ("vault", str (vault parsed));
                         ("item", str (item parsed)); ("field", str (field parsed));
                         ("reason", reason);
                         ("type", str "gated"); ("result", str "pending")]) in
    if (length sends.2 =? 0)%nat && (0 <? length channels)%nat then
      Finished (requested :: sends.1)
               (Return (error_response "Failed to send approval request to any channel")) st0
    else
      Awaiting (requested :: sends.1 ++ (waitForApproval config (generateRequestId o) st0).1.1)
               {| w_uri := uri; w_reason := reason; w_parsed := parsed;
                  w_requestId := generateRequestId o; w_messageRefs := sends.2;
                  w_promise := nextId st0 |}
               (waitForApproval config (generateRequestId o) st0).2.
Proof.
  intros (Href & Hr & [Hopen Hgated]%classify_gated & Htruthy & Hnone & Hmiss).
  apply reference_of_inv in Href as (Hu & _ & Ht & Hp).
  unfold handleRead. rewrite Hu, Hr, Ht, Hp. cbn [negb]. rewrite Hopen, Hgated, Htruthy.
  cbn [negb]. rewrite Hnone.
  destruct (getCached config o uri st) as [cached st0]. cbn [fst snd] in *. subst cached.
  unfold promptParams.
  destruct (sendApprovalRequests o channels _ _) as [sent refs]. cbn [fst snd].
  by destruct (_ && _).
Qed.

(** X5. On the approval path handleRead prompts every channel; it answers
    that no channel could be reached, registering nothing and arming no timer,
    exactly when channels are configured and all of them refused; otherwise
    (some channel accepted, or no channel is configured at all) it registers
    the request under its fresh id, arms the timeout and the poller, and waits
    with the message refs of the channels that accepted. *)
Theorem prompt_decides_the_wait (st : State) (o : Oracle) (request uri : JsValue)
    (parsed : ParsedUri) (reason : JsValue) :
  asks_approval config st o request uri parsed reason ->
  let refs := successes o channels (promptParams o parsed reason) in
  let id := generateRequestId o in
  match handleRead config channels st o request with
  | Finished trace outcome st1 =>
      refs = [] /\ channels <> []
      /\ outcome = Return (error_response "Failed to send approval request to any channel")
      /\ prompts trace = channels
      /\ pendingRequests st1 = pendingRequests st /\ timers st1 = timers st
  | Awaiting trace w st1 =>
      (refs <> [] \/ channels = [])
      /\ prompts trace = channels
      /\ w_messageRefs w = refs /\ w_requestId w = id /\ w_uri w = uri
      /\ w_promise w = nextId st
      /\ pendingRequests st1 !! id
         = Some {| resolve := nextId st; timer := S (nextId st);
                   pollInterval := S (S (nextId st)) |}
      /\ timers st1 !! S (nextId st) = Some (TimeoutTask id (nextId st))
      /\ timers st1 !! S (S (nextId st)) = Some (PollTask id)
  end.
Proof.
  intros Hasks refs id. rewrite (handleRead_asks _ _ _ _ _ _ Hasks). cbv zeta.
  destruct (sendApprovalRequests_spec o channels (generateRequestId o)
              (promptParams o parsed reason)) as (Hprompts & Hrefs & _ & _).
  destruct (getCached_frame o uri st) as (Hm & Ht & _ & _ & Hn).
  rewrite Hrefs. fold refs.
  destruct ((length refs =? 0)%nat && (0 <? length channels)%nat) eqn:Htest.
  - apply andb_true_iff in Htest as [Hrefs0%Nat.eqb_eq%nil_length_inv Hch%Nat.ltb_lt].
    repeat split; try done. intros ->. cbn in Hch. lia.
  - split.
    { apply andb_false_iff in Htest as [Hrefs0%Nat.eqb_neq|Hch%Nat.ltb_ge].
      - left. intros Heq. by rewrite Heq in Hrefs0.
      - right. apply nil_length_inv. lia. }
    cbn [prompts w_messageRefs w_requestId w_uri w_promise].
    rewrite prompts_app, Hprompts. unfold waitForApproval. cbn. rewrite Hm, Ht, Hn.
    repeat split; try done.
    + by rewrite app_nil_r.
    + apply lookup_insert_eq.
    + rewrite lookup_insert_ne by lia. apply lookup_insert_eq.
    + apply lookup_insert_eq.
Qed.

(** X6. When handleRead resumes, every message ref it holds is updated
    exactly once, in the order of the prompts, with true when the request was
    approved and with false when it was denied or timed out. *)
Theorem every_prompt_is_updated_once (w : Waiting) (s : Settlement) (st : State) (o : Oracle) :
  updates (handleRead_resumed config w s st o).1.1
  = (fun r => (r.1, r.2, approved_of s)) <$> w_messageRefs w.
Proof.
  unfold handleRead_resumed. destruct s as [[|]|]; cbn [negb approved_of].
  - destruct (provider_read o (w_uri w) _); cbn [fst];
      by rewrite updates_app, updates_updateApprovalMessages, app_nil_r.
  - cbn [fst]. by rewrite updates_app, updates_updateApprovalMessages, app_nil_r.
  - cbn [fst]. by rewrite updates_app, updates_updateApprovalMessages, app_nil_r.
Qed.

(** X7. A request that was denied or that timed out never reaches the
    provider and never changes the state, the cache included: it writes one
    audit entry (denied, or timeout) and answers with an error, which is the
    operator's denial or the message of the rejection. *)
Theorem denied_or_timed_out_reads_nothing (w : Waiting) (s : Settlement) (st : State)
    (o : Oracle) :
  approved_of s = false ->
  let '(trace, outcome, st1) := handleRead_resumed config w s st o in
  provider_calls trace = []
  /\ st1 = st
  /\ outcome = Return (error_response
                         match s with
                         | Fulfilled _ => "Request denied by operator"
                         | Rejected message => message
                         end)
  /\ (fun entry => Js.get entry "action") <$> audited trace
     = [Normal (JString match s with Fulfilled _ => "denied" | Rejected _ => "timeout" end)].
Proof.
  unfold handleRead_resumed. destruct s as [[|]|message]; cbn [negb approved_of]; [done| |];
    intros _; rewrite provider_calls_app, provider_calls_updates, audited_app, audited_updates;
    by repeat split.
Qed.

(** X8. The timeout of a waiting read. When handleRead has gone to wait, the
    firing of the timer it armed clears the poller, deletes the registry
    entry, unlinks the file of the request and rejects the promise with the
    timeout message, without calling the resolver; the read then resumes on
    that rejection, updates every prompt with false, writes one timeout audit
    entry and answers with the timeout message. *)
Theorem timeout_ends_the_wait (st : State) (o : Oracle) (request : JsValue)
    (trace : list Event) (w : Waiting) (st1 : State) :
  handleRead config channels st o request = Awaiting trace w st1 ->
  promises st !! nextId st = None ->
  let id := w_requestId w in
  let message := timeoutMessage config in
  exists st2,
    onTimeout config (S (w_promise w)) st1
    = ([ClearTimeout (S (w_promise w)); ClearInterval (S (S (w_promise w)));
        RegistryDelete id; UnlinkSync (id +:+ ".json");
        RejectCall (w_promise w) message],
       st2)
    /\ pendingRequests st2 !! id = None
    /\ timers st2 !! S (w_promise w) = None
    /\ timers st2 !! S (S (w_promise w)) = None
    /\ promises st2 !! w_promise w = Some (Rejected message)
    /\ forall st' o',
        let '(trace', outcome, st3) := handleRead_resumed config w (Rejected message) st' o' in
        outcome = Return (error_response message)
        /\ updates trace' = (fun r => (r.1, r.2, false)) <$> w_messageRefs w
        /\ (fun entry => Js.get entry "action") <$> audited trace'
           = [Normal (JString "timeout")]
        /\ st3 = st'.
Proof.
  intros Hrun Hfresh id message.
  assert (exists uri st0,
             st0 = (getCached config o uri st).2
             /\ w_promise w = nextId st0
             /\ st1 = (waitForApproval config id st0).2) as (uri & st0 & Hst0 & Hp & Hst1).
  { revert Hrun. unfold handleRead.
    destruct (Js.get request "uri") as [uri|]; [|by destruct (Js.get request "reason")].
    destruct (Js.get request "reason") as [reason|]; [|done].
    destruct (Js.truthy uri); cbn [negb]; [|done].
    destruct (parseUri uri) as [[parsed|]|]; [|by destruct (toString uri)|done].
    case_bool_decide; [by destruct (provider_read o uri None)|].
    case_bool_decide; [|done].
    destruct (negb (Js.truthy reason)); [done|].
    destruct (matchesStandingApproval config (item parsed) reason) as [[sa|]|]; [| |done].
    { by destruct (provider_read o uri _). }
    destruct (getCached config o uri st) as [[cached|] st0] eqn:Hcache; [done|].
    destruct (sendApprovalRequests o channels _ _) as [sent refs].
    destruct (_ && _); [done|].
    intros [= _ <- <-]. exists uri, st0. by rewrite Hcache. }
  destruct (getCached_frame o uri st) as (Hm & Ht & Hpr & Hd & Hn). rewrite <- Hst0 in *.
  assert (promises st0 !! w_promise w = None) as Hunsettled by (by rewrite Hp, Hpr, Hn).
  rewrite Hp in *. rewrite Hst1. clear Hst1 Hp.
  assert (timers (waitForApproval config id st0).2 !! S (nextId st0)
          = Some (TimeoutTask id (nextId st0))) as Htimer.
  { unfold waitForApproval. cbn. rewrite lookup_insert_ne by lia. apply lookup_insert_eq. }
  eexists. split.
  - unfold onTimeout. rewrite Htimer. unfold cleanup, waitForApproval. cbn.
    rewrite lookup_insert_eq. cbn. reflexivity.
  - rewrite settle_pendingRequests, settle_timers. cbn.
    split; [apply lookup_delete_eq|].
    split; [rewrite lookup_delete_ne by lia; apply lookup_delete_eq|].
    split; [apply lookup_delete_eq|]. split.
    + apply settle_unsettled. cbn. exact Hunsettled.
    + intros st' o'. unfold handleRead_resumed.
      rewrite updates_app, updates_updateApprovalMessages, audited_app, audited_updates.
      by repeat split; rewrite ?app_nil_r.
Qed.
End Refusals.

(** ** The value cache *)

Lemma sameValueZero_string (x : JsValue) (u : string) :
  sameValueZero x (JString u) = true <-> x = JString u.
Proof.
  destruct x as [| | |n|s| |]; cbn; try (split; [discriminate | by intros]).
  - destruct n; split; (discriminate || by intros).
  - rewrite String.eqb_eq. split; [by intros -> | by intros [= ->]].
Qed.

Lemma cache_get_set_same (u : string) (entry : CacheEntry) (c : list (JsValue * CacheEntry)) :
  cache_get (JString u) (cache_set (JString u) entry c) = Some entry.
Proof.
  unfold cache_get, cache_set.
  destruct (existsb _ c) eqn:Hex.
  - induction c as [|[k e] c IH]; [discriminate|]. cbn in *.
    destruct (sameValueZero k (JString u)) eqn:Hk; cbn; [by rewrite Hk|].
    rewrite Hk. apply IH. exact Hex.
  - induction c as [|[k e] c IH]; cbn in *.
    + by rewrite String.eqb_refl.
    + apply orb_false_iff in Hex as [Hk Hex]. rewrite Hk. by apply IH.
Qed.

Lemma cache_get_set_other (u u' : string) (entry : CacheEntry)
    (c : list (JsValue * CacheEntry)) :
  u' <> u ->
  cache_get (JString u') (cache_set (JString u) entry c) = cache_get (JString u') c.
Proof.
  intros Hne. unfold cache_get, cache_set.
  assert (forall k, sameValueZero k (JString u) = true ->
                    sameValueZero k (JString u') = false) as Hother.
  { intros k ->%sameValueZero_string. cbn. by apply String.eqb_neq. }
  destruct (existsb _ c) eqn:Hex.
  - clear Hex. induction c as [|[k e] c IH]; [done|]. cbn.
    destruct (sameValueZero k (JString u)) eqn:Hk; cbn.
    + rewrite (Hother _ Hk). exact IH.
    + destruct (sameValueZero k (JString u')); [done | exact IH].
  - clear Hex. induction c as [|[k e] c IH]; cbn.
    + by rewrite (proj2 (String.eqb_neq u u')).
    + destruct (sameValueZero k (JString u')); [done | exact IH].
Qed.

Lemma cache_get_delete_same (k : JsValue) (c : list (JsValue * CacheEntry)) :
  cache_get k (cache_delete k c) = None.
Proof.
  unfold cache_get, cache_delete. induction c as [|[k0 e] c IH]; [done|]. cbn.
  destruct (sameValueZero k0 k) eqn:Hk; cbn; [exact IH|]. by rewrite Hk.
Qed.

Section Cache.
Context {runtime : Runtime} {provider : Provider}.
Variable config : Config.
Variable channels : list Channel.

Lemma getCached_fresh (o : Oracle) (uri : JsValue) (entry : CacheEntry) (st : State) :
  0 < cacheTTL config ->
  cache_get uri (cache st) = Some entry ->
  now o <= expiresAt entry ->
  getCached config o uri st = (Some (value entry), st).
Proof.
  intros Httl Hget Hnow. unfold getCached.
  rewrite (proj2 (Z.leb_gt _ _) Httl), Hget.
  by rewrite Z.gtb_ltb, (proj2 (Z.ltb_ge _ _) Hnow).
Qed.

Lemma getCached_expired (o : Oracle) (uri : JsValue) (entry : CacheEntry) (st : State) :
  0 < cacheTTL config ->
  cache_get uri (cache st) = Some entry ->
  expiresAt entry < now o ->
  getCached config o uri st = (None, with_cache (cache_delete uri (cache st)) st).
Proof.
  intros Httl Hget Hnow. unfold getCached.
  rewrite (proj2 (Z.leb_gt _ _) Httl), Hget.
  by rewrite Z.gtb_ltb, (proj2 (Z.ltb_lt _ _) Hnow).
Qed.


(** X9. The cache, for references that are strings and a positive TTL: a
    value stored at one moment is found by every lookup of the same reference
    up to TTL milliseconds later, and that lookup changes nothing; a later
    lookup answers absent and evicts the entry; and storing under one
    reference does not change what a lookup of another reference answers. *)
Theorem cache_store_then_lookup (o o' : Oracle) (u v : string) (st : State) :
  0 < cacheTTL config ->
  let st1 := setCache config o (JString u) v st in
  (now o' <= now o + cacheTTL config ->
   getCached config o' (JString u) st1 = (Some v, st1))
  /\ (now o + cacheTTL config < now o' ->
      (getCached config o' (JString u) st1).1 = None
      /\ cache_get (JString u) (cache (getCached config o' (JString u) st1).2) = None)
  /\ (forall u', u' <> u ->
      (getCached config o' (JString u') st1).1 = (getCached config o' (JString u') st).1).
Proof.
  intros Httl st1.
  assert (cache st1 = cache_set (JString u) {| value := v; expiresAt := now o + cacheTTL config |}
                                (cache st)) as Hcache.
  { unfold st1, setCache. by rewrite (proj2 (Z.leb_gt _ _) Httl). }
  assert (cache_get (JString u) (cache st1)
          = Some {| value := v; expiresAt := now o + cacheTTL config |}) as Hget
    by (rewrite Hcache; apply cache_get_set_same).
  split; [|split].
  - intros Hnow. by rewrite (getCached_fresh o' _ _ st1 Httl Hget).
  - intros Hnow. rewrite (getCached_expired o' _ _ st1 Httl Hget Hnow). cbn.
    split; [done | apply cache_get_delete_same].
  - intros u' Hne. unfold getCached. rewrite (proj2 (Z.leb_gt _ _) Httl), Hcache.
    rewrite (cache_get_set_other _ _ _ _ Hne).
    destruct (cache_get (JString u') (cache st)) as [entry|]; [|done].
    by destruct (now o' >? expiresAt entry).
Qed.

End Cache.

(** ** The registry: isolation of pending requests *)

Lemma append_length (s t : string) :
  String.length (s +:+ t) = (String.length s + String.length t)%nat.
Proof.
  induction s as [|a s IH]; [done|].
  change (S (String.length (s +:+ t)) = S (String.length s + String.length t)).
  by rewrite IH.
Qed.

Lemma append_inj_l (s1 s2 t : string) : s1 +:+ t = s2 +:+ t -> s1 = s2.
Proof.
  revert s2. induction s1 as [|a s1 IH]; intros [|b s2] H.
  - done.
  - apply (f_equal String.length) in H. rewrite !append_length in H. cbn in H. lia.
  - apply (f_equal String.length) in H. rewrite !append_length in H. cbn in H. lia.
  - change (String a (s1 +:+ t) = String b (s2 +:+ t)) in H.
    injection H as -> H. by rewrite (IH _ H).
Qed.

(** X11. Resolving one pending request leaves every other pending request
    as it is: its registry entry, its file in the pending directory, every
    timer and interval other than the two of the resolved entry, and every
    promise other than the one of the resolved entry are untouched, and the
    only resolver called is the one of the resolved entry. *)
Theorem resolving_leaves_the_others (id : string) (pending : Pending) (approved : JsValue)
    (st : State) :
  pendingRequests st !! id = Some pending ->
  let '(resolved, trace, st1) := resolveApproval (JString id) approved st in
  (forall id', id' <> id ->
      pendingRequests st1 !! id' = pendingRequests st !! id'
      /\ pendingDir st1 !! (id' +:+ ".json") = pendingDir st !! (id' +:+ ".json"))
  /\ (forall handle, handle <> timer pending -> handle <> pollInterval pending ->
      timers st1 !! handle = timers st !! handle)
  /\ (forall promise, promise <> resolve pending ->
      promises st1 !! promise = promises st !! promise)
  /\ resolver_calls trace = [(resolve pending, Js.truthy approved)]
  /\ cache st1 = cache st.
Proof.
  intros Hget. rewrite (resolveApproval_pending _ _ _ _ Hget).
  rewrite settle_pendingRequests, settle_pendingDir, settle_timers. cbn.
  split; [|split; [|split; [|split]]].
  - intros id' Hne. split; [by rewrite lookup_delete_ne|].
    rewrite lookup_delete_ne; [done|]. intros Heq. by apply append_inj_l in Heq.
  - intros handle Ht Hp. by rewrite !lookup_delete_ne.
  - intros promise Hne. unfold settle. cbn.
    destruct (promises st !! resolve pending); [done|]. cbn. by rewrite lookup_insert_ne.
  - done.
  - unfold settle. cbn. by destruct (promises st !! resolve pending).
Qed.

(** ** Request identifiers *)

Lemma hexDigit_lower (n : N) : (n < 16)%N -> isLowerHex (hexDigit n) = true.
Proof.
  intros H. assert (N.to_nat n < 16)%nat as Hn by lia.
  unfold hexDigit. destruct (N.to_nat n) as [|[|[|[|[|[|[|[|[|[|[|[|[|[|[|[|k]]]]]]]]]]]]]]]];
    reflexivity.
Qed.

Lemma hexDigit_inj (n m : N) : (n < 16)%N -> (m < 16)%N -> hexDigit n = hexDigit m -> n = m.
Proof.
  intros Hn Hm. assert (N.to_nat n < 16)%nat as Hn' by lia.
  assert (N.to_nat m < 16)%nat as Hm' by lia.
  intros H. apply N2Nat.inj. revert H. unfold hexDigit.
  destruct (N.to_nat n) as [|[|[|[|[|[|[|[|[|[|[|[|[|[|[|[|k]]]]]]]]]]]]]]]]; try lia;
  destruct (N.to_nat m) as [|[|[|[|[|[|[|[|[|[|[|[|[|[|[|[|j]]]]]]]]]]]]]]]]; try lia;
    cbn; intros H; (reflexivity || discriminate H).
Qed.

Lemma byte_to_N_inj (b1 b2 : Byte.byte) : Byte.to_N b1 = Byte.to_N b2 -> b1 = b2.
Proof.
  intros H. pose proof (Byte.of_to_N b1) as H1. pose proof (Byte.of_to_N b2) as H2.
  rewrite H in H1. congruence.
Qed.

Lemma hex_inj (l1 l2 : list Byte.byte) : hex l1 = hex l2 -> l1 = l2.
Proof.
  revert l2. induction l1 as [|b1 l1 IH]; intros [|b2 l2]; cbn; try done.
  intros [= Hhi Hlo Hrest]. f_equal; [|by apply IH].
  pose proof (Byte.to_N_bounded b1). pose proof (Byte.to_N_bounded b2).
  apply hexDigit_inj in Hhi; [|apply N.Div0.div_lt_upper_bound; lia..].
  apply hexDigit_inj in Hlo; [|apply N.mod_lt; lia..].
  apply byte_to_N_inj.
  rewrite (N.div_mod (Byte.to_N b1) 16), (N.div_mod (Byte.to_N b2) 16) by lia. lia.
Qed.

Lemma hex_lower (l : list Byte.byte) :
  forallb isLowerHex (list_ascii_of_string (hex l)) = true.
Proof.
  induction l as [|b l IH]; [done|]. cbn [hex foldr list_ascii_of_string forallb].
  pose proof (Byte.to_N_bounded b).
  rewrite !hexDigit_lower; [exact IH | apply N.mod_lt; lia
                            | apply N.Div0.div_lt_upper_bound; lia].
Qed.

(** X12. A request identifier is the rendering of the eight random bytes:
    sixteen characters, each one a digit or a letter from a to f, and two
    different byte strings never give the same identifier. *)
Theorem request_ids_render_the_bytes (o1 o2 : Oracle) :
  String.length (generateRequestId o1) = 16%nat
  /\ forallb isLowerHex (list_ascii_of_string (generateRequestId o1)) = true
  /\ (generateRequestId o1 = generateRequestId o2 -> randomBytes o1 = randomBytes o2).
Proof.
  split; [apply generateRequestId_length|]. split; [apply hex_lower|].
  unfold generateRequestId. intros H%hex_inj. by apply vec_to_list_inj2.
Qed.

(** ** The callback server *)

Lemma append_cons (a : ascii) (s t : string) : String a s +:+ t = String a (s +:+ t).
Proof. reflexivity. Qed.

Lemma stripPrefix_app (p s : string) : stripPrefix p (p +:+ s) = Some s.
Proof.
  induction p as [|a p IH]; [by destruct s|].
  rewrite append_cons. cbn [stripPrefix]. by rewrite Ascii.eqb_refl.
Qed.

Lemma stripPrefix_inv (p s rest : string) : stripPrefix p s = Some rest -> s = p +:+ rest.
Proof.
  revert s. induction p as [|a p IH]; intros s H.
  - destruct s; by injection H as <-.
  - destruct s as [|b s]; [done|]. cbn [stripPrefix] in H.
    destruct (Ascii.eqb a b) eqn:Hab; [|done].
    apply Ascii.eqb_eq in Hab as <-. rewrite append_cons. f_equal. by apply IH.
Qed.

Lemma matchAction_iff (s rest : string) (approve : bool) :
  matchAction s = Some (approve, rest)
  <-> s = (if approve then "approve" else "deny") +:+ ":" +:+ rest.
Proof.
  unfold matchAction. split.
  - destruct (stripPrefix "approve:" s) as [r|] eqn:H1.
    + intros [= <- <-]. by apply stripPrefix_inv in H1.
    + destruct (stripPrefix "deny:" s) as [r|] eqn:H2; [|done].
      intros [= <- <-]. by apply stripPrefix_inv in H2.
  - intros ->. destruct approve.
    + change ("approve" +:+ ":" +:+ rest) with ("approve:" +:+ rest).
      by rewrite stripPrefix_app.
    + change ("deny" +:+ ":" +:+ rest) with ("deny:" +:+ rest).
      change (stripPrefix "approve:" ("deny:" +:+ rest)) with (@None string).
      by rewrite stripPrefix_app.
Qed.

Lemma matchCallbackData_iff (s id : string) (approve : bool) :
  matchCallbackData s = Some (approve, id)
  <-> s = callbackData approve id /\ id <> EmptyString /\ Sample.singleLine id = true.
Proof.
  unfold matchCallbackData, callbackData. split.
  - destruct (stripPrefix "ag:" s) as [rest|] eqn:Hag; [|done].
    apply stripPrefix_inv in Hag as ->.
    destruct (matchAction rest) as [[b r]|] eqn:Hact; [|done].
    apply matchAction_iff in Hact as ->.
    destruct (String.eqb r EmptyString) eqn:Hempty; [done|].
    destruct (Sample.singleLine r) eqn:Hline; [|done]. cbn [orb negb].
    intros [= <- <-]. split; [done|]. split; [|done].
    intros ->. discriminate Hempty.
  - intros (-> & Hne & Hline). rewrite stripPrefix_app.
    rewrite (proj2 (matchAction_iff _ id approve) eq_refl), Hline.
    destruct (String.eqb_spec id EmptyString) as [->|_]; done.
Qed.

Lemma resolveApproval_cases (requestId approved : JsValue) (st : State) :
  resolveApproval requestId approved st = (false, [], st)
  \/ exists id pending,
       requestId = JString id /\ pendingRequests st !! id = Some pending
       /\ (resolveApproval requestId approved st).1.1 = true.
Proof.
  destruct (registry_get requestId st) as [pending|] eqn:Hget.
  - right. destruct requestId as [| | | |id| |]; try discriminate. cbn [registry_get] in Hget.
    exists id, pending. by rewrite (resolveApproval_pending _ _ _ _ Hget).
  - left. by apply resolveApproval_absent.
Qed.

Lemma resolveApproval_quiet (requestId approved : JsValue) (st : State) :
  let '(_, trace, st') := resolveApproval requestId approved st in
  provider_calls trace = [] /\ prompts trace = [] /\ audited trace = []
  /\ cache st' = cache st /\ nextId st' = nextId st.
Proof.
  destruct (resolveApproval_cases requestId approved st) as [->|(id & p & -> & Hget & _)];
    [done|].
  rewrite (resolveApproval_pending _ _ _ _ Hget). unfold settle. cbn.
  by destruct (promises st !! resolve p).
Qed.

Section Http.
Context {runtime : Runtime}.

Lemma resolve_settles_or_nothing (requestId approved : JsValue) (st : State) :
  settles_or_nothing st
    (let '(resolved, ev, st1) := resolveApproval requestId approved st in
     (ev, {| statusCode := 200;
             body := JObject [("ok", JBool true); ("resolved", JBool resolved)] |}, st1)).
Proof.
  destruct (resolveApproval_cases requestId approved st) as [->|(id & p & -> & Hget & _)].
  - left. by cbn.
  - rewrite (resolveApproval_pending _ _ _ _ Hget). right. split; [done|].
    exists id, approved. split; [by exists p|].
    by rewrite (resolveApproval_pending _ _ _ _ Hget).
Qed.

(** A value that does not render is no key of the registry. *)
Lemma toString_throws_absent (requestId : JsValue) (m : string) (st : State) :
  toString requestId = Throw m -> registry_get requestId st = None.
Proof. by destruct requestId as [| |[|]| | | |]. Qed.

(** The end listener of /callback does what the two routes have in common,
    or it ends the process: after the answer to a callback that names no
    pending request, on an id that does not render. *)
Lemma postCallback_settles (text : string) (st : State) :
  let '(trace, response, st') := postCallback text st in
  settles_or_nothing st (trace, response, st')
  \/ (trace = [Uncaught headersSent] /\ st' = st
      /\ response = {| statusCode := 200;
                       body := JObject [("ok", JBool true); ("resolved", JBool false)] |}
      /\ exists data requestId m,
           JSON_parse text = Some data
           /\ Js.get data "requestId" = Normal requestId
           /\ Js.truthy requestId = true
           /\ toString requestId = Throw m).
Proof.
  unfold postCallback. destruct (JSON_parse text) as [data|] eqn:Hparse; [|by left; left].
  destruct (Js.get data "requestId") as [requestId|] eqn:Hid; [|by left; left].
  destruct (Js.truthy requestId) eqn:Htruthy; cbn [negb]; [|by left; left].
  destruct (Js.get data "approved") as [approved|]; [|by left; left].
  pose proof (resolve_settles_or_nothing requestId approved st) as Hsettles.
  destruct (toString requestId) as [rendered|m] eqn:Hrendered.
  - destruct (resolveApproval requestId approved st) as [[resolved ev] st1]. by left.
  - rewrite (resolveApproval_absent _ approved _ (toString_throws_absent _ _ st Hrendered)).
    cbn [app]. right. split; [done|]. split; [done|]. split; [done|].
    by exists data, requestId, m.
Qed.

Lemma postChannelCallback_settles (text : string) (st : State) :
  settles_or_nothing st (postChannelCallback text st).
Proof.
  unfold postChannelCallback. destruct (JSON_parse text) as [data|]; [|by left].
  destruct (Js.get data "callback_data") as [cd|]; [|by left].
  destruct (if Js.truthy cd then cd else JString ""); try by left.
  destruct (matchCallbackData s) as [[approve id]|]; [|by left].
  apply resolve_settles_or_nothing.
Qed.

Lemma requestListener_routes (method url text : string) (st : State) :
  let '(trace, reply, st') := requestListener method url text st in
  (trace = [] /\ st' = st
   /\ payload reply <> Some (JObject [("ok", JBool true); ("resolved", JBool true)]))
  \/ (method = "POST" /\ url = "/callback"
      /\ trace = [Uncaught headersSent] /\ st' = st
      /\ reply = {| status := 200;
                    payload := Some (JObject [("ok", JBool true);
                                               ("resolved", JBool false)]) |}
      /\ exists data requestId m,
           JSON_parse text = Some data
           /\ Js.get data "requestId" = Normal requestId
           /\ Js.truthy requestId = true
           /\ toString requestId = Throw m)
  \/ (method = "POST" /\ (url = "/callback" \/ url = "/channel-callback")
      /\ exists response,
           reply = json response /\ settles_or_nothing st (trace, response, st')).
Proof.
  assert (forall code message,
            payload (json {| statusCode := code; body := error_response message |})
            <> Some (JObject [("ok", JBool true); ("resolved", JBool true)])) as Herror
    by (intros code message; cbn; by intros [= H]).
  unfold requestListener.
  destruct (String.eqb_spec method "OPTIONS") as [_|_]; [by left|].
  destruct (String.eqb_spec method "GET" ) as [->|_]; cbn [andb].
  { destruct (String.eqb_spec url "/health") as [_|_]; [left|by left].
    split; [done|]. split; [done|]. cbn. by intros [= H]. }
  destruct (String.eqb_spec method "POST") as [->|_]; cbn [andb]; [|by left].
  destruct (String.eqb_spec url "/callback") as [->|_].
  { pose proof (postCallback_settles text st) as H.
    destruct (postCallback text st) as [[trace response] st'].
    destruct H as [H|(-> & -> & -> & Hid)]; right; [right|left].
    - split; [done|]. split; [by left|]. by exists response.
    - done. }
  destruct (String.eqb_spec url "/channel-callback") as [->|_]; [|by left].
  pose proof (postChannelCallback_settles text st) as H.
  destruct (postChannelCallback text st) as [[trace response] st']. right. right.
  split; [done|]. split; [by right|]. by exists response.
Qed.

(** X13. Whatever request the callback server receives, it reads no
    secret, prompts nobody, writes no audit entry and leaves the value cache
    as it is. One of three things happens. It calls nothing and changes
    nothing. Or the request is a POST to /callback whose body names, as
    requestId, a truthy value that does not render as a string (an object
    with a toString property, or an array that holds one): it is answered
    200 with resolved false, nothing is changed, and the log line that
    follows the answer throws an exception that nothing catches, which ends
    the process. Or the request is a POST to /callback or /channel-callback
    that names a pending request, the answer is 200 with resolved true, and
    what happened is one resolveApproval of that request. *)
Theorem callback_server_only_settles (method url text : string) (st : State) :
  let '(trace, reply, st') := requestListener method url text st in
  (provider_calls trace = [] /\ prompts trace = [] /\ audited trace = []
   /\ cache st' = cache st /\ nextId st' = nextId st)
  /\ ((trace = [] /\ st' = st
       /\ payload reply <> Some (JObject [("ok", JBool true); ("resolved", JBool true)]))
      \/ (method = "POST" /\ url = "/callback"
          /\ trace = [Uncaught headersSent] /\ st' = st
          /\ reply = {| status := 200;
                        payload := Some (JObject [("ok", JBool true);
                                                   ("resolved", JBool false)]) |}
          /\ exists data requestId m,
               JSON_parse text = Some data
               /\ Js.get data "requestId" = Normal requestId
               /\ Js.truthy requestId = true
               /\ toString requestId = Throw m)
      \/ (method = "POST" /\ (url = "/callback" \/ url = "/channel-callback")
          /\ reply = {| status := 200;
                        payload := Some (JObject [("ok", JBool true);
                                                   ("resolved", JBool true)]) |}
          /\ exists id approved,
               is_Some (pendingRequests st !! id)
               /\ resolveApproval (JString id) approved st = (true, trace, st'))).
Proof.
  pose proof (requestListener_routes method url text st) as H.
  destruct (requestListener method url text st) as [[trace reply] st'].
  destruct H as [(-> & -> & Hreply)|[(-> & -> & -> & -> & -> & Hid)
                                    |(-> & Hurl & response & -> & Hsettles)]];
    [split; [done | by left]|split; [done | by right; left]|].
  destruct Hsettles as [(-> & -> & Hbody)|(-> & id & approved & Hpending & Hresolve)].
  - split; [done|]. left. split; [done|]. split; [done|]. cbn. by intros [= H].
  - pose proof (resolveApproval_quiet (JString id) approved st) as Hquiet.
    rewrite Hresolve in Hquiet. split; [done|]. right. right.
    split; [done|]. split; [done|]. split; [done|]. by exists id, approved.
Qed.

(** X14. The callback data that a channel puts on a button is what the
    channel route takes apart: a press of the button of a request has the
    effect and the answer of the direct callback that names the request and
    the decision. The id is any text without a line break, as the generated
    ids are. *)
Theorem button_press_is_a_direct_callback (approve : bool) (id : string)
    (pressed direct : string) (data data' : JsValue) (st : State) :
  id <> EmptyString -> Sample.singleLine id = true ->
  JSON_parse pressed = Some data ->
  Js.get data "callback_data" = Normal (JString (callbackData approve id)) ->
  JSON_parse direct = Some data' ->
  Js.get data' "requestId" = Normal (JString id) ->
  Js.get data' "approved" = Normal (JBool approve) ->
  postChannelCallback pressed st = postCallback direct st
  /\ (postChannelCallback pressed st).2 = (resolveApproval (JString id) (JBool approve) st).2.
Proof.
  intros Hne Hline Hparse Hdata Hparse' Hid Happroved.
  unfold postChannelCallback, postCallback.
  rewrite Hparse, Hdata, Hparse', Hid, Happroved.
  assert (Js.truthy (JString (callbackData approve id)) = true) as ->
    by by destruct approve.
  assert (Js.truthy (JString id) = true) as ->.
  { cbn. by destruct (String.eqb_spec id EmptyString). }
  rewrite (proj2 (matchCallbackData_iff _ id approve) (conj eq_refl (conj Hne Hline))).
  cbn [negb]. split; [done|].
  by destruct (resolveApproval (JString id) (JBool approve) st) as [[resolved ev] st1].
Qed.

(** X15. The channel route accepts the button format and nothing else: a
    callback data is taken apart into a decision and an id exactly when it
    is the text that a channel builds for that decision and id, and the id is
    not empty and holds no line break. *)
Theorem channel_route_accepts_the_button_format (s id : string) (approve : bool) :
  matchCallbackData s = Some (approve, id)
  <-> s = callbackData approve id /\ id <> EmptyString /\ Sample.singleLine id = true.
Proof. apply matchCallbackData_iff. Qed.
End Http.

(** ** The watcher *)

Lemma NoDup_fmap_eq {A B} (f : A -> B) (l : list A) (x y : A) :
  NoDup (f <$> l) -> x ∈ l -> y ∈ l -> f x = f y -> x = y.
Proof.
  induction l as [|a l IH]; intros Hnd Hx Hy Hf; [by apply elem_of_nil in Hx|].
  rewrite fmap_cons in Hnd. apply NoDup_cons in Hnd as [Hnotin Hnd].
  apply elem_of_cons in Hx as [->|Hx]; apply elem_of_cons in Hy as [->|Hy].
  - done.
  - exfalso. apply Hnotin. rewrite Hf. by apply list_elem_of_fmap_2.
  - exfalso. apply Hnotin. rewrite <- Hf. by apply list_elem_of_fmap_2.
  - by apply IH.
Qed.

Section WatcherProperties.
Variable writable : string -> bool.

Lemma extends_nil (seen : gset string) : extends seen [] seen.
Proof.
  split; [constructor|]. split; [by intros key H%elem_of_nil|].
  intros key. split; [by right|]. by intros [H%elem_of_nil|H].
Qed.

Lemma extends_cons (e : WatcherEvent) (key : string) (events : list WatcherEvent)
    (seen seen' : gset string) :
  attempts [e] = [key] -> key ∉ seen ->
  extends ({[key]} ∪ seen) events seen' -> extends seen (e :: events) seen'.
Proof.
  intros He Hnew (Hnd & Hfresh & Hseen).
  assert (attempts (e :: events) = key :: attempts events) as Hcons.
  { unfold attempts in *. rewrite fmap_cons. cbn in He. by injection He as ->. }
  unfold extends. rewrite Hcons. split; [|split].
  - apply NoDup_cons. split; [|done]. intros Hin. apply (Hfresh _ Hin).
    apply elem_of_union. left. by apply elem_of_singleton.
  - intros k [->|Hin]%elem_of_cons; [done|]. intros Hk. apply (Hfresh _ Hin).
    apply elem_of_union. by right.
  - intros k. rewrite Hseen, elem_of_cons, elem_of_union, elem_of_singleton. tauto.
Qed.

Lemma extends_app (seen seen1 seen2 : gset string) (ev1 ev2 : list WatcherEvent) :
  extends seen ev1 seen1 -> extends seen1 ev2 seen2 -> extends seen (ev1 ++ ev2) seen2.
Proof.
  intros (Hnd1 & Hfresh1 & Hseen1) (Hnd2 & Hfresh2 & Hseen2).
  unfold extends, attempts. rewrite fmap_app. fold (attempts ev1) (attempts ev2).
  split; [|split].
  - apply NoDup_app. split; [done|]. split; [|done].
    intros k H1 H2. apply (Hfresh2 _ H2). apply Hseen1. by left.
  - intros k [H|H]%elem_of_app; [by apply Hfresh1|].
    intros Hk. apply (Hfresh2 _ H). apply Hseen1. by right.
  - intros k. rewrite Hseen2, Hseen1, elem_of_app. tauto.
Qed.

Lemma route_extends (matches : list (bool * string)) (seen : gset string)
    (dir : gmap string string) :
  extends seen (route writable matches seen dir).1.1 (route writable matches seen dir).1.2.
Proof.
  revert seen dir. induction matches as [|[approve requestId] rest IH]; intros seen dir.
  - apply extends_nil.
  - cbn [route]. destruct (bool_decide_reflect (keyOf approve requestId ∈ seen)) as [_|Hnew];
      [apply IH|].
    destruct (writable (requestId +:+ ".json")).
    + pose proof (IH ({[keyOf approve requestId]} ∪ seen)
                     (<[requestId +:+ ".json" := stringifyApproved approve]> dir)) as H.
      destruct (route writable rest _ _) as [[ev seen2] dir2].
      by apply (extends_cons _ (keyOf approve requestId)).
    + pose proof (IH ({[keyOf approve requestId]} ∪ seen) dir) as H.
      destruct (route writable rest _ _) as [[ev seen2] dir2].
      by apply (extends_cons _ (keyOf approve requestId)).
Qed.

Lemma scanFile_extends (files : gmap string string) (filePath : string) (w : Watcher)
    (dir : gmap string string) :
  extends (processed w) (scanFile writable files filePath w dir).1.1
    (processed (scanFile writable files filePath w dir).1.2).
Proof.
  unfold scanFile. destruct (files !! filePath) as [content|]; [|apply extends_nil].
  cbv zeta. destruct (_ =? _)%N; [apply extends_nil|].
  match goal with |- context [route writable ?m ?s ?d] =>
    pose proof (route_extends m s d) as H; destruct (route writable m s d) as [[ev seen] dir1]
  end.
  exact H.
Qed.

Lemma watch_extends (scans : list (gmap string string * string)) (w : Watcher)
    (dir : gmap string string) :
  extends (processed w) (watch writable scans w dir).1.1
    (processed (watch writable scans w dir).1.2).
Proof.
  revert w dir. induction scans as [|[files filePath] rest IH]; intros w dir.
  - apply extends_nil.
  - cbn [watch]. pose proof (scanFile_extends files filePath w dir) as H1.
    destruct (scanFile writable files filePath w dir) as [[ev w1] dir1].
    pose proof (IH w1 dir1) as H2.
    destruct (watch writable rest w1 dir1) as [[ev' w2] dir2].
    exact (extends_app _ _ _ _ _ H1 H2).
Qed.

(** X16. Over the whole life of the watcher, whatever the session files
    hold and however often they are scanned, writeFileSync is called at most
    once for a decision (an action and a request id), and never for a
    decision that was processed before. A decision whose write failed is
    therefore never written later. *)
Theorem each_decision_is_written_once (scans : list (gmap string string * string))
    (w : Watcher) (dir : gmap string string) :
  let events := (watch writable scans w dir).1.1 in
  NoDup (attempts events)
  /\ (forall key, key ∈ attempts events -> key ∉ processed w)
  /\ (forall approve requestId,
        WriteFailed approve requestId ∈ events -> Routed approve requestId ∉ events).
Proof.
  destruct (watch_extends scans w dir) as (Hnd & Hfresh & _).
  split; [done|]. split; [done|].
  intros approve requestId Hfailed Hrouted.
  by pose proof (NoDup_fmap_eq _ _ _ _ Hnd Hfailed Hrouted eq_refl).
Qed.
End WatcherProperties.

(** ** From the watcher to the daemon *)

Section WatcherToDaemon.
Context {runtime : Runtime}.
Variable writable : string -> bool.

Lemma route_writes (matches : list (bool * string)) (seen : gset string)
    (dir : gmap string string) :
  writes_decisions dir (route writable matches seen dir).1.1
    (route writable matches seen dir).2.
Proof.
  revert seen dir. induction matches as [|[approve requestId] rest IH]; intros seen dir.
  - intros name content H. by left.
  - cbn [route]. destruct (bool_decide (keyOf approve requestId ∈ seen)); [apply IH|].
    destruct (writable (requestId +:+ ".json")).
    + pose proof (IH ({[keyOf approve requestId]} ∪ seen)
                     (<[requestId +:+ ".json" := stringifyApproved approve]> dir)) as H.
      destruct (route writable rest _ _) as [[ev seen2] dir2]. cbn [fst snd] in *.
      intros name content Hfile. destruct (H name content Hfile) as [Hold|Hnew].
      * destruct (decide (name = requestId +:+ ".json")) as [->|Hne].
        -- rewrite lookup_insert_eq in Hold. injection Hold as <-.
           right. exists approve, requestId. split; [done|]. split; [done|]. by left.
        -- rewrite lookup_insert_ne in Hold by done. by left.
      * destruct Hnew as (b & id & -> & -> & Hin). right. exists b, id.
        split; [done|]. split; [done|]. by right.
    + pose proof (IH ({[keyOf approve requestId]} ∪ seen) dir) as H.
      destruct (route writable rest _ _) as [[ev seen2] dir2]. cbn [fst snd] in *.
      intros name content Hfile. destruct (H name content Hfile) as [Hold|Hnew]; [by left|].
      destruct Hnew as (b & id & -> & -> & Hin). right. exists b, id.
      split; [done|]. split; [done|]. by right.
Qed.

Lemma scanFile_writes (files : gmap string string) (filePath : string) (w : Watcher)
    (dir : gmap string string) :
  writes_decisions dir (scanFile writable files filePath w dir).1.1
    (scanFile writable files filePath w dir).2.
Proof.
  unfold scanFile. destruct (files !! filePath) as [content|]; [|by left].
  cbv zeta. destruct (_ =? _)%N; [by left|].
  match goal with |- context [route writable ?m ?s ?d] =>
    pose proof (route_writes m s d) as H; destruct (route writable m s d) as [[ev seen] dir1]
  end.
  exact H.
Qed.

Lemma watch_writes (scans : list (gmap string string * string)) (w : Watcher)
    (dir : gmap string string) :
  writes_decisions dir (watch writable scans w dir).1.1 (watch writable scans w dir).2.
Proof.
  revert w dir. induction scans as [|[files filePath] rest IH]; intros w dir.
  - by left.
  - cbn [watch]. pose proof (scanFile_writes files filePath w dir) as H1.
    destruct (scanFile writable files filePath w dir) as [[ev w1] dir1].
    pose proof (IH w1 dir1) as H2.
    destruct (watch writable rest w1 dir1) as [[ev' w2] dir2]. cbn [fst snd] in *.
    intros name content Hfile. destruct (H2 name content Hfile) as [Hold|Hnew].
    + destruct (H1 name content Hold) as [Hold'|Hnew]; [by left|].
      destruct Hnew as (b & id & -> & -> & Hin). right. exists b, id.
      split; [done|]. split; [done|]. apply elem_of_app. by left.
    + destruct Hnew as (b & id & -> & -> & Hin). right. exists b, id.
      split; [done|]. split; [done|]. apply elem_of_app. by right.
Qed.

(** X17. The file that the watcher leaves for a pending request is
    understood by the daemon. If the pending directory had no file for the
    request and has one after a run of the watcher, then the watcher has
    routed a decision for that request, the file holds that decision, and
    the next poll of the daemon for the request resolves it with exactly that
    decision and removes the file and the registry entry. JSON.parse is
    assumed to read back what JSON.stringify wrote. *)
Theorem watcher_file_resolves_the_request (scans : list (gmap string string * string))
    (w : Watcher) (st : State) (handle : nat) (id : string) (pending : Pending) :
  let ran := watch writable scans w (pendingDir st) in
  (forall approved,
      JSON_parse (stringifyApproved approved) = Some (JObject [("approved", JBool approved)])) ->
  timers st !! handle = Some (PollTask id) ->
  pendingRequests st !! id = Some pending ->
  pendingDir st !! (id +:+ ".json") = None ->
  is_Some (ran.2 !! (id +:+ ".json")) ->
  exists approve,
    Routed approve id ∈ ran.1.1
    /\ ran.2 !! (id +:+ ".json") = Some (stringifyApproved approve)
    /\ let polled := onPoll handle (with_pendingDir ran.2 st) in
       resolver_calls polled.1 = [(resolve pending, approve)]
       /\ pendingRequests polled.2 !! id = None
       /\ pendingDir polled.2 !! (id +:+ ".json") = None
       /\ (promises st !! resolve pending = None ->
           promises polled.2 !! resolve pending = Some (Fulfilled approve)).
Proof.
  intros ran Hjson Htimer Hpending Hempty [content Hfile].
  destruct (watch_writes scans w (pendingDir st) _ _ Hfile) as [Hold|Hnew];
    [by rewrite Hempty in Hold|].
  destruct Hnew as (approve & id' & Hname & -> & Hin).
  apply append_inj_l in Hname as <-.
  exists approve. split; [done|]. split; [done|].
  unfold onPoll. cbn [timers with_pendingDir pendingDir]. rewrite Htimer. fold ran.
  rewrite Hfile, Hjson. cbn [Js.get Js.assoc String.eqb Ascii.eqb Bool.eqb default].
  set (st1 := with_timers _ _).
  assert (pendingRequests st1 !! id = Some pending) as Hst1 by exact Hpending.
  rewrite (resolveApproval_pending _ _ _ _ Hst1). cbn [fst snd].
  split; [done|]. rewrite settle_pendingRequests, settle_pendingDir.
  cbn [with_pendingDir with_pendingRequests with_timers pendingRequests pendingDir].
  split; [apply lookup_delete_eq|]. split; [apply lookup_delete_eq|].
  intros Hunsettled. apply settle_unsettled. exact Hunsettled.
Qed.
End WatcherToDaemon.

(** ** The scanner of the watcher *)

Lemma chars_app (s t : string) :
  list_ascii_of_string (s +:+ t) = list_ascii_of_string s ++ list_ascii_of_string t.
Proof.
  induction s as [|a s IH]; [done|]. rewrite append_cons. cbn. by rewrite IH.
Qed.

Lemma chars_inj (s t : string) : list_ascii_of_string s = list_ascii_of_string t -> s = t.
Proof.
  intros H. rewrite <- (string_of_list_ascii_of_string s), H.
  apply string_of_list_ascii_of_string.
Qed.

Lemma chars_length (s : string) : length (list_ascii_of_string s) = String.length s.
Proof. induction s as [|a s IH]; [done|]. cbn. by rewrite IH. Qed.

Lemma append_assoc (s t u : string) : (s +:+ t) +:+ u = s +:+ t +:+ u.
Proof. apply chars_inj. rewrite !chars_app. by rewrite <- app_assoc. Qed.

Lemma endsWith_last (s : string) (c : ascii) :
  Js.endsWith s c = true <-> last (list_ascii_of_string s) = Some c.
Proof.
  induction s as [|a s IH]; [done|]. destruct s as [|b s].
  - cbn. rewrite Ascii.eqb_eq. split; [by intros -> | by intros [= ->]].
  - change (Js.endsWith (String a (String b s)) c) with (Js.endsWith (String b s) c).
    rewrite IH. cbn [list_ascii_of_string]. by rewrite last_cons_cons.
Qed.

Lemma substring_prefix (n : nat) (s : string) :
  exists rest, s = String.substring 0 n s +:+ rest.
Proof.
  revert n. induction s as [|a s IH]; intros n.
  - exists EmptyString. by destruct n.
  - destruct n as [|n]; [by exists (String a s)|].
    destruct (IH n) as [rest H]. exists rest. cbn [String.substring].
    rewrite append_cons. by rewrite <- H.
Qed.

Lemma substring_append (s rest : string) :
  String.substring 0 (String.length s) (s +:+ rest) = s.
Proof.
  induction s as [|a s IH]; [by destruct rest|].
  rewrite append_cons. cbn. by rewrite IH.
Qed.

Lemma takeId_inv (s id : string) :
  takeId s = Some id ->
  (exists rest, s = id +:+ rest) /\ String.length id = 16%nat
  /\ forallb isLowerHex (list_ascii_of_string id) = true.
Proof.
  unfold takeId. cbv zeta. destruct (Nat.eqb_spec (String.length (String.substring 0 16 s)) 16) as [Hlen|];
    [|done].
  destruct (forallb isLowerHex _) eqn:Hhex; [|done]. cbn [andb]. intros [= <-].
  split; [apply substring_prefix|]. by split.
Qed.

Lemma takeId_intro (id rest : string) :
  String.length id = 16%nat -> forallb isLowerHex (list_ascii_of_string id) = true ->
  takeId (id +:+ rest) = Some id.
Proof.
  intros Hlen Hhex. unfold takeId. cbv zeta.
  assert (String.substring 0 16 (id +:+ rest) = id) as ->
    by (rewrite <- Hlen; apply substring_append).
  by rewrite Hlen, Hhex.
Qed.

Lemma matchHere_inv (s id : string) (approve : bool) :
  matchHere s = Some (approve, id) ->
  (exists rest, s = callbackData approve id +:+ rest) /\ String.length id = 16%nat
  /\ forallb isLowerHex (list_ascii_of_string id) = true.
Proof.
  unfold matchHere. destruct (stripPrefix "ag:" s) as [rest|] eqn:Hag; [|done].
  apply stripPrefix_inv in Hag as ->.
  destruct (matchAction rest) as [[b rest']|] eqn:Hact; [|done].
  apply matchAction_iff in Hact as ->.
  destruct (takeId rest') as [id'|] eqn:Hid; [|done]. intros [= <- <-].
  destruct (takeId_inv _ _ Hid) as ([r ->] & Hlen & Hhex).
  split; [|by split]. exists r. unfold callbackData. by rewrite !append_assoc.
Qed.

Lemma matchHere_intro (id rest : string) (approve : bool) :
  String.length id = 16%nat -> forallb isLowerHex (list_ascii_of_string id) = true ->
  matchHere (callbackData approve id +:+ rest) = Some (approve, id).
Proof.
  intros Hlen Hhex. unfold matchHere, callbackData. rewrite !append_assoc.
  rewrite stripPrefix_app.
  rewrite (proj2 (matchAction_iff _ (id +:+ rest) approve) eq_refl).
  by rewrite takeId_intro.
Qed.

Lemma isLowerHex_g : isLowerHex "g" = false.
Proof. reflexivity. Qed.

Lemma chars_callbackData (approve : bool) (id : string) :
  list_ascii_of_string (callbackData approve id) = headOf approve ++ list_ascii_of_string id.
Proof. unfold callbackData, headOf. rewrite !chars_app. by destruct approve. Qed.

Lemma head_no_inner_press (approve : bool) (before after : list ascii) :
  before <> [] -> headOf approve <> before ++ "a"%char :: "g"%char :: after.
Proof.
  intros Hne H. destruct before as [|c before]; [done|]. clear Hne.
  destruct approve; cbn in H; injection H as _ H;
    repeat (destruct before as [|? before]; [discriminate H|]; injection H as _ H);
    by destruct before.
Qed.

Lemma hex_has_no_g (l : list ascii) (before after : list ascii) :
  forallb isLowerHex l = true -> l <> before ++ "g"%char :: after.
Proof.
  intros Hhex ->. rewrite forallb_app in Hhex. cbn in Hhex.
  by rewrite andb_false_r in Hhex.
Qed.

(** A match that starts before a press, behind a character that is no hex
    digit, ends before the press. *)
Lemma match_ends_before_press (pre rest : list ascii) (approve approve' : bool)
    (id id' after : list ascii) :
  pre ++ (headOf approve ++ id) ++ after = (headOf approve' ++ id') ++ rest ->
  length id' = 16%nat -> forallb isLowerHex id' = true ->
  (forall c, last pre = Some c -> isLowerHex c = false) ->
  pre <> [] ->
  (length (headOf approve' ++ id') <= length pre)%nat.
Proof.
  intros Heq Hlen Hhex Hlast Hne.
  apply app_eq_app in Heq as [l [[-> _]|[Hfound Hpress]]];
    [rewrite (length_app (headOf approve' ++ id')); lia|].
  destruct l as [|c0 l]; [rewrite app_nil_r in Hfound; rewrite Hfound; lia|]. exfalso.
  assert (c0 = "a"%char) as -> by (destruct approve; by injection Hpress).
  symmetry in Hfound. apply app_eq_app in Hfound as [j [[Hpre Hid]|[Hhead Hl]]].
  - (* the press starts inside the id of the match *)
    destruct (last j) as [c|] eqn:Hj.
    + assert (isLowerHex c = false) as Hc.
      { apply Hlast. rewrite Hpre, last_app, Hj. done. }
      apply last_Some in Hj as [j' ->]. rewrite Hid, !forallb_app in Hhex. cbn in Hhex.
      rewrite Hc in Hhex. by rewrite andb_false_r in Hhex.
    + apply last_None in Hj as ->. cbn in Hid.
      destruct l as [|c1 l]; [rewrite Hid in Hlen; cbn in Hlen; lia|].
      assert (c1 = "g"%char) as -> by (destruct approve; by injection Hpress).
      by apply (hex_has_no_g id' ["a"%char] l).
  - (* the press starts inside the head of the match *)
    destruct j as [|a0 j].
    + cbn in Hl. destruct l as [|c1 l]; [rewrite <- Hl in Hlen; cbn in Hlen; lia|].
      assert (c1 = "g"%char) as -> by (destruct approve; by injection Hpress).
      by apply (hex_has_no_g id' ["a"%char] l).
    + injection Hl as <- Hl. destruct j as [|a1 j].
      * cbn in Hl. destruct l as [|c1 l]; [rewrite <- Hl in Hlen; cbn in Hlen; lia|].
        assert (c1 = "g"%char) as -> by (destruct approve; by injection Hpress).
        by apply (hex_has_no_g id' [] l).
      * destruct l as [|c1 l]; [discriminate Hl|]. injection Hl as <- Hl.
        assert (c1 = "g"%char) as -> by (destruct approve; by injection Hpress).
        by apply (head_no_inner_press approve' pre j).
Qed.

Lemma endsWith_tail (a : ascii) (s : string) (P : ascii -> Prop) :
  (forall c, Js.endsWith (String a s) c = true -> P c) ->
  forall c, Js.endsWith s c = true -> P c.
Proof. intros H c Hc. apply H. by destruct s. Qed.

Lemma callbackData_cons (approve : bool) (id : string) :
  callbackData approve id = String "a" (String "g" (String ":" (actionOf approve +:+ ":" +:+ id))).
Proof. reflexivity. Qed.

Lemma execAll_finds (pre post id : string) (approve : bool) (skip : nat) :
  String.length id = 16%nat -> forallb isLowerHex (list_ascii_of_string id) = true ->
  (forall c, Js.endsWith pre c = true -> isLowerHex c = false) ->
  (skip <= String.length pre)%nat ->
  (approve, id) ∈ execAll skip (pre +:+ callbackData approve id +:+ post).
Proof.
  intros Hlen Hhex. revert skip. induction pre as [|a pre IH]; intros skip Hlast Hskip.
  - assert (skip = 0%nat) as -> by (cbn in Hskip; lia).
    change (EmptyString +:+ callbackData approve id +:+ post)
      with (callbackData approve id +:+ post).
    pose proof (matchHere_intro id post approve Hlen Hhex) as Hhere.
    rewrite callbackData_cons, append_cons in Hhere.
    rewrite callbackData_cons, append_cons. cbn [execAll]. rewrite Hhere. by left.
  - rewrite append_cons. cbn [String.length] in Hskip. destruct skip as [|skip].
    + cbn [execAll]. rewrite <- append_cons.
      destruct (matchHere _) as [[approve' id']|] eqn:Hhere.
      * apply elem_of_cons. right. apply IH; [by apply (endsWith_tail a)|].
        destruct (matchHere_inv _ _ _ Hhere) as ([rest Heq] & Hlen' & Hhex').
        apply (f_equal list_ascii_of_string) in Heq.
        rewrite !chars_app, !chars_callbackData in Heq.
        pose proof (match_ends_before_press _ _ _ _ _ _ _ Heq) as Hends.
        rewrite chars_length in Hends. specialize (Hends Hlen' Hhex').
        rewrite <- chars_callbackData, !chars_length in Hends. cbn [String.length] in Hends.
        assert (forall c, last (list_ascii_of_string (String a pre)) = Some c
                          -> isLowerHex c = false) as Hlast'.
        { intros c Hc. apply Hlast. by apply endsWith_last. }
        specialize (Hends Hlast'). assert (list_ascii_of_string (String a pre) <> []) as Hne
          by done.
        specialize (Hends Hne). lia.
      * apply IH; [by apply (endsWith_tail a) | lia].
    + cbn [execAll]. apply IH; [by apply (endsWith_tail a) | lia].
Qed.

Lemma keyOf_inj (approve approve' : bool) (id id' : string) :
  keyOf approve id = keyOf approve' id' -> approve = approve' /\ id = id'.
Proof.
  unfold keyOf. destruct approve, approve'; cbn; intros H; try discriminate H.
  - split; [done|]. by apply (String.app_inj "approve:").
  - split; [done|]. by apply (String.app_inj "deny:").
Qed.

Lemma substring_none (n : nat) (s : string) : String.substring n 0 s = EmptyString.
Proof. revert n. induction s as [|a s IH]; intros [|n]; cbn; by rewrite ?IH. Qed.

Section Routing.
Variable writable : string -> bool.

Lemma route_keeps_files (matches : list (bool * string)) (seen : gset string)
    (dir : gmap string string) (id : string) (approved : bool) :
  dir !! (id +:+ ".json") = Some (stringifyApproved approved) ->
  exists approved',
    (route writable matches seen dir).2 !! (id +:+ ".json")
    = Some (stringifyApproved approved').
Proof.
  revert seen dir approved. induction matches as [|[b requestId] rest IH];
    intros seen dir approved Hfile; [by exists approved|].
  cbn [route]. destruct (bool_decide (keyOf b requestId ∈ seen)); [by apply (IH _ _ approved)|].
  destruct (writable (requestId +:+ ".json")).
  - destruct (decide (id +:+ ".json" = requestId +:+ ".json")) as [Heq|Hne].
    + specialize (IH ({[keyOf b requestId]} ∪ seen)
                     (<[requestId +:+ ".json" := stringifyApproved b]> dir) b).
      rewrite <- Heq, lookup_insert_eq in IH. specialize (IH eq_refl).
      rewrite <- Heq. by destruct (route writable rest _ _) as [[ev seen2] dir2].
    + specialize (IH ({[keyOf b requestId]} ∪ seen)
                     (<[requestId +:+ ".json" := stringifyApproved b]> dir) approved).
      rewrite lookup_insert_ne in IH by done. specialize (IH Hfile).
      by destruct (route writable rest _ _) as [[ev seen2] dir2].
  - specialize (IH ({[keyOf b requestId]} ∪ seen) dir approved Hfile).
    by destruct (route writable rest _ _) as [[ev seen2] dir2].
Qed.

Lemma route_routes (matches : list (bool * string)) (seen : gset string)
    (dir : gmap string string) :
  routes writable matches (route writable matches seen dir).1.1 (route writable matches seen dir).1.2
    (route writable matches seen dir).2.
Proof.
  revert seen dir. induction matches as [|[b requestId] rest IH]; intros seen dir.
  - split; [by intros ?? H%elem_of_nil|]. split; by intros ?? H%elem_of_nil.
  - pose proof (route_extends writable rest) as Hext.
    cbn [route]. destruct (bool_decide_reflect (keyOf b requestId ∈ seen)) as [Hseen|Hnew].
    + destruct (IH seen dir) as (Hcover & Hrouted & Hfailed).
      split; [|by split]. intros approve id [[= -> ->]|Hin]%elem_of_cons; [|by apply Hcover].
      apply (Hext seen dir). by right.
    + destruct (writable (requestId +:+ ".json")) eqn:Hw.
      * pose proof (route_keeps_files rest ({[keyOf b requestId]} ∪ seen)
                      (<[requestId +:+ ".json" := stringifyApproved b]> dir)
                      requestId b (lookup_insert_eq _ _ _)) as Hkept.
        specialize (Hext ({[keyOf b requestId]} ∪ seen)
                      (<[requestId +:+ ".json" := stringifyApproved b]> dir)).
        specialize (IH ({[keyOf b requestId]} ∪ seen)
                      (<[requestId +:+ ".json" := stringifyApproved b]> dir)).
        destruct (route writable rest _ _) as [[ev seen2] dir2]. cbn [fst snd] in *.
        destruct IH as (Hcover & Hrouted & Hfailed). split; [|split].
        -- intros approve id [[= -> ->]|Hin]%elem_of_cons; [|by apply Hcover].
           apply Hext. right. apply elem_of_union. left. by apply elem_of_singleton.
        -- intros approve id [[= -> ->]|Hin]%elem_of_cons; [by split | by apply (Hrouted approve)].
        -- intros approve id [H|Hin]%elem_of_cons; [discriminate H | by apply (Hfailed approve)].
      * specialize (Hext ({[keyOf b requestId]} ∪ seen) dir).
        specialize (IH ({[keyOf b requestId]} ∪ seen) dir).
        destruct (route writable rest _ _) as [[ev seen2] dir2]. cbn [fst snd] in *.
        destruct IH as (Hcover & Hrouted & Hfailed). split; [|split].
        -- intros approve id [[= -> ->]|Hin]%elem_of_cons; [|by apply Hcover].
           apply Hext. right. apply elem_of_union. left. by apply elem_of_singleton.
        -- intros approve id [H|Hin]%elem_of_cons; [discriminate H | by apply (Hrouted approve)].
        -- intros approve id [[= -> ->]|Hin]%elem_of_cons; [done | by apply (Hfailed approve)].
Qed.

(** X18. A button press that stands in the chunk that scanFile reads is
    routed. The press is the callback data of a decision for an id of
    sixteen hex digits; it stands at the start of the chunk or behind a
    character that is no hex digit; the decision was not processed before.
    Then the decision is processed after the scan, and writeFileSync was
    called for it: if it succeeded, the pending directory holds a decision
    file for the id, and if it failed the failure is all that happened. *)
Theorem press_in_window_is_routed (files : gmap string string) (filePath content : string)
    (w : Watcher) (dir : gmap string string) (pre post id : string) (approve : bool) :
  files !! filePath = Some content ->
  windowOf w filePath content = pre +:+ callbackData approve id +:+ post ->
  String.length id = 16%nat -> forallb isLowerHex (list_ascii_of_string id) = true ->
  (forall c, Js.endsWith pre c = true -> isLowerHex c = false) ->
  keyOf approve id ∉ processed w ->
  let scanned := scanFile writable files filePath w dir in
  keyOf approve id ∈ processed scanned.1.2
  /\ if writable (id +:+ ".json")
     then Routed approve id ∈ scanned.1.1
          /\ exists approved,
               scanned.2 !! (id +:+ ".json") = Some (stringifyApproved approved)
     else WriteFailed approve id ∈ scanned.1.1.
Proof.
  intros Hfile Hwindow Hlen Hhex Hbefore Hnew scanned. subst scanned.
  unfold scanFile. rewrite Hfile. cbv zeta.
  destruct (N.eqb_spec (N.of_nat (String.length content)) (startOf w filePath content))
    as [Hend|_].
  { exfalso. unfold windowOf in Hwindow. rewrite Hend, N.sub_diag in Hwindow.
    cbn in Hwindow. rewrite substring_none in Hwindow.
    destruct pre; discriminate Hwindow. }
  rewrite Hwindow.
  pose proof (execAll_finds pre post id approve 0 Hlen Hhex Hbefore ltac:(lia)) as Hfound.
  pose proof (route_routes (execAll 0 (pre +:+ callbackData approve id +:+ post))
                (processed w) dir) as (Hcover & Hrouted & Hfailed).
  pose proof (route_extends writable (execAll 0 (pre +:+ callbackData approve id +:+ post))
                (processed w) dir) as (_ & _ & Hseen).
  destruct (route writable _ _ _) as [[ev seen] dir1]. cbn [fst snd processed] in *.
  specialize (Hcover _ _ Hfound). split; [done|].
  apply Hseen in Hcover as [Hattempt|Hold]; [|done].
  apply list_elem_of_fmap in Hattempt as (e & Hkey & He).
  destruct e as [b i|b i]; apply keyOf_inj in Hkey as [<- <-].
  - destruct (Hrouted _ _ He) as [-> Hkept]. by split.
  - by rewrite (Hfailed _ _ He).
Qed.
End Routing.

(** ** The references of the provider *)

Lemma append_nil (s : string) : EmptyString +:+ s = s.
Proof. reflexivity. Qed.

Lemma untilSlash_iff (s before after : string) :
  Sample.untilSlash s = Some (before, after)
  <-> s = before +:+ "/" +:+ after /\ slashFree before = true.
Proof.
  revert before. induction s as [|a s IH]; intros before.
  - split; [done|]. intros [H _]. by destruct before.
  - cbn [Sample.untilSlash]. destruct (Ascii.eqb_spec a "/") as [->|Hne].
    + split.
      * intros [= Hb Ha]. by subst.
      * intros [H Hfree]. destruct before as [|b before];
          [rewrite append_nil, append_cons, append_nil in H; by injection H as <-|].
        rewrite append_cons in H. injection H as <- H. cbn in Hfree. done.
    + destruct (Sample.untilSlash s) as [[before' after']|] eqn:Hrest.
      * split.
        -- intros [= <- <-]. destruct (proj1 (IH before') eq_refl) as [-> Hfree].
           rewrite append_cons. split; [done|]. cbn [slashFree].
           by rewrite (proj2 (Ascii.eqb_neq _ _) Hne).
        -- intros [H Hfree]. destruct before as [|b before];
             [rewrite append_nil, append_cons in H; injection H as -> _; done|].
           rewrite append_cons in H. injection H as <- H. cbn [slashFree] in Hfree.
           apply andb_true_iff in Hfree as [_ Hfree].
           pose proof (proj2 (IH before) (conj H Hfree)) as Heq.
           by injection Heq as -> ->.
      * split; [done|]. intros [H Hfree]. destruct before as [|b before];
          [rewrite append_nil, append_cons in H; injection H as -> _; done|].
        rewrite append_cons in H. injection H as <- H. cbn [slashFree] in Hfree.
        apply andb_true_iff in Hfree as [_ Hfree].
        by pose proof (proj2 (IH before) (conj H Hfree)) as Heq.
Qed.

Lemma substring_all (s : string) : String.substring 0 (String.length s) s = s.
Proof. induction s as [|a s IH]; [done|]. cbn. by rewrite IH. Qed.

Lemma substring_behind (p rest : string) :
  String.substring (String.length p) (String.length (p +:+ rest) - String.length p)
    (p +:+ rest) = rest.
Proof.
  induction p as [|a p IH].
  - change (EmptyString +:+ rest) with rest. cbn [String.length].
    rewrite Nat.sub_0_r. apply substring_all.
  - rewrite append_cons. exact IH.
Qed.

(** X19. The references that parseUri of the 1Password provider accepts
    are exactly the texts op://vault/item/field in which vault and item are
    not empty and hold no slash, and field is not empty and holds no line
    break; the three parts are returned as they stand. The field may hold
    any other character, slashes and quotes included. *)
Theorem accepted_references (s : string) (parsed : ParsedUri) :
  Sample.matchOp s = Some parsed
  <-> s = "op://" +:+ vault parsed +:+ "/" +:+ item parsed +:+ "/" +:+ field parsed
      /\ vault parsed <> EmptyString /\ slashFree (vault parsed) = true
      /\ item parsed <> EmptyString /\ slashFree (item parsed) = true
      /\ field parsed <> EmptyString /\ Sample.singleLine (field parsed) = true.
Proof.
  unfold Sample.matchOp. split.
  - destruct (String.prefix "op://" s) eqn:Hprefix; [|done]. cbn [negb].
    apply prefix_iff in Hprefix as [rest ->].
    change 5%nat with (String.length "op://"). rewrite substring_behind.
    destruct (Sample.untilSlash rest) as [[v rest']|] eqn:Hv; [|done].
    apply untilSlash_iff in Hv as [-> Hv].
    destruct (Sample.untilSlash rest') as [[i f]|] eqn:Hi; [|done].
    apply untilSlash_iff in Hi as [-> Hi].
    destruct (String.eqb_spec v EmptyString) as [|Hvne]; [done|].
    destruct (String.eqb_spec i EmptyString) as [|Hine]; [done|].
    destruct (String.eqb_spec f EmptyString) as [|Hfne]; [done|].
    destruct (Sample.singleLine f) eqn:Hline; [|done]. cbn [orb negb].
    intros [= <-]. by cbn [vault item field].
  - destruct parsed as [v i f]. cbn [vault item field].
    intros (-> & Hvne & Hv & Hine & Hi & Hfne & Hline).
    rewrite (proj2 (prefix_iff "op://" _) (ex_intro _ _ eq_refl)). cbn [negb].
    change 5%nat with (String.length "op://"). rewrite substring_behind.
    rewrite (proj2 (untilSlash_iff _ v (i +:+ "/" +:+ f)) (conj eq_refl Hv)).
    rewrite (proj2 (untilSlash_iff _ i f) (conj eq_refl Hi)).
    destruct (String.eqb_spec v EmptyString) as [|_]; [done|].
    destruct (String.eqb_spec i EmptyString) as [|_]; [done|].
    destruct (String.eqb_spec f EmptyString) as [|_]; [done|].
    by rewrite Hline.
Qed.

(** ** The framing of a connection *)

Lemma index_cutLine (s : string) :
  match String.index 0 (String Js.newline EmptyString) s with
  | Some idx =>
      Some (String.substring 0 idx s,
            String.substring (S idx) (String.length s - S idx) s)
  | None => None
  end = cutLine s.
Proof.
  induction s as [|a s IH]; [done|].
  cbn [String.index cutLine String.prefix].
  destruct (ascii_dec Js.newline a) as [<-|Hne].
  - rewrite Ascii.eqb_refl.
    assert (String.prefix EmptyString s = true) as -> by by destruct s.
    cbn [String.substring String.length Nat.sub].
    by rewrite Nat.sub_0_r, substring_all.
  - rewrite (proj2 (Ascii.eqb_neq a Js.newline)) by congruence.
    rewrite <- IH. destruct (String.index 0 _ s) as [idx|]; [|done].
    reflexivity.
Qed.

Section Framing.
Context {runtime : Runtime}.

Lemma drain_step (rounds : nat) (c : Connection) :
  drain (S rounds) c
  = match cutLine (buf c) with
    | Some (line, rest) => drain rounds (onLine line rest c)
    | None => c
    end.
Proof.
  cbn [drain]. rewrite <- index_cutLine.
  by destruct (String.index 0 _ (buf c)).
Qed.

Lemma cutLine_length (s line rest : string) :
  cutLine s = Some (line, rest) -> (String.length rest < String.length s)%nat.
Proof.
  revert line. induction s as [|a s IH]; intros line; [done|]. cbn [cutLine].
  destruct (Ascii.eqb a Js.newline); [intros [= <- <-]; cbn; lia|].
  destruct (cutLine s) as [[l r]|]; [|done]. intros [= <- <-].
  specialize (IH l eq_refl). cbn. lia.
Qed.

Lemma cutLine_app (s text : string) :
  cutLine (s +:+ text)
  = match cutLine s with
    | Some (line, rest) => Some (line, rest +:+ text)
    | None =>
        match cutLine text with
        | Some (line, rest) => Some (s +:+ line, rest)
        | None => None
        end
    end.
Proof.
  induction s as [|a s IH]; [rewrite append_nil; by destruct (cutLine text) as [[??]|]|].
  rewrite append_cons. cbn [cutLine]. destruct (Ascii.eqb a Js.newline); [done|].
  rewrite IH. destruct (cutLine s) as [[l r]|]; [done|].
  by destruct (cutLine text) as [[l r]|].
Qed.

Lemma buf_onLine (line rest : string) (c : Connection) : buf (onLine line rest c) = rest.
Proof. unfold onLine. destruct (Js.blank line); [done|]. by destruct (JSON_parse line). Qed.

Lemma onLine_feed (line rest text : string) (c : Connection) :
  onLine line (rest +:+ text) (feed text c) = feed text (onLine line rest c).
Proof.
  unfold onLine, feed. destruct (Js.blank line); [done|]. by destruct (JSON_parse line).
Qed.

(** More rounds than the buffer has characters change nothing. *)
Lemma drain_enough (rounds rounds' : nat) (c : Connection) :
  (String.length (buf c) <= rounds)%nat -> (String.length (buf c) <= rounds')%nat ->
  drain rounds c = drain rounds' c.
Proof.
  revert rounds' c. induction rounds as [|rounds IH]; intros rounds' c H H'.
  - destruct (buf c) eqn:Hbuf; [|cbn in H; lia].
    destruct rounds'; [done|]. rewrite drain_step, Hbuf. done.
  - rewrite drain_step. destruct (cutLine (buf c)) as [[line rest]|] eqn:Hcut.
    + apply cutLine_length in Hcut as Hlt. destruct rounds' as [|rounds']; [lia|].
      rewrite drain_step, Hcut. apply IH; rewrite buf_onLine; lia.
    + destruct rounds'; [done|]. by rewrite drain_step, Hcut.
Qed.

Lemma drain_feed (rounds rounds' rounds'' : nat) (text : string) (c : Connection) :
  (String.length (buf c) <= rounds)%nat ->
  (String.length (buf c +:+ text) <= rounds')%nat ->
  (String.length (buf (drain rounds c) +:+ text) <= rounds'')%nat ->
  drain rounds' (feed text c) = drain rounds'' (feed text (drain rounds c)).
Proof.
  revert rounds' rounds'' c. induction rounds as [|rounds IH]; intros rounds' rounds'' c H H' H''.
  - cbn [drain] in *. by apply drain_enough.
  - rewrite drain_step in H'' |- *.
    destruct (cutLine (buf c)) as [[line rest]|] eqn:Hcut; [|by apply drain_enough].
    apply cutLine_length in Hcut as Hlt. rewrite append_length in H'.
    destruct rounds' as [|rounds']; [lia|].
    rewrite drain_step. cbn [feed buf]. rewrite cutLine_app, Hcut.
    rewrite onLine_feed. apply IH.
    + rewrite buf_onLine. lia.
    + rewrite buf_onLine, append_length. lia.
    + done.
Qed.

(** Text that is appended and framed in two steps is framed as the whole. *)
Lemma drain_twice (first second : string) (c : Connection) :
  let c1 := drain (String.length (buf c +:+ first)) (feed first c) in
  drain (String.length (buf c1 +:+ second)) (feed second c1)
  = drain (String.length (buf c +:+ (first +:+ second))) (feed (first +:+ second) c).
Proof.
  cbv zeta.
  assert (feed (first +:+ second) c = feed second (feed first c)) as ->.
  { unfold feed. cbn. by rewrite append_assoc. }
  symmetry. apply drain_feed; cbn [feed buf]; by rewrite ?append_assoc.
Qed.

(** X20. The data listener decodes every chunk on its own. Where the cut
    between two chunks does not change the text, that is, where the two
    chunks decode to the two parts of what the chunk made of both decodes to
    (the cut does not fall inside a character of several bytes), the framing
    does not depend on the cut: the two chunks, arriving one after the other,
    leave the connection as the one chunk made of both does, with the same
    lines answered, the same calls handed to the handler under the same
    numbers, and the same rest in the buffer. *)
Theorem framing_ignores_chunking (first second : Buffer) (c : Connection) :
  Buffer_toString (first +:+ second) = Buffer_toString first +:+ Buffer_toString second ->
  onData second (onData first c) = onData (first +:+ second) c.
Proof.
  intros Hcut. unfold onData. rewrite Hcut.
  fold (feed (Buffer_toString first) c).
  fold (feed (Buffer_toString first +:+ Buffer_toString second) c).
  rewrite <- drain_twice. reflexivity.
Qed.

Lemma seq_snoc (n : nat) : seq 0 (S n) = seq 0 n ++ [n].
Proof. by rewrite seq_S. Qed.

Lemma onLine_taken (line rest : string) (c : Connection) :
  taken c ≡ₚ seq 0 (arrived c) ->
  taken (onLine line rest c) ≡ₚ seq 0 (arrived (onLine line rest c)).
Proof.
  intros H. unfold onLine. destruct (Js.blank line); [done|].
  destruct (JSON_parse line) as [request|]; unfold taken in *;
    cbn [written inflight arrived]; rewrite fmap_app, seq_snoc; cbn [fmap list_fmap fst].
  - by rewrite app_assoc, H.
  - rewrite <- app_assoc, (Permutation_app_comm [arrived c]), app_assoc. by rewrite H.
Qed.

Lemma drain_taken (rounds : nat) (c : Connection) :
  taken c ≡ₚ seq 0 (arrived c) ->
  taken (drain rounds c) ≡ₚ seq 0 (arrived (drain rounds c)).
Proof.
  revert c. induction rounds as [|rounds IH]; intros c H; [done|].
  rewrite drain_step. destruct (cutLine (buf c)) as [[line rest]|]; [|done].
  by apply IH, onLine_taken.
Qed.

Lemma filter_one (line : nat) (l : list (nat * JsValue)) :
  NoDup (fst <$> l) -> line ∈ fst <$> l ->
  fst <$> l ≡ₚ line :: (fst <$> List.filter (fun p => negb (Nat.eqb (fst p) line)) l).
Proof.
  induction l as [|[n v] l IH]; intros Hnd Hin; [by apply elem_of_nil in Hin|].
  rewrite fmap_cons in Hnd, Hin. cbn [fst] in *. apply NoDup_cons in Hnd as [Hnotin Hnd].
  cbn [List.filter fst]. destruct (Nat.eqb_spec n line) as [->|Hne]; cbn [negb].
  - assert (List.filter (fun p : nat * JsValue => negb (Nat.eqb (fst p) line)) l = l) as ->;
      [|by rewrite fmap_cons].
    clear IH Hin Hnd. induction l as [|[m w] l IH]; [done|].
    rewrite fmap_cons in Hnotin. cbn [fst] in Hnotin.
    apply not_elem_of_cons in Hnotin as [Hne Hnotin].
    cbn [List.filter fst]. rewrite (proj2 (Nat.eqb_neq m line)) by done. cbn [negb].
    f_equal. by apply IH.
  - apply elem_of_cons in Hin as [->|Hin]; [done|].
    rewrite !fmap_cons. cbn [fst]. rewrite (IH Hnd Hin). apply Permutation_swap.
Qed.

Lemma onSettled_taken (line : nat) (o : Outcome) (c : Connection) :
  taken c ≡ₚ seq 0 (arrived c) ->
  taken (onSettled line o c) ≡ₚ seq 0 (arrived (onSettled line o c)).
Proof.
  intros H. unfold onSettled. destruct (existsb _ (inflight c)) eqn:Hex; [|done].
  unfold taken in *. cbn [written inflight arrived]. rewrite <- H, fmap_app.
  cbn [fmap list_fmap fst]. rewrite <- app_assoc. f_equiv. cbn [app]. symmetry.
  apply filter_one.
  - assert (NoDup (seq 0 (arrived c))) as Hnd by apply NoDup_seq.
    rewrite <- H in Hnd. by apply NoDup_app in Hnd as (_ & _ & Hnd).
  - apply existsb_exists in Hex as ([n v] & Hin & Heq). apply Nat.eqb_eq in Heq.
    cbn in Heq. subst n. apply list_elem_of_fmap. exists (line, v). split; [done|].
    by apply list_elem_of_In.
Qed.

(** X21. Whatever chunks arrive on a connection and whatever promises
    settle, in whatever order: the lines that got a number are, each exactly
    once, either answered or still with the handler, and no line is answered
    twice. *)
Theorem every_line_is_answered_once (events : list ConnEvent) :
  taken (connRun events) ≡ₚ seq 0 (arrived (connRun events))
  /\ NoDup (fst <$> written (connRun events)).
Proof.
  assert (forall c, taken c ≡ₚ seq 0 (arrived c) ->
                    taken (fold_left connStep events c)
                    ≡ₚ seq 0 (arrived (fold_left connStep events c))) as Hrun.
  { induction events as [|e events IH]; intros c H; [done|]. cbn [fold_left]. apply IH.
    destruct e as [chunk|line o]; cbn [connStep];
      [by apply drain_taken | by apply onSettled_taken]. }
  specialize (Hrun newConnection ltac:(done)). split; [exact Hrun|].
  assert (NoDup (seq 0 (arrived (connRun events)))) as Hnd by apply NoDup_seq.
  unfold connRun in *. rewrite <- Hrun in Hnd. by apply NoDup_app in Hnd as (Hnd & _ & _).
Qed.
End Framing.

(** ** Shutdown, and the daemon as a whole *)

Lemma cleanup_pending (id : string) (pending : Pending) (st : State) :
  pendingRequests st !! id = Some pending ->
  cleanup (JString id) st
  = ([ClearTimeout (timer pending); ClearInterval (pollInterval pending);
      RegistryDelete id; UnlinkSync (id +:+ ".json")],
     with_pendingDir (delete (id +:+ ".json") (pendingDir st))
       (with_pendingRequests (delete id (pendingRequests st))
          (with_timers (delete (pollInterval pending)
                          (delete (timer pending) (timers st))) st))).
Proof. intros H. unfold cleanup. by rewrite H. Qed.

Lemma settle_keeps (p promise : nat) (s s' : Settlement) (st : State) :
  promises st !! promise = Some s' -> promises (settle p s st) !! promise = Some s'.
Proof.
  intros H. unfold settle. destruct (promises st !! p) eqn:Hp; [done|]. cbn.
  rewrite lookup_insert_ne; [done|]. intros ->. by rewrite H in Hp.
Qed.

Lemma settle_other (p promise : nat) (s : Settlement) (st : State) :
  promise <> p -> promises (settle p s st) !! promise = promises st !! promise.
Proof.
  intros H. unfold settle. destruct (promises st !! p); [done|]. cbn.
  by rewrite lookup_insert_ne.
Qed.

Lemma denials_delete (m : gmap string Pending) (id : string) (ids : list string) :
  id ∉ ids -> denials (delete id m) ids = denials m ids.
Proof.
  induction ids as [|id' ids IH]; intros Hnotin; [done|].
  apply not_elem_of_cons in Hnotin as [Hne Hnotin]. unfold denials in *.
  cbn [omap list_omap]. rewrite lookup_delete_ne by done. by rewrite IH.
Qed.

Lemma lookup_delete_None_mono {A} (m : gmap nat A) (i j : nat) :
  m !! i = None -> delete j m !! i = None.
Proof. intros H. apply lookup_delete_None. by right. Qed.

Lemma denyAll_denied (ids : list string) (st : State) :
  NoDup ids -> denied ids st (denyAll ids st).1 (denyAll ids st).2.
Proof.
  revert st. induction ids as [|id0 ids IH]; intros st Hnd.
  - cbn. unfold denied. split; [done|]. split; [done|]. split; [done|]. split; [done|].
    split; [done|]. split; [|done]. intros i p H. by apply elem_of_nil in H.
  - apply NoDup_cons in Hnd as [Hnotin Hnd]. cbn [denyAll].
    destruct (pendingRequests st !! id0) as [pending|] eqn:Hid.
    + rewrite (cleanup_pending _ _ _ Hid).
      set (st1 := settle _ _ _).
      specialize (IH st1 Hnd). destruct (denyAll ids st1) as [ev' st2]. cbn [fst snd] in *.
      destruct IH as (Hreg & Hcalls & (Haud & Hprov & Hprompt) & Htimers & Hfiles & Hgone
                      & Hkept & Hcache & Hnext).
      assert (pendingRequests st1 = delete id0 (pendingRequests st)) as Hreg1
        by (subst st1; by rewrite settle_pendingRequests).
      assert (timers st1 = delete (pollInterval pending) (delete (timer pending) (timers st)))
        as Htimers1 by (subst st1; by rewrite settle_timers).
      assert (pendingDir st1 = delete (id0 +:+ ".json") (pendingDir st)) as Hdir1
        by (subst st1; by rewrite settle_pendingDir).
      assert (forall promise, promises st1 !! promise
                = promises (settle (resolve pending) (Fulfilled false) st) !! promise)
        as Hpromises1.
      { intros promise. subst st1. unfold settle. cbn.
        by destruct (promises st !! resolve pending). }
      assert (timers st2 !! timer pending = None /\ timers st2 !! pollInterval pending = None
              /\ pendingDir st2 !! (id0 +:+ ".json") = None
              /\ (promises st !! resolve pending = None ->
                  promises st2 !! resolve pending = Some (Fulfilled false))) as Hmine.
      { split; [|split; [|split]]; [| | |intros Hnone; apply Hkept; rewrite Hpromises1;
                                         by apply settle_unsettled].
        - apply Htimers. rewrite Htimers1. apply lookup_delete_None.
          destruct (decide (pollInterval pending = timer pending)) as [Heq|Hne];
            [by left | right; apply lookup_delete_eq].
        - apply Htimers. rewrite Htimers1. apply lookup_delete_eq.
        - apply Hfiles. rewrite Hdir1. apply lookup_delete_eq. }
      unfold denied. split; [|split; [|split; [|split; [|split; [|split; [|split]]]]]].
      * intros i. rewrite Hreg, Hreg1. destruct (decide (i = id0)) as [->|Hne].
        -- rewrite (bool_decide_eq_true_2 (id0 ∈ id0 :: ids)) by (by left).
           case_bool_decide; [done | apply lookup_delete_eq].
        -- rewrite lookup_delete_ne by done.
           case_bool_decide as Hin; case_bool_decide as Hin'; try done.
           ++ exfalso. apply Hin'. by right.
           ++ exfalso. apply elem_of_cons in Hin' as [?|?]; done.
      * cbn [resolver_calls app]. rewrite Hcalls, Hreg1, denials_delete by done.
        unfold denials. cbn [omap list_omap]. by rewrite Hid.
      * cbn [audited provider_calls prompts app]. done.
      * intros handle H. apply Htimers. rewrite Htimers1.
        by apply lookup_delete_None_mono, lookup_delete_None_mono.
      * intros name H. apply Hfiles. rewrite Hdir1. apply lookup_delete_None. by right.
      * intros i p [->|Hin]%elem_of_cons Hp.
        -- rewrite Hid in Hp. by injection Hp as <-.
        -- assert (pendingRequests st1 !! i = Some p) as Hp1.
           { rewrite Hreg1, lookup_delete_ne; [done|]. intros ->. done. }
           destruct (Hgone i p Hin Hp1) as (Ht & Hi & Hf & Hs).
           split; [done|]. split; [done|]. split; [done|]. intros Hnone.
           destruct (decide (resolve p = resolve pending)) as [Heq|Hne].
           ++ rewrite Heq in *. apply Hkept. rewrite Hpromises1. by apply settle_unsettled.
           ++ apply Hs. rewrite Hpromises1, settle_other; done.
      * intros promise s Hs. apply Hkept. rewrite Hpromises1. by apply settle_keeps.
      * split; [|subst st1; rewrite Hnext; unfold settle; cbn;
                 by destruct (promises st !! resolve pending)].
        rewrite Hcache. subst st1. unfold settle. cbn.
        by destruct (promises st !! resolve pending).
    + specialize (IH st Hnd). destruct (denyAll ids st) as [ev' st2]. cbn [fst snd] in *.
      destruct IH as (Hreg & Hcalls & Hquiet & Htimers & Hfiles & Hgone & Hkept & Hsame).
      unfold denied. split; [|split; [|split; [|split; [|split; [|split; [|split]]]]]];
        try done.
      * intros i. rewrite Hreg. destruct (decide (i = id0)) as [->|Hne].
        -- rewrite (bool_decide_eq_true_2 (id0 ∈ id0 :: ids)) by (by left).
           by case_bool_decide.
        -- case_bool_decide as Hin; case_bool_decide as Hin'; try done.
           ++ exfalso. apply Hin'. by right.
           ++ exfalso. apply elem_of_cons in Hin' as [?|?]; done.
      * rewrite Hcalls. unfold denials. cbn [omap list_omap]. by rewrite Hid.
      * intros i p [->|Hin]%elem_of_cons Hp; [by rewrite Hid in Hp | by apply Hgone].
Qed.

Lemma denials_length (m : gmap string Pending) (ids : list string) :
  (forall id, id ∈ ids -> is_Some (m !! id)) -> length (denials m ids) = length ids.
Proof.
  induction ids as [|id0 ids IH]; intros Hall; [done|].
  unfold denials in *. cbn [omap list_omap].
  destruct (Hall id0 ltac:(by left)) as [p ->]. cbn. f_equal. apply IH.
  intros i Hin. apply Hall. by right.
Qed.

Lemma enumeration_length (m : gmap string Pending) (ids : list string) :
  NoDup ids -> (forall id, id ∈ ids <-> is_Some (m !! id)) -> length ids = size m.
Proof.
  intros Hnd Hall. rewrite <- length_map_to_list, <- (length_fmap fst).
  apply Permutation_length, NoDup_Permutation; [done | apply NoDup_fst_map_to_list|].
  intros id0. rewrite Hall, list_elem_of_fmap. split.
  - intros [p Hp]. exists (id0, p). split; [done|]. by apply elem_of_map_to_list.
  - intros ([i p] & -> & Hin). exists p. by apply elem_of_map_to_list.
Qed.

(** X22. shutdown leaves nothing pending. When the registry is visited in
    the order of its keys, it is empty afterwards; the resolver of every
    pending request is called once, with false, in that order, and a promise
    that was not settled is then fulfilled with false; the timeout, the
    interval and the file of every pending request are gone; the one audit
    entry is daemon_stop, and no secret is read and nobody is prompted. *)
Theorem shutdown_denies_every_pending_request (signal : string) (pid : Z)
    (order : list string) (st : State) :
  NoDup order ->
  (forall id, id ∈ order <-> is_Some (pendingRequests st !! id)) ->
  let stopped := shutdown signal pid order st in
  pendingRequests stopped.2 = ∅
  /\ resolver_calls stopped.1 = denials (pendingRequests st) order
  /\ length (resolver_calls stopped.1) = size (pendingRequests st)
  /\ audited stopped.1 = [JObject [("action", str "daemon_stop"); ("signal", str signal);
                                   ("pid", num pid)]]
  /\ provider_calls stopped.1 = [] /\ prompts stopped.1 = []
  /\ forall id pending,
       pendingRequests st !! id = Some pending ->
       timers stopped.2 !! timer pending = None
       /\ timers stopped.2 !! pollInterval pending = None
       /\ pendingDir stopped.2 !! (id +:+ ".json") = None
       /\ (promises st !! resolve pending = None ->
           promises stopped.2 !! resolve pending = Some (Fulfilled false)).
Proof.
  intros Hnd Horder stopped. subst stopped.
  pose proof (denyAll_denied order st Hnd) as H. unfold shutdown.
  destruct (denyAll order st) as [ev st1]. cbn [fst snd] in *.
  destruct H as (_ & Hcalls & (Haud & Hprov & Hprompt) & _ & _ & Hgone & _ & _).
  split; [done|]. cbn [resolver_calls audited provider_calls prompts].
  split; [done|]. split; [|split; [by rewrite Haud|split; [done|split; [done|]]]].
  - rewrite Hcalls, denials_length; [by apply enumeration_length|].
    intros id0 Hin. by apply Horder.
  - intros id0 pending Hp. apply (Hgone id0 pending); [|done]. apply Horder. by exists pending.
Qed.

Lemma denials_fresh (m : gmap string Pending) (next : nat) (called : list nat)
    (ids : list string) :
  registry_sound m next called -> NoDup ids ->
  NoDup (called ++ (fst <$> denials m ids)).
Proof.
  intros (Hfresh & Hinj & _ & Hnd) Hids. apply NoDup_app. split; [done|]. split.
  - intros c Hc Hin. apply list_elem_of_fmap in Hin as ([c' b] & -> & Hin).
    apply list_elem_of_omap in Hin as (id0 & _ & Hp).
    destruct (m !! id0) as [p|] eqn:Hid; [|done]. injection Hp as <- <-.
    by destruct (Hfresh _ _ Hid).
  - induction ids as [|id0 ids IH]; [constructor|].
    apply NoDup_cons in Hids as [Hnotin Hids]. unfold denials in *. cbn [omap list_omap].
    destruct (m !! id0) as [p|] eqn:Hid; [|by apply IH]. cbn. apply NoDup_cons.
    split; [|by apply IH]. intros Hin.
    apply list_elem_of_fmap in Hin as ([c' b] & Hc & Hin). cbn in Hc.
    apply list_elem_of_omap in Hin as (id1 & Hin1 & Hp).
    destruct (m !! id1) as [p1|] eqn:Hid1; [|done]. injection Hp as <- <-.
    apply Hnotin. by rewrite (Hinj _ _ _ _ Hid Hid1 Hc).
Qed.

Section WholeDaemon.
Context {runtime : Runtime} {provider : Provider}.
Variable config : Config.
Variable channels : list Channel.

Lemma settles_effect (st st' : State) (trace : list Event) (response : HttpResponse) :
  settles_or_nothing st (trace, response, st') -> Effect st trace st'.
Proof.
  intros [(-> & -> & _)|(_ & id0 & approved & _ & Hres)]; [by apply Untouched|].
  pose proof (resolveApproval_effect (JString id0) approved st) as H.
  by rewrite Hres in H.
Qed.

Lemma runDaemonJob_effect (st : State) (j : DaemonJob) :
  Effect st (runDaemonJob config channels st j).1 (runDaemonJob config channels st j).2.
Proof.
  destruct j as [j|method url text|name content]; cbn [runDaemonJob].
  - apply runJob_effect.
  - pose proof (requestListener_routes method url text st) as H.
    destruct (requestListener method url text st) as [[trace reply] st'].
    destruct H as [(-> & -> & _)|[(_ & _ & -> & -> & _)|(_ & _ & response & _ & H)]];
      [by apply Untouched|by apply Untouched|].
    by apply (settles_effect _ _ _ response).
  - by apply Untouched.
Qed.

Lemma runDaemon_sound (jobs : list DaemonJob) (st : State) (called : list nat) :
  registry_sound (pendingRequests st) (nextId st) called ->
  registry_sound (pendingRequests (runDaemon config channels st jobs).2)
    (nextId (runDaemon config channels st jobs).2)
    (called ++ (fst <$> resolver_calls (runDaemon config channels st jobs).1)).
Proof.
  revert st called. induction jobs as [|j jobs IH]; intros st called Hsound.
  - cbn. by rewrite app_nil_r.
  - cbn [runDaemon]. pose proof (runDaemonJob_effect st j) as Heffect.
    destruct (runDaemonJob config channels st j) as [trace st1]. cbn [fst snd] in Heffect.
    pose proof (registry_sound_effect _ _ _ _ Heffect Hsound) as Hsound1.
    destruct (exited trace); [exact Hsound1|].
    specialize (IH st1 _ Hsound1).
    destruct (runDaemon config channels st1 jobs) as [trace' st2]. cbn [fst snd] in *.
    by rewrite resolver_calls_app, fmap_app, app_assoc.
Qed.

(** X23. In every run of the daemon from its start (requests on the
    socket, reads that go on after their await, requests to the callback
    server on any route, timeouts, polls, files that appear in the pending
    directory) followed by a shutdown, no resolver of a promise is called
    twice. *)
Theorem no_resolver_is_called_twice (jobs : list DaemonJob) (signal : string) (pid : Z)
    (order : list string) :
  NoDup order ->
  let ran := runDaemon config channels initialState jobs in
  NoDup (fst <$> resolver_calls (ran.1 ++ (shutdown signal pid order ran.2).1)).
Proof.
  intros Hnd ran. pose proof (runDaemon_sound jobs initialState [] registry_sound_initial) as H.
  fold ran in H. cbn [app] in H.
  pose proof (denyAll_denied order ran.2 Hnd) as (_ & Hcalls & _).
  rewrite resolver_calls_app, fmap_app. unfold shutdown.
  destruct (denyAll order ran.2) as [ev st1]. cbn [fst snd resolver_calls] in *.
  rewrite Hcalls. by apply (denials_fresh _ _ _ _ H).
Qed.
End WholeDaemon.

(** ** The command line *)

(** What the loop over the arguments takes from them. *)
Lemma scanArgs_takes (n : nat) (args : list string) (uri reason uri' reason' : option string) :
  (length args <= n)%nat ->
  scanArgs args uri reason = inr (uri', reason') ->
  (uri' = uri \/ exists u, uri' = Some u /\ u ∈ args)
  /\ (reason' = reason
      \/ exists r, reason' = Some r
                   /\ (r ∈ args \/ ("--reason=" +:+ r) ∈ args)).
Proof.
  revert args uri reason. induction n as [|n IH]; intros args uri reason Hlen Hscan.
  - destruct args; [|cbn in Hlen; lia]. injection Hscan as <- <-. by split; left.
  - destruct args as [|arg rest]; [injection Hscan as <- <-; by split; left|].
    cbn [length] in Hlen. cbn [scanArgs] in Hscan.
    assert (forall u, (uri' = u \/ exists x, uri' = Some x /\ x ∈ rest) ->
                      uri' = u \/ exists x, uri' = Some x /\ x ∈ arg :: rest) as Huri.
    { intros u [Hu|(x & Hx & Hin)]; [by left|]. right. exists x. split; [done|]. by right. }
    assert (forall r, (reason' = r
                       \/ exists x, reason' = Some x
                                    /\ (x ∈ rest \/ ("--reason=" +:+ x) ∈ rest)) ->
                      reason' = r
                      \/ exists x, reason' = Some x
                                   /\ (x ∈ arg :: rest \/ ("--reason=" +:+ x) ∈ arg :: rest))
      as Hreason.
    { intros r [Hr|(x & Hx & Hin)]; [by left|]. right. exists x. split; [done|].
      destruct Hin; [left | right]; by right. }
    destruct (String.eqb arg "--reason" || String.eqb arg "-r").
    { destruct rest as [|value rest']; [done|].
      destruct (String.eqb value EmptyString); [done|].
      cbn [length] in Hlen.
      destruct (IH rest' uri (Some value) ltac:(lia) Hscan) as [Hu Hr]. split.
      - destruct Hu as [Hu|(x & Hx & Hin)]; [by left|]. right. exists x.
        split; [done|]. by do 2 right.
      - right. destruct Hr as [Hr|(y & Hy & Hin)].
        + exists value. split; [done|]. left. right. by left.
        + exists y. split; [done|]. destruct Hin; [left | right]; by do 2 right. }
    destruct (String.prefix "--reason=" arg) eqn:Hprefix.
    { apply prefix_iff in Hprefix as [value ->].
      change 9%nat with (String.length "--reason=") in Hscan.
      rewrite substring_behind in Hscan.
      destruct (IH rest uri (Some value) ltac:(lia) Hscan) as [Hu Hr].
      split; [by apply Huri|]. right. destruct Hr as [Hr|(y & Hy & Hin)].
      - exists value. split; [done|]. right. by left.
      - exists y. split; [done|]. destruct Hin; [left | right]; by right. }
    destruct (String.prefix "-" arg); [done|].
    destruct (unset uri); [|done].
    destruct (IH rest (Some arg) reason ltac:(lia) Hscan) as [Hu Hr].
    split; [|by apply Hreason]. right. destruct Hu as [Hu|(x & Hx & Hin)].
    + exists arg. split; [done|]. by left.
    + exists x. split; [done|]. by right.
Qed.

Section CommandLine.
Context {runtime : Runtime} {provider : Provider}.
Variable config : Config.
Variable channels : list Channel.

(** X24. A request that the read command sends is one that the daemon
    answers. Whatever the arguments, if cmdRead sends a request, the request
    is a read whose uri is one of the arguments and starts with op://, and
    whose reason is absent or is a text that is not empty and was given as
    the argument behind --reason or -r or inside a --reason= argument; and
    handleRequest ends with a response for it, never with a rejection, when
    the provider examines strings without throwing, as the 1Password
    provider does. *)
Theorem cli_reads_are_answered (args : list string) (request : JsValue) (st : State)
    (o : Oracle) :
  cmdRead_request args = inr request ->
  (forall s m, parseUri (JString s) <> Throw m) ->
  (exists uri,
      Js.get request "action" = Normal (JString "read")
      /\ Js.get request "uri" = Normal (JString uri)
      /\ uri ∈ args /\ String.prefix "op://" uri = true
      /\ (Js.get request "reason" = Normal JUndefined
          \/ exists reason, reason <> EmptyString
                            /\ (reason ∈ args \/ ("--reason=" +:+ reason) ∈ args)
                            /\ Js.get request "reason" = Normal (JString reason)))
  /\ forall trace m st1,
       handleRequest config channels st o request <> Finished trace (Reject m) st1.
Proof.
  intros Hsent Hparse. unfold cmdRead_request in Hsent.
  destruct (scanArgs args None None) as [message|[[u|] reason]] eqn:Hscan; try done.
  destruct (scanArgs_takes _ args _ _ _ _ (Nat.le_refl _) Hscan) as [Hu Hr].
  destruct Hu as [Hu|(u' & [= <-] & Hu)]; [done|].
  destruct (String.eqb u EmptyString); [done|].
  destruct (String.prefix "op://" u) eqn:Hprefix; [|done]. cbn [negb] in Hsent.
  injection Hsent as <-.
  assert (Js.get (JObject ([("action", str "read"); ("uri", str u)]
                           ++ match reason with
                              | Some r => if String.eqb r EmptyString then []
                                          else [("reason", str r)]
                              | None => []
                              end)) "reason" = Normal JUndefined
          \/ exists r, r <> EmptyString
                       /\ (r ∈ args \/ ("--reason=" +:+ r) ∈ args)
                       /\ Js.get (JObject ([("action", str "read"); ("uri", str u)]
                                           ++ match reason with
                                              | Some r => if String.eqb r EmptyString then []
                                                          else [("reason", str r)]
                                              | None => []
                                              end)) "reason" = Normal (JString r))
    as Hreason.
  { destruct reason as [r|]; [|by left].
    destruct (String.eqb_spec r EmptyString) as [|Hne]; [by left|]. right. exists r.
    destruct Hr as [Hr|(r' & [= <-] & Hr)]; [done|]. by repeat split. }
  split; [exists u; by repeat split|].
  intros trace m st1. unfold handleRequest. cbn [Js.get app Js.assoc String.eqb Ascii.eqb
    Bool.eqb default is_literal str].
  destruct Hreason as [Hr'|(r & Hne & _ & Hr')].
  - intros Hrejected.
    apply (handleRead_typed config channels st o _ (JString u) JUndefined) in Hrejected;
      [by destruct Hrejected as (_ & ? & _) | done | done | apply Hparse | by left].
  - intros Hrejected.
    apply (handleRead_typed config channels st o _ (JString u) (JString r)) in Hrejected;
      [by destruct Hrejected as (_ & ? & _) | done | done | apply Hparse
      | right; by exists r].
Qed.
End CommandLine.

(** ** The timeout of a pending request *)

Lemma armed_same (st st' : State) :
  pendingRequests st' = pendingRequests st -> timers st' = timers st ->
  nextId st' = nextId st -> armed st -> armed st'.
Proof. intros Hm Ht Hn. unfold armed. by rewrite Hm, Ht, Hn. Qed.

(** A step that only removes entries and timers keeps the invariant, when
    the entries that stay keep their timeout. *)
Lemma armed_shrink (st st' : State) :
  armed st -> nextId st' = nextId st ->
  (forall handle task, timers st' !! handle = Some task -> timers st !! handle = Some task) ->
  (forall id pending, pendingRequests st' !! id = Some pending ->
      pendingRequests st !! id = Some pending
      /\ timers st' !! timer pending = timers st !! timer pending) ->
  armed st'.
Proof.
  intros [Hbound Harmed] Hn Htimers Hkept. split.
  - intros handle task H. rewrite Hn. by apply (Hbound handle task), Htimers.
  - intros id0 pending H. destruct (Hkept _ _ H) as [Hold Hsame].
    destruct (Harmed _ _ Hold) as (Htimer & Hpoll & Htask).
    rewrite Hsame, Hn. split; [done|]. split; [done|].
    intros task Ht. by apply Htask, Htimers.
Qed.

Lemma armed_settle (promise : nat) (s : Settlement) (st : State) :
  armed st -> armed (settle promise s st).
Proof.
  apply armed_same; [apply settle_pendingRequests | apply settle_timers|].
  unfold settle. by destruct (promises st !! promise).
Qed.

Lemma armed_distinct (st : State) (id id' : string) (p p' : Pending) :
  armed st -> pendingRequests st !! id = Some p -> pendingRequests st !! id' = Some p' ->
  id <> id' -> timer p' <> timer p /\ timer p' <> pollInterval p.
Proof.
  intros [_ Harmed] Hp Hp' Hne.
  destruct (Harmed _ _ Hp) as (Ht & _ & Htask). destruct (Harmed _ _ Hp') as (Ht' & _ & _).
  split; intros Heq.
  - rewrite Heq, Ht in Ht'. by injection Ht' as ->.
  - rewrite Heq in Ht'. by specialize (Htask _ Ht').
Qed.

Lemma armed_cleanup (requestId : JsValue) (st : State) :
  armed st -> armed (cleanup requestId st).2.
Proof.
  intros Hinv. unfold cleanup. destruct requestId as [| | | |id0| |]; try done.
  destruct (pendingRequests st !! id0) as [p0|] eqn:Hp0; [|done]. cbn [snd].
  apply (armed_shrink st); [done | done | |].
  - cbn. intros handle task [_ [_ H]%lookup_delete_Some]%lookup_delete_Some. done.
  - cbn. intros id1 p1 [Hne H]%lookup_delete_Some. split; [done|].
    destruct (armed_distinct st id0 id1 p0 p1 Hinv Hp0 H ltac:(done)) as [H1 H2].
    by rewrite !lookup_delete_ne.
Qed.

Lemma armed_resolveApproval (requestId approved : JsValue) (st : State) :
  armed st -> armed (resolveApproval requestId approved st).2.
Proof.
  intros Hinv. unfold resolveApproval. destruct (registry_get requestId st); [|done].
  pose proof (armed_cleanup requestId st Hinv) as H.
  destruct (cleanup requestId st) as [ev st1]. by apply armed_settle.
Qed.

Lemma owned_initial : owned initialState.
Proof.
  split; [by exists 0%nat|]. split.
  - cbn. intros k Hk. lia.
  - cbn. intros handle id promise H. by rewrite lookup_empty in H.
Qed.

Lemma settle_grows (p k : nat) (s : Settlement) (st : State) :
  promises (settle p s st) !! k = None -> promises st !! k = None.
Proof.
  unfold settle. destruct (promises st !! p) eqn:Hp; [done|]. cbn.
  by intros [H _]%lookup_insert_None.
Qed.

Lemma settle_settles (p : nat) (s : Settlement) (st : State) :
  promises (settle p s st) !! p <> None.
Proof.
  unfold settle. destruct (promises st !! p) eqn:Hp; [by rewrite Hp|]. cbn.
  by rewrite lookup_insert_eq.
Qed.

(** A step that removes timers and settles promises keeps what is owned,
    when every request that it takes out of the registry has its promise
    settled and no timeout left. *)
Lemma owned_step (st st' : State) :
  owned st -> nextId st' = nextId st ->
  (forall handle id promise,
      timers st' !! handle = Some (TimeoutTask id promise) ->
      timers st !! handle = Some (TimeoutTask id promise)) ->
  (forall k, promises st' !! k = None -> promises st !! k = None) ->
  (forall id pending,
      pendingRequests st !! id = Some pending ->
      pendingRequests st' !! id = Some pending
      \/ (promises st' !! resolve pending <> None
          /\ timers st' !! timer pending = None)) ->
  owned st'.
Proof.
  intros (Hthree & Hpromises & Htimeouts) Hn Htimers Hsettled Hkept. split; [by rewrite Hn|].
  split.
  - intros k Hk Hnone. rewrite Hn in Hk.
    destruct (Hpromises k Hk (Hsettled _ Hnone)) as (id & pending & Hp & Hresolve).
    destruct (Hkept _ _ Hp) as [Hp'|[Hsome _]]; [by exists id, pending|].
    by rewrite Hresolve in Hsome.
  - intros handle id promise Htask.
    destruct (Htimeouts _ _ _ (Htimers _ _ _ Htask)) as (pending & Hp & Hresolve & Htimer).
    destruct (Hkept _ _ Hp) as [Hp'|[_ Hgone]]; [by exists pending|].
    by rewrite Htimer, Htask in Hgone.
Qed.

Lemma owned_settled (id : string) (pending : Pending) (s : Settlement) (st : State) :
  owned st -> pendingRequests st !! id = Some pending ->
  owned (settle (resolve pending) s (cleanup (JString id) st).2).
Proof.
  intros Hinv Hp. unfold cleanup. rewrite Hp. cbn [snd].
  apply (owned_step st); [done | | | |].
  - unfold settle. by destruct (promises _ !! _).
  - rewrite settle_timers. cbn.
    by intros handle id0 promise [_ [_ H]%lookup_delete_Some]%lookup_delete_Some.
  - intros k H. by apply settle_grows in H.
  - intros id0 p0 Hp0. rewrite settle_pendingRequests, settle_timers. cbn.
    destruct (decide (id0 = id)) as [->|Hne].
    + right. rewrite Hp in Hp0. injection Hp0 as <-. split; [apply settle_settles|].
      apply lookup_delete_None. right. apply lookup_delete_eq.
    + left. by rewrite lookup_delete_ne.
Qed.

Lemma owned_resolveApproval (requestId approved : JsValue) (st : State) :
  owned st -> owned (resolveApproval requestId approved st).2.
Proof.
  intros Hinv.
  destruct (resolveApproval_cases requestId approved st) as [->|(id & p & -> & Hget & _)];
    [done|].
  rewrite (resolveApproval_pending _ _ _ _ Hget). cbn [snd].
  pose proof (owned_settled id p (Fulfilled (Js.truthy approved)) st Hinv Hget) as H.
  unfold cleanup in H. by rewrite Hget in H.
Qed.

Section Armed.
Context {runtime : Runtime} {provider : Provider}.
Variable config : Config.
Variable channels : list Channel.

Lemma armed_waitForApproval (requestId : string) (st : State) :
  armed st -> armed (waitForApproval config requestId st).2.
Proof.
  intros [Hbound Harmed]. unfold waitForApproval. cbn [snd]. split.
  - cbn. intros handle task [[<- _]|[_ [[<- _]|[_ H]]%lookup_insert_Some]]%lookup_insert_Some;
      [lia | lia | apply Hbound in H; lia].
  - cbn. intros id0 pending [[<- <-]|[Hne H]]%lookup_insert_Some; cbn.
    + rewrite lookup_insert_ne by lia. rewrite !lookup_insert_eq.
      split; [done|]. split; [lia|]. by intros task [= <-].
    + destruct (Harmed _ _ H) as (Ht & Hp & Htask).
      pose proof (Hbound _ _ Ht). rewrite !lookup_insert_ne by lia.
      split; [done|]. split; [lia|]. done.
Qed.

Lemma armed_getCached (o : Oracle) (uri : JsValue) (st : State) :
  armed st -> armed (getCached config o uri st).2.
Proof.
  intros H. unfold getCached. destruct (_ <=? _)%Z; [done|].
  destruct (cache_get uri (cache st)); [|done]. by destruct (_ >? _)%Z.
Qed.

Lemma armed_handleRead (st : State) (o : Oracle) (request : JsValue) :
  armed st -> armed (state_of (handleRead config channels st o request)).
Proof.
  intros Hinv. unfold handleRead.
  destruct (Js.get request "uri") as [uri|]; [|by destruct (Js.get request "reason")].
  destruct (Js.get request "reason") as [reason|]; [|done].
  destruct (Js.truthy uri); cbn [negb]; [|done].
  destruct (parseUri uri) as [[parsed|]|]; [|by destruct (toString uri)|done].
  case_bool_decide; [by destruct (provider_read o uri None)|].
  case_bool_decide; [|done].
  destruct (negb (Js.truthy reason)); [done|].
  destruct (matchesStandingApproval config (item parsed) reason) as [[sa|]|];
    [by destruct (provider_read o uri _)| |done].
  pose proof (armed_getCached o uri st Hinv) as Hcached.
  destruct (getCached config o uri st) as [[cached|] st0]; cbn [snd] in Hcached; [done|].
  destruct (sendApprovalRequests o channels _ _) as [sent refs].
  destruct (_ && _); [done|].
  pose proof (armed_waitForApproval (generateRequestId o) st0 Hcached) as Hwait.
  by destruct (waitForApproval config (generateRequestId o) st0) as [[ev promise] st2].
Qed.

Lemma armed_handleRequest (st : State) (o : Oracle) (request : JsValue) :
  armed st -> armed (state_of (handleRequest config channels st o request)).
Proof.
  intros Hinv. unfold handleRequest. destruct (Js.get request "action") as [action|]; [|done].
  destruct (is_literal action "read"); [by apply armed_handleRead|].
  destruct (is_literal action "ping"); [done|].
  destruct (is_literal action "status"); [done|]. by destruct (toString action).
Qed.

Lemma armed_resumed (w : Waiting) (s : Settlement) (st : State) (o : Oracle) :
  armed st -> armed (handleRead_resumed config w s st o).2.
Proof.
  intros Hinv. unfold handleRead_resumed. destruct s as [[|]|]; cbn [negb]; try done.
  destruct (provider_read o (w_uri w) _); [|done]. cbn [snd]. unfold setCache.
  by destruct (_ <=? _)%Z.
Qed.

Lemma armed_onTimeout (handle : nat) (st : State) :
  armed st -> armed (onTimeout config handle st).2.
Proof.
  intros Hinv. unfold onTimeout.
  destruct (timers st !! handle) as [[rid promise|rid]|] eqn:Hhandle; try done.
  set (st1 := with_timers (delete handle (timers st)) st).
  assert (armed (cleanup (JString rid) st1).2) as H.
  { unfold cleanup. subst st1. cbn [pendingRequests with_timers].
    destruct (pendingRequests st !! rid) as [p0|] eqn:Hp0; cbn [snd].
    - apply (armed_shrink st); [done | done | |].
      + cbn. intros h task [_ [_ [_ H]%lookup_delete_Some]%lookup_delete_Some]%lookup_delete_Some.
        done.
      + cbn. intros id1 p1 [Hne H]%lookup_delete_Some. split; [done|].
        destruct (armed_distinct st rid id1 p0 p1 Hinv Hp0 H ltac:(done)) as [H1 H2].
        rewrite !lookup_delete_ne; [done | | done | done].
        intros Heq. destruct Hinv as [_ Harmed]. destruct (Harmed _ _ H) as (Ht & _).
        rewrite <- Heq, Hhandle in Ht. injection Ht as -> _. done.
    - apply (armed_shrink st); [done | done | |].
      + cbn. by intros h task [_ H]%lookup_delete_Some.
      + cbn. intros id1 p1 H. split; [done|]. rewrite lookup_delete_ne; [done|].
        intros Heq. destruct Hinv as [_ Harmed]. destruct (Harmed _ _ H) as (Ht & _).
        rewrite <- Heq, Hhandle in Ht. injection Ht as -> _. by rewrite Hp0 in H. }
  destruct (cleanup (JString rid) st1) as [ev st2]. by apply armed_settle.
Qed.

Lemma armed_onPoll (handle : nat) (st : State) :
  armed st -> armed (onPoll handle st).2.
Proof.
  intros Hinv. unfold onPoll.
  destruct (timers st !! handle) as [[rid promise|rid]|] eqn:Hhandle; try done.
  destruct (pendingDir st !! (rid +:+ ".json")) as [content|]; [|done].
  destruct (JSON_parse content) as [data|]; [|done].
  set (st1 := with_timers _ _).
  assert (armed st1) as H1.
  { apply (armed_shrink st); [done | done | |].
    - subst st1. cbn. by intros h task [_ H]%lookup_delete_Some.
    - subst st1. cbn. intros id1 p1 H. split; [done|]. rewrite lookup_delete_ne; [done|].
      intros Heq. destruct Hinv as [_ Harmed]. destruct (Harmed _ _ H) as (Ht & _).
      rewrite <- Heq, Hhandle in Ht. done. }
  destruct (Js.get data "approved") as [approved|]; [|done].
  pose proof (armed_resolveApproval (JString rid) approved st1 H1) as H.
  by destruct (resolveApproval (JString rid) approved st1) as [[resolved ev] st2].
Qed.

Lemma armed_runJob (st : State) (j : Job) :
  armed st -> armed (runJob config channels st j).2.
Proof.
  intros Hinv. destruct j as [o request|w s o|text|handle|handle]; cbn [runJob].
  - by apply armed_handleRequest.
  - pose proof (armed_resumed w s st o Hinv) as H.
    by destruct (handleRead_resumed config w s st o) as [[trace out] st1].
  - pose proof (postCallback_settles text st) as H.
    destruct (postCallback text st) as [[trace response] st1].
    destruct H as [[(_ & -> & _)|(_ & id0 & approved & _ & Hres)]|(_ & -> & _)];
      [done| |done].
    pose proof (armed_resolveApproval (JString id0) approved st Hinv) as H.
    by rewrite Hres in H.
  - by apply armed_onTimeout.
  - by apply armed_onPoll.
Qed.

Lemma armed_runDaemonJob (st : State) (j : DaemonJob) :
  armed st -> armed (runDaemonJob config channels st j).2.
Proof.
  intros Hinv. destruct j as [j|method url text|name content]; cbn [runDaemonJob].
  - by apply armed_runJob.
  - pose proof (requestListener_routes method url text st) as H.
    destruct (requestListener method url text st) as [[trace reply] st1].
    destruct H as [(_ & -> & _)|[(_ & _ & _ & -> & _)|(_ & _ & response & _ & H)]];
      [done|done|].
    destruct H as [(_ & -> & _)|(_ & id0 & approved & _ & Hres)]; [done|].
    pose proof (armed_resolveApproval (JString id0) approved st Hinv) as H.
    by rewrite Hres in H.
  - done.
Qed.

(** What every job keeps holds in every state that a run ends in. *)
Lemma runDaemon_invariant (P : State -> Prop) :
  (forall st j, P st -> P (runDaemonJob config channels st j).2) ->
  forall jobs st, P st -> P (runDaemon config channels st jobs).2.
Proof.
  intros Hstep jobs. induction jobs as [|j jobs IH]; intros st Hinv; [done|].
  cbn [runDaemon]. pose proof (Hstep st j Hinv) as H.
  destruct (runDaemonJob config channels st j) as [trace st1].
  destruct (exited trace); [done|].
  specialize (IH st1 H). by destruct (runDaemon config channels st1 jobs) as [trace' st2].
Qed.

Lemma armed_runDaemon (jobs : list DaemonJob) (st : State) :
  armed st -> armed (runDaemon config channels st jobs).2.
Proof. apply runDaemon_invariant. intros st0 j. apply armed_runDaemonJob. Qed.

Lemma owned_waitForApproval (requestId : string) (st : State) :
  owned st -> pendingRequests st !! requestId = None ->
  owned (waitForApproval config requestId st).2.
Proof.
  intros ([n Hn] & Hpromises & Htimeouts) Hfresh. unfold waitForApproval. cbn [snd]. split.
  { exists (S n). cbn. lia. }
  split.
  - cbn. intros k Hk Hnone.
    destruct (decide (k = n)) as [->|Hne].
    + exists requestId. eexists. rewrite lookup_insert_eq. split; [done|]. cbn. lia.
    + destruct (Hpromises k ltac:(lia) Hnone) as (id & pending & Hp & Hresolve).
      exists id, pending. split; [|done]. rewrite lookup_insert_ne; [done|].
      intros <-. by rewrite Hfresh in Hp.
  - cbn. intros handle id promise
      [[_ [=]]|[_ [[<- [= <- <-]]|[Hne H]]%lookup_insert_Some]]%lookup_insert_Some.
    + eexists. by rewrite lookup_insert_eq.
    + destruct (Htimeouts _ _ _ H) as (pending & Hp & Hresolve & Htimer).
      exists pending. split; [|done]. rewrite lookup_insert_ne; [done|].
      intros <-. by rewrite Hfresh in Hp.
Qed.

Lemma owned_onTimeout (handle : nat) (st : State) :
  owned st -> owned (onTimeout config handle st).2.
Proof.
  intros Hinv. unfold onTimeout.
  destruct (timers st !! handle) as [[rid promise|rid]|] eqn:Hhandle; try done.
  destruct Hinv as (Hthree & Hpromises & Htimeouts).
  destruct (Htimeouts _ _ _ Hhandle) as (pending & Hp & <- & <-).
  unfold cleanup. cbn [pendingRequests with_timers]. rewrite Hp. cbn [snd].
  apply (owned_step st); [done | | | |].
  - unfold settle. by destruct (promises _ !! _).
  - rewrite settle_timers. cbn.
    by intros h id0 q [_ [_ [_ H]%lookup_delete_Some]%lookup_delete_Some]%lookup_delete_Some.
  - intros k H. by apply settle_grows in H.
  - intros id0 p0 Hp0. rewrite settle_pendingRequests, settle_timers. cbn.
    destruct (decide (id0 = rid)) as [->|Hne].
    + right. rewrite Hp in Hp0. injection Hp0 as <-. split; [apply settle_settles|].
      apply lookup_delete_None. right. apply lookup_delete_eq.
    + left. by rewrite lookup_delete_ne.
Qed.

Lemma owned_onPoll (handle : nat) (st : State) :
  owned st -> owned (onPoll handle st).2.
Proof.
  intros Hinv. unfold onPoll.
  destruct (timers st !! handle) as [[rid promise|rid]|] eqn:Hhandle; try done.
  destruct (pendingDir st !! (rid +:+ ".json")) as [content|]; [|done].
  destruct (JSON_parse content) as [data|]; [|done].
  set (st1 := with_timers _ _).
  assert (owned st1) as H1.
  { apply (owned_step st); [done | done | | done |].
    - subst st1. cbn. by intros h id0 q [_ H]%lookup_delete_Some.
    - intros id0 p0 Hp0. by left. }
  destruct (Js.get data "approved") as [approved|]; [|done].
  pose proof (owned_resolveApproval (JString rid) approved st1 H1) as H.
  by destruct (resolveApproval (JString rid) approved st1) as [[resolved ev] st2].
Qed.

Lemma owned_getCached (o : Oracle) (uri : JsValue) (st : State) :
  owned st -> owned (getCached config o uri st).2.
Proof.
  intros H. unfold getCached. destruct (_ <=? _)%Z; [done|].
  destruct (cache_get uri (cache st)); [|done]. by destruct (_ >? _)%Z.
Qed.

Lemma fresh_app (st : State) (t1 t2 : list Event) :
  fresh st (t1 ++ t2) = fresh st t1 && fresh st t2.
Proof. apply forallb_app. Qed.

Lemma owned_handleRead (st : State) (o : Oracle) (request : JsValue) :
  owned st -> fresh st (trace_of (handleRead config channels st o request)) = true ->
  owned (state_of (handleRead config channels st o request)).
Proof.
  intros Hinv. unfold handleRead.
  destruct (Js.get request "uri") as [uri|]; [|by destruct (Js.get request "reason")].
  destruct (Js.get request "reason") as [reason|]; [|done].
  destruct (Js.truthy uri); cbn [negb]; [|done].
  destruct (parseUri uri) as [[parsed|]|]; [|by destruct (toString uri)|done].
  case_bool_decide; [by destruct (provider_read o uri None)|].
  case_bool_decide; [|done].
  destruct (negb (Js.truthy reason)); [done|].
  destruct (matchesStandingApproval config (item parsed) reason) as [[sa|]|];
    [by destruct (provider_read o uri _)| |done].
  pose proof (owned_getCached o uri st Hinv) as Hcached.
  destruct (getCached_registry config o uri st) as [Hregistry _].
  destruct (getCached config o uri st) as [[cached|] st0]; cbn [snd] in Hcached, Hregistry;
    [done|].
  destruct (sendApprovalRequests o channels _ _) as [sent refs].
  destruct (_ && _); [done|].
  unfold waitForApproval at 1. cbn [trace_of].
  rewrite app_comm_cons, fresh_app, andb_true_iff. intros [_ Hfresh]. cbn in Hfresh.
  destruct (pendingRequests st !! generateRequestId o) eqn:Hid; [done|].
  rewrite <- Hregistry in Hid.
  pose proof (owned_waitForApproval (generateRequestId o) st0 Hcached Hid) as Hwait.
  by destruct (waitForApproval config (generateRequestId o) st0) as [[ev promise] st2].
Qed.

Lemma owned_handleRequest (st : State) (o : Oracle) (request : JsValue) :
  owned st -> fresh st (trace_of (handleRequest config channels st o request)) = true ->
  owned (state_of (handleRequest config channels st o request)).
Proof.
  intros Hinv. unfold handleRequest. destruct (Js.get request "action") as [action|]; [|done].
  destruct (is_literal action "read"); [by apply owned_handleRead|].
  destruct (is_literal action "ping"); [done|].
  destruct (is_literal action "status"); [done|]. by destruct (toString action).
Qed.

Lemma owned_resumed (w : Waiting) (s : Settlement) (st : State) (o : Oracle) :
  owned st -> owned (handleRead_resumed config w s st o).2.
Proof.
  intros Hinv. unfold handleRead_resumed. destruct s as [[|]|]; cbn [negb]; try done.
  destruct (provider_read o (w_uri w) _); [|done]. cbn [snd]. unfold setCache.
  by destruct (_ <=? _)%Z.
Qed.

Lemma owned_runDaemonJob (st : State) (j : DaemonJob) :
  owned st -> fresh st (runDaemonJob config channels st j).1 = true ->
  owned (runDaemonJob config channels st j).2.
Proof.
  intros Hinv.
  destruct j as [[o request|w s o|text|handle|handle]|method url text|name content];
    cbn [runDaemonJob runJob fst snd]; intros Hfresh.
  - by apply owned_handleRequest.
  - pose proof (owned_resumed w s st o Hinv) as H.
    by destruct (handleRead_resumed config w s st o) as [[trace out] st1].
  - pose proof (postCallback_settles text st) as H.
    destruct (postCallback text st) as [[trace response] st1].
    destruct H as [[(_ & -> & _)|(_ & id0 & approved & _ & Hres)]|(_ & -> & _)];
      [done| |done].
    pose proof (owned_resolveApproval (JString id0) approved st Hinv) as H.
    by rewrite Hres in H.
  - by apply owned_onTimeout.
  - by apply owned_onPoll.
  - pose proof (requestListener_routes method url text st) as H.
    destruct (requestListener method url text st) as [[trace reply] st1].
    destruct H as [(_ & -> & _)|[(_ & _ & _ & -> & _)|(_ & _ & response & _ & H)]];
      [done|done|].
    destruct H as [(_ & -> & _)|(_ & id0 & approved & _ & Hres)]; [done|].
    pose proof (owned_resolveApproval (JString id0) approved st Hinv) as H.
    by rewrite Hres in H.
  - done.
Qed.

Lemma owned_runDaemon (jobs : list DaemonJob) (st : State) :
  owned st -> distinctIds config channels st jobs = true ->
  owned (runDaemon config channels st jobs).2.
Proof.
  revert st. induction jobs as [|j jobs IH]; intros st Hinv; [done|].
  cbn [runDaemon distinctIds]. pose proof (owned_runDaemonJob st j Hinv) as H.
  destruct (runDaemonJob config channels st j) as [trace st1]. cbn [fst snd] in H.
  intros [Hfresh Hrest]%andb_true_iff. specialize (H Hfresh).
  destruct (exited trace); [done|]. cbn [orb] in Hrest.
  specialize (IH st1 H Hrest). by destruct (runDaemon config channels st1 jobs) as [trace' st2].
Qed.

Lemma exited_app (t1 t2 : list Event) : exited (t1 ++ t2) = exited t1 || exited t2.
Proof. apply existsb_app. Qed.

(** A run goes on with the jobs that follow, as long as the process lives. *)
Lemma runDaemon_app (before rest : list DaemonJob) (st : State) :
  exited (runDaemon config channels st before).1 = false ->
  runDaemon config channels st (before ++ rest)
  = ((runDaemon config channels st before).1
       ++ (runDaemon config channels (runDaemon config channels st before).2 rest).1,
     (runDaemon config channels (runDaemon config channels st before).2 rest).2)
  /\ distinctIds config channels st (before ++ rest)
     = distinctIds config channels st before
       && distinctIds config channels (runDaemon config channels st before).2 rest.
Proof.
  revert st. induction before as [|j before IH]; intros st.
  - intros _. cbn. by destruct (runDaemon config channels st rest).
  - cbn [app runDaemon distinctIds].
    destruct (runDaemonJob config channels st j) as [trace st1].
    destruct (exited trace) eqn:Hexited; [cbn [fst]; by rewrite Hexited|]. cbn [orb].
    specialize (IH st1).
    destruct (runDaemon config channels st1 before) as [trace' st2]. cbn [fst snd] in *.
    rewrite exited_app, Hexited. cbn [orb]. intros Hlives.
    destruct (IH Hlives) as [-> ->].
    split; [by rewrite app_assoc | by rewrite andb_assoc].
Qed.

Lemma runDaemon_nextId (jobs : list DaemonJob) (st : State) :
  (nextId st <= nextId (runDaemon config channels st jobs).2)%nat.
Proof.
  apply (runDaemon_invariant (fun s => (nextId st <= nextId s)%nat)); [|done].
  intros st0 j H.
  destruct (runDaemonJob_effect config channels st0 j)
    as [? ? Hn|? ? ? Hn|? ? ? ? ? ? Hn|? ? ? Hn]; rewrite Hn; lia.
Qed.

Lemma sends_live (o : Oracle) (chs : list Channel) (requestId : string) (params : JsValue) :
  exited (sendApprovalRequests o chs requestId params).1 = false.
Proof.
  induction chs as [|channel chs IH]; [done|]. cbn [sendApprovalRequests].
  destruct (sendApprovalRequests o chs requestId params) as [ev refs].
  by destruct (channel_send o channel params).
Qed.

(** A read that awaits approval has taken the next handle for its promise
    and lives. *)
Lemma handleRequest_awaits (st : State) (o : Oracle) (request : JsValue)
    (trace : list Event) (w : Waiting) (st1 : State) :
  handleRequest config channels st o request = Awaiting trace w st1 ->
  w_promise w = nextId st /\ (nextId st < nextId st1)%nat /\ exited trace = false.
Proof.
  unfold handleRequest. destruct (Js.get request "action") as [action|]; [|done].
  destruct (is_literal action "read");
    [|destruct (is_literal action "ping"); [done|];
      destruct (is_literal action "status"); [done|]; by destruct (toString action)].
  unfold handleRead.
  destruct (Js.get request "uri") as [uri|]; [|by destruct (Js.get request "reason")].
  destruct (Js.get request "reason") as [reason|]; [|done].
  destruct (Js.truthy uri); cbn [negb]; [|done].
  destruct (parseUri uri) as [[parsed|]|]; [|by destruct (toString uri)|done].
  case_bool_decide; [by destruct (provider_read o uri None)|].
  case_bool_decide; [|done].
  destruct (negb (Js.truthy reason)); [done|].
  destruct (matchesStandingApproval config (item parsed) reason) as [[sa|]|];
    [by destruct (provider_read o uri _)| |done].
  destruct (getCached_registry config o uri st) as [_ Hn].
  destruct (getCached config o uri st) as [[cached|] st0]; cbn [snd] in Hn; [done|].
  pose proof (sends_live o channels (generateRequestId o)
    (JObject [("requestId", str (generateRequestId o)); ("item", str (item parsed));
              ("field", str (field parsed)); ("vault", str (vault parsed));
              ("reason", reason)])) as Hsent.
  destruct (sendApprovalRequests o channels _ _) as [sent refs]. cbn [fst] in Hsent.
  destruct (_ && _); [done|].
  unfold waitForApproval. intros [= <- <- <-]. cbn. rewrite Hn. split; [done|].
  split; [lia|]. rewrite exited_app, Hsent. done.
Qed.

(** A read that awaits approval has registered its id with the next three
    handles. *)
Lemma handleRequest_registers (st : State) (o : Oracle) (request : JsValue)
    (trace : list Event) (w : Waiting) (st1 : State) :
  handleRequest config channels st o request = Awaiting trace w st1 ->
  pendingRequests st1
  = <[w_requestId w := {| resolve := w_promise w; timer := S (w_promise w);
                          pollInterval := S (S (w_promise w)) |}]> (pendingRequests st).
Proof.
  unfold handleRequest. destruct (Js.get request "action") as [action|]; [|done].
  destruct (is_literal action "read");
    [|destruct (is_literal action "ping"); [done|];
      destruct (is_literal action "status"); [done|]; by destruct (toString action)].
  unfold handleRead.
  destruct (Js.get request "uri") as [uri|]; [|by destruct (Js.get request "reason")].
  destruct (Js.get request "reason") as [reason|]; [|done].
  destruct (Js.truthy uri); cbn [negb]; [|done].
  destruct (parseUri uri) as [[parsed|]|]; [|by destruct (toString uri)|done].
  case_bool_decide; [by destruct (provider_read o uri None)|].
  case_bool_decide; [|done].
  destruct (negb (Js.truthy reason)); [done|].
  destruct (matchesStandingApproval config (item parsed) reason) as [[sa|]|];
    [by destruct (provider_read o uri _)| |done].
  destruct (getCached_registry config o uri st) as [Hm _].
  destruct (getCached config o uri st) as [[cached|] st0]; cbn [snd] in Hm; [done|].
  destruct (sendApprovalRequests o channels _ _) as [sent refs].
  destruct (_ && _); [done|].
  unfold waitForApproval. intros [= <- <- <-]. cbn. by rewrite Hm.
Qed.

(** Once a promise is registered under an id, no other id comes to hold
    it. *)
Lemma runDaemon_named (promise : nat) (id : string) (jobs : list DaemonJob) (st : State) :
  (promise < nextId st)%nat ->
  (forall id' pending, pendingRequests st !! id' = Some pending ->
                       resolve pending = promise -> id' = id) ->
  forall id' pending,
    pendingRequests (runDaemon config channels st jobs).2 !! id' = Some pending ->
    resolve pending = promise -> id' = id.
Proof.
  intros Hbelow Hnamed.
  apply (runDaemon_invariant
           (fun s => (promise < nextId s)%nat
                     /\ forall id' pending, pendingRequests s !! id' = Some pending ->
                                            resolve pending = promise -> id' = id));
    [|done].
  clear. intros st j [Hbelow Hnamed].
  destruct (runDaemonJob_effect config channels st j)
    as [_ Hm Hn|id0 _ Hm Hn|id0 p0 b _ _ Hm Hn|id0 _ Hm Hn]; rewrite Hm, Hn.
  - done.
  - split; [done|]. intros id' pending [_ H]%lookup_delete_Some. by apply Hnamed.
  - split; [done|]. intros id' pending [_ H]%lookup_delete_Some. by apply Hnamed.
  - split; [lia|]. intros id' pending [[_ <-]|[_ H]]%lookup_insert_Some; cbn; [lia|].
    by apply Hnamed.
Qed.

(** What the timeout of a pending request does when it fires. *)
Lemma entry_times_out (st : State) (id : string) (pending : Pending) :
  armed st -> pendingRequests st !! id = Some pending ->
  timers st !! timer pending = Some (TimeoutTask id (resolve pending))
  /\ let fired := onTimeout config (timer pending) st in
     pendingRequests fired.2 !! id = None
     /\ timers fired.2 !! timer pending = None
     /\ timers fired.2 !! pollInterval pending = None
     /\ fired.1 = [ClearTimeout (timer pending); ClearInterval (pollInterval pending);
                   RegistryDelete id; UnlinkSync (id +:+ ".json");
                   RejectCall (resolve pending) (timeoutMessage config)]
     /\ (promises st !! resolve pending = None ->
         promises fired.2 !! resolve pending = Some (Rejected (timeoutMessage config))).
Proof.
  intros [_ Harmed] Hp. destruct (Harmed _ _ Hp) as (Ht & _). split; [done|].
  unfold onTimeout. rewrite Ht. unfold cleanup. cbn [pendingRequests with_timers].
  rewrite Hp. cbn [fst snd app].
  rewrite settle_pendingRequests, settle_timers. cbn.
  split; [apply lookup_delete_eq|]. split; [|split; [apply lookup_delete_eq|split; [done|]]].
  - apply lookup_delete_None.
    destruct (decide (pollInterval pending = timer pending)); [by left|].
    right. apply lookup_delete_eq.
  - intros Hnone. by apply settle_unsettled.
Qed.

(** X25. In a run in which no id is given out while it is pending, no read
    that awaits approval is left without its timeout. Take any run of the
    daemon from its start, a read in it that comes to await approval, and
    the state at the end of the run: if no job of the run has registered an
    id that was in the registry at that moment, then the promise that the
    read awaits is either settled, or the request is still in the registry
    under its id, with that promise and with its timeout armed; and when
    that timeout fires, the request leaves the registry, its timeout and its
    interval are cleared, and the promise is rejected with the timeout
    message. (When an id is given out twice, the timeout of the first read
    takes the second read out of the registry and clears its timeout, and
    the promise of the second read is never settled.) *)
Theorem pending_requests_time_out (before after : list DaemonJob) (o : Oracle)
    (request : JsValue) (trace : list Event) (w : Waiting) (st1 : State) :
  let jobs := before ++ Loop (Request o request) :: after in
  let started := runDaemon config channels initialState before in
  let st := (runDaemon config channels initialState jobs).2 in
  exited started.1 = false ->
  handleRequest config channels started.2 o request = Awaiting trace w st1 ->
  distinctIds config channels initialState jobs = true ->
  promises st !! w_promise w = None ->
  exists pending,
    pendingRequests st !! w_requestId w = Some pending
    /\ resolve pending = w_promise w
    /\ timers st !! timer pending = Some (TimeoutTask (w_requestId w) (w_promise w))
    /\ let fired := onTimeout config (timer pending) st in
       pendingRequests fired.2 !! w_requestId w = None
       /\ timers fired.2 !! timer pending = None
       /\ timers fired.2 !! pollInterval pending = None
       /\ fired.1 = [ClearTimeout (timer pending); ClearInterval (pollInterval pending);
                     RegistryDelete (w_requestId w);
                     UnlinkSync (w_requestId w +:+ ".json");
                     RejectCall (w_promise w) (timeoutMessage config)]
       /\ promises fired.2 !! w_promise w = Some (Rejected (timeoutMessage config)).
Proof.
  intros jobs started st Hlives Hawaits Hdistinct Hunsettled.
  assert (armed st) as Harmed.
  { apply armed_runDaemon. split; intros ? ? Hin; cbn in Hin; by rewrite lookup_empty in Hin. }
  assert (owned st) as Howned by (by apply owned_runDaemon; [apply owned_initial|]).
  assert (owned started.2) as ([n Hn] & _).
  { apply owned_runDaemon; [apply owned_initial|].
    destruct (runDaemon_app before (Loop (Request o request) :: after) initialState Hlives)
      as [_ Hsplit].
    fold jobs in Hsplit. rewrite Hdistinct in Hsplit. symmetry in Hsplit.
    by apply andb_true_iff in Hsplit as [? _]. }
  destruct (handleRequest_awaits _ _ _ _ _ _ Hawaits) as (Hpromise & Hnext & Htrace).
  assert (st = (runDaemon config channels st1 after).2) as Hst.
  { subst st jobs.
    destruct (runDaemon_app before (Loop (Request o request) :: after) initialState Hlives)
      as [-> _].
    cbn [snd runDaemon runDaemonJob runJob]. fold started. rewrite Hawaits.
    cbn [trace_of state_of]. rewrite Htrace.
    by destruct (runDaemon config channels st1 after) as [trace' st2]. }
  assert (nextId st1 <= nextId st)%nat as Hlater by (rewrite Hst; apply runDaemon_nextId).
  destruct Howned as (_ & Hpromises & _).
  destruct (Hpromises n ltac:(lia) ltac:(by rewrite <- Hn, <- Hpromise))
    as (id & pending & Hp & Hresolve).
  rewrite <- Hn, <- Hpromise in Hresolve.
  assert (id = w_requestId w) as ->.
  { rewrite Hst in Hp.
    apply (runDaemon_named (w_promise w) (w_requestId w) after st1 ltac:(lia)) with pending;
      [|done|done].
    rewrite (handleRequest_registers _ _ _ _ _ _ Hawaits).
    intros id' p' [[<- _]|[_ Hold]]%lookup_insert_Some Hsame; [done|].
    pose proof (runDaemon_sound config channels before initialState []
                  registry_sound_initial) as (Hbelow & _).
    fold started in Hbelow. apply Hbelow in Hold as [Hold _]. lia. }
  destruct (entry_times_out st (w_requestId w) pending Harmed Hp) as (Htimer & Hfired).
  rewrite Hresolve in Htimer, Hfired. cbv zeta in Hfired.
  destruct Hfired as (H1 & H2 & H3 & H4 & H5).
  exists pending. repeat split; try done. by apply H5.
Qed.
End Armed.

(** ** The audit trail of the reads *)

(** A trace without calls of provider.read. *)
Lemma reads_audited_none (previous : option Event) (trace : list Event) :
  provider_calls trace = [] -> reads_audited previous trace.
Proof.
  revert previous. induction trace as [|e trace IH]; intros previous H; [done|].
  destruct e; try discriminate H; cbn in *; (split; [done|]); by apply IH.
Qed.

Lemma reads_audited_app (previous : option Event) (t1 t2 : list Event) :
  reads_audited previous t1 -> (forall p, reads_audited p t2) ->
  reads_audited previous (t1 ++ t2).
Proof.
  revert previous. induction t1 as [|e t1 IH]; intros previous H1 H2; [apply H2|].
  destruct H1 as [He H1]. split; [done|]. by apply IH.
Qed.

Section Audit.
Context {runtime : Runtime} {provider : Provider}.
Variable config : Config.
Variable channels : list Channel.

Lemma handleRead_audited (st : State) (o : Oracle) (request : JsValue) (p : option Event) :
  reads_audited p (trace_of (handleRead config channels st o request)).
Proof.
  unfold handleRead.
  destruct (Js.get request "uri") as [uri|]; [|by destruct (Js.get request "reason")].
  destruct (Js.get request "reason") as [reason|]; [|done].
  destruct (Js.truthy uri); cbn [negb]; [|done].
  destruct (parseUri uri) as [[parsed|]|]; [|by destruct (toString uri)|done].
  case_bool_decide.
  { destruct (provider_read o uri None); cbn; repeat split; eexists; by repeat split. }
  case_bool_decide; [|done].
  destruct (negb (Js.truthy reason)); [done|].
  destruct (matchesStandingApproval config (item parsed) reason) as [[sa|]|]; [| |done].
  { destruct (provider_read o uri _); cbn; repeat split; eexists;
      (split; [done|]); (split; [done|]); by right. }
  destruct (getCached config o uri st) as [[cached|] st0]; [done|].
  pose proof (provider_calls_sends o channels (generateRequestId o)
    (JObject [("requestId", str (generateRequestId o)); ("item", str (item parsed));
              ("field", str (field parsed)); ("vault", str (vault parsed));
              ("reason", reason)])) as Hsent.
  destruct (sendApprovalRequests o channels _ _) as [sent refs]. cbn [fst] in Hsent.
  destruct (_ && _); cbn [trace_of].
  - split; [done|]. by apply reads_audited_none.
  - unfold waitForApproval. cbn [trace_of]. split; [done|].
    apply reads_audited_none. by rewrite provider_calls_app, Hsent.
Qed.

Lemma resumed_audited (w : Waiting) (s : Settlement) (st : State) (o : Oracle)
    (p : option Event) :
  reads_audited p (handleRead_resumed config w s st o).1.1.
Proof.
  unfold handleRead_resumed. destruct s as [[|]|]; cbn [negb].
  - destruct (provider_read o (w_uri w) _); cbn [fst];
      (apply reads_audited_app; [apply reads_audited_none, provider_calls_updates|]);
      intros q; cbn; repeat split; eexists; (split; [done|]); (split; [done|]); by left.
  - cbn [fst]. apply reads_audited_none.
    by rewrite provider_calls_app, provider_calls_updates.
  - cbn [fst]. apply reads_audited_none.
    by rewrite provider_calls_app, provider_calls_updates.
Qed.

Lemma cleanup_reads (requestId : JsValue) (st : State) :
  provider_calls (cleanup requestId st).1 = [].
Proof.
  unfold cleanup. destruct requestId as [| | | |id0| |]; try done.
  by destruct (pendingRequests st !! id0).
Qed.

Lemma runDaemonJob_audited (st : State) (j : DaemonJob) (p : option Event) :
  reads_audited p (runDaemonJob config channels st j).1.
Proof.
  destruct j as [[o request|w s o|text|handle|handle]|method url text|name content];
    cbn [runDaemonJob runJob].
  - unfold handleRequest. destruct (Js.get request "action") as [action|]; [|done].
    destruct (is_literal action "read"); [apply handleRead_audited|].
    destruct (is_literal action "ping"); [done|].
    destruct (is_literal action "status"); [done|]. by destruct (toString action).
  - pose proof (resumed_audited w s st o p) as H.
    by destruct (handleRead_resumed config w s st o) as [[trace out] st1].
  - pose proof (postCallback_settles text st) as H.
    destruct (postCallback text st) as [[trace response] st1]. cbn [fst].
    destruct H as [[(-> & _)|(_ & id0 & approved & _ & Hres)]|(-> & _)]; [done| |done].
    pose proof (resolveApproval_quiet (JString id0) approved st) as H. rewrite Hres in H.
    destruct H as [H _]. by apply reads_audited_none.
  - apply reads_audited_none. unfold onTimeout.
    destruct (timers st !! handle) as [[rid promise|rid]|]; try done.
    pose proof (cleanup_reads (JString rid) (with_timers (delete handle (timers st)) st)) as H.
    destruct (cleanup (JString rid) _) as [ev st1]. cbn [fst] in *.
    by rewrite provider_calls_app, H.
  - apply reads_audited_none. unfold onPoll.
    destruct (timers st !! handle) as [[rid promise|rid]|]; try done.
    destruct (pendingDir st !! (rid +:+ ".json")) as [content|]; [|done].
    destruct (JSON_parse content) as [data|]; [|done].
    destruct (Js.get data "approved") as [approved|]; [|done].
    match goal with |- context [resolveApproval ?r ?a ?s] =>
      pose proof (resolveApproval_quiet r a s) as H;
      destruct (resolveApproval r a s) as [[resolved ev] st2]
    end.
    cbn [fst]. rewrite provider_calls_app. by destruct H as [-> _].
  - pose proof (requestListener_routes method url text st) as H.
    destruct (requestListener method url text st) as [[trace reply] st1]. cbn [fst].
    destruct H as [(-> & _)|[(_ & _ & -> & _)|(_ & _ & response & _ & H)]]; [done|done|].
    destruct H as [(-> & _)|(_ & id0 & approved & _ & Hres)]; [done|].
    pose proof (resolveApproval_quiet (JString id0) approved st) as H. rewrite Hres in H.
    destruct H as [H _]. by apply reads_audited_none.
  - done.
Qed.

(** X26. No secret is read without an audit entry directly before the
    read. In every run of the daemon, from any state, each call of
    provider.read comes directly behind an audit entry that names the same
    uri: the entry of an open container for a read without options, and an
    approval or a standing approval for a read with the service account. *)
Theorem every_read_is_audited_first (jobs : list DaemonJob) (st : State) :
  reads_audited None (runDaemon config channels st jobs).1.
Proof.
  generalize (@None Event). revert st.
  induction jobs as [|j jobs IH]; intros st p; [done|]. cbn [runDaemon].
  pose proof (runDaemonJob_audited st j p) as H.
  destruct (runDaemonJob config channels st j) as [trace st1].
  destruct (exited trace); [done|].
  pose proof (IH st1) as H'. destruct (runDaemon config channels st1 jobs) as [trace' st2].
  cbn [fst] in *. by apply reads_audited_app.
Qed.
End Audit.

(** ** The client side of the socket *)

Lemma append_nil_r (s : string) : s +:+ EmptyString = s.
Proof. induction s as [|a s IH]; [done|]. rewrite append_cons. by rewrite IH. Qed.

Lemma index_cutLine_None (s : string) :
  String.index 0 (String Js.newline EmptyString) s = None <-> cutLine s = None.
Proof.
  rewrite <- index_cutLine. by destruct (String.index 0 _ s).
Qed.

Lemma index_cutLine_Some (s : string) (idx : nat) :
  String.index 0 (String Js.newline EmptyString) s = Some idx ->
  exists rest, cutLine s = Some (String.substring 0 idx s, rest).
Proof. intros H. rewrite <- index_cutLine, H. eauto. Qed.

Section ClientProperties.
Context {runtime : Runtime}.

Lemma client_settled_stays (events : list ClientEvent) (c : Client) (o : Outcome) :
  c_done c = true -> c_settled c = Some o ->
  c_settled (fold_left clientStep events c) = Some o.
Proof.
  revert c. induction events as [|e events IH]; intros c Hdone Hset; [done|].
  cbn [fold_left]. apply IH.
  - destruct e as [|text|message|]; cbn [clientStep]; rewrite ?Hdone; try done.
    by destruct (String.index 0 _ _).
  - destruct e as [|text|message|]; cbn [clientStep]; rewrite ?Hdone; try done.
    by destruct (String.index 0 _ _).
Qed.

Lemma client_waits (events : list ClientEvent) (c : Client) :
  undisturbed events = true -> c_done c = false -> c_settled c = None ->
  cutLine (c_buf c) = None ->
  c_settled (fold_left clientStep events c)
  = match cutLine (c_buf c +:+ received events) with
    | Some (line, _) => Some (answer line)
    | None => None
    end.
Proof.
  revert c. induction events as [|e events IH]; intros c Hquiet Hdone Hset Hcut.
  - cbn. by rewrite append_nil_r, Hcut.
  - cbn [undisturbed forallb] in Hquiet. apply andb_true_iff in Hquiet as [He Hquiet].
    cbn [fold_left]. destruct e as [|text|message|]; try done.
    + cbn [received]. by apply (IH (clientStep c Connected)).
    + cbn [received clientStep]. rewrite <- append_assoc.
      destruct (String.index 0 _ (c_buf c +:+ Buffer_toString text)) as [idx|] eqn:Hidx.
      * rewrite Hdone. apply index_cutLine_Some in Hidx as [rest Hline].
        rewrite cutLine_app, Hline. by apply client_settled_stays.
      * apply index_cutLine_None in Hidx.
        match goal with |- context [fold_left clientStep events ?c'] =>
          by rewrite (IH c' Hquiet Hdone Hset Hidx)
        end.
Qed.

Lemma clientStep_done (c : Client) (e : ClientEvent) :
  c_done c = match c_settled c with Some _ => true | None => false end ->
  c_done (clientStep c e) = match c_settled (clientStep c e) with Some _ => true | None => false end.
Proof.
  intros H. destruct e as [|text|message|]; cbn [clientStep]; try done.
  - destruct (String.index 0 _ _); [|exact H]. destruct (c_done c); cbn; done.
  - destruct (c_done c) eqn:Hd; cbn; rewrite ?Hd; done.
  - destruct (c_done c) eqn:Hd; cbn; rewrite ?Hd; done.
Qed.

Lemma clientRun_done (events : list ClientEvent) (c : Client) :
  c_done c = match c_settled c with Some _ => true | None => false end ->
  c_done (fold_left clientStep events c)
  = match c_settled (fold_left clientStep events c) with Some _ => true | None => false end.
Proof.
  revert c. induction events as [|e events IH]; intros c H; [done|].
  cbn [fold_left]. by apply IH, clientStep_done.
Qed.

(** X27. The promise of sendRequest is settled by the first line of the text
    received and by nothing after it, where the text received is what the
    chunks decode to, each chunk on its own, put together in the order of
    arrival. As long as no error and no timeout occurs, the promise is
    unsettled while the text received holds no line feed, and is settled
    with the parsed first line of that text, or rejected as an invalid
    response if that line is no JSON; and once the promise is settled, no
    later chunk, error or timeout changes the outcome. *)
Theorem client_takes_the_first_line (events more : list ClientEvent) :
  (undisturbed events = true ->
   c_settled (clientRun events)
   = match cutLine (received events) with
     | Some (line, _) => Some (answer line)
     | None => None
     end)
  /\ (forall o, c_settled (clientRun events) = Some o ->
                c_settled (clientRun (events ++ more)) = Some o).
Proof.
  split.
  - intros Hquiet. unfold clientRun. by rewrite (client_waits events newClient).
  - intros o Hset. unfold clientRun in *. rewrite fold_left_app.
    apply client_settled_stays; [|done].
    rewrite (clientRun_done events newClient eq_refl). by rewrite Hset.
Qed.
End ClientProperties.

(** ** The reading positions of the watcher *)

Lemma chars_substring (n m : nat) (s : string) :
  list_ascii_of_string (String.substring n m s) = take m (drop n (list_ascii_of_string s)).
Proof.
  revert n m. induction s as [|a s IH]; intros [|n] [|m]; cbn; try done.
  by rewrite IH.
Qed.

Lemma chars_joined (chunks : list string) :
  list_ascii_of_string (joined chunks) = concat (list_ascii_of_string <$> chunks).
Proof.
  induction chunks as [|c chunks IH]; [done|]. cbn [joined foldr].
  fold (joined chunks). by rewrite chars_app, IH.
Qed.

Lemma positionOf_insert (seen : gset string) (m : gmap string N) (filePath : string) (x : N) :
  positionOf {| processed := seen; filePositions := <[filePath := x]> m |} filePath = x.
Proof. unfold positionOf. cbn. by rewrite lookup_insert_eq. Qed.

Section Reading.
Variable writable : string -> bool.

Lemma scanFile_position_other (files : gmap string string) (scanned filePath : string)
    (w : Watcher) (dir : gmap string string) :
  scanned <> filePath ->
  positionOf (scanFile writable files scanned w dir).1.2 filePath = positionOf w filePath.
Proof.
  intros Hne. unfold scanFile, positionOf.
  destruct (files !! scanned) as [content|]; [|done]. cbv zeta.
  destruct (N.ltb _ _); destruct (N.eqb _ _); cbn [fst snd filePositions];
    try destruct (route writable _ _ _) as [[ev seen] dir1]; cbn [fst snd filePositions];
    by rewrite ?lookup_insert_ne.
Qed.

(** A scan of a file that is not shorter than the recorded position reads
    the window behind that position and moves the position to its end. *)
Lemma scanFile_position (files : gmap string string) (filePath content : string)
    (w : Watcher) (dir : gmap string string) :
  files !! filePath = Some content ->
  (positionOf w filePath <= N.of_nat (String.length content))%N ->
  let size := N.of_nat (String.length content) in
  let here := positionOf w filePath in
  let there := positionOf (scanFile writable files filePath w dir).1.2 filePath in
  there = (here + N.min (size - here) WINDOW)%N
  /\ windowOf w filePath content
     = String.substring (N.to_nat here) (N.to_nat (there - here)) content.
Proof.
  intros Hfile Hle size here there. subst size here there.
  unfold scanFile, windowOf, startOf. rewrite Hfile. cbv zeta. fold (positionOf w filePath).
  rewrite (proj2 (N.ltb_ge _ _) Hle).
  destruct (N.eqb_spec (N.of_nat (String.length content)) (positionOf w filePath)) as [Heq|Hne].
  - cbn [fst snd].
    change (positionOf {| processed := processed w; filePositions := filePositions w |}
              filePath) with (positionOf w filePath).
    rewrite Heq, !N.sub_diag. change (N.min 0 WINDOW) with 0%N. split; [lia | done].
  - destruct (route writable _ _ _) as [[ev seen] dir1]. cbn [fst snd].
    rewrite !positionOf_insert.
    split; [done|]. by rewrite (N.add_comm (positionOf w filePath)), N.add_sub.
Qed.

Lemma window_of_prefix (content more : string) (here there beyond : nat) :
  (here <= there)%nat -> (there <= String.length content)%nat -> (there <= beyond)%nat ->
  String.substring here (there - here) content
    +:+ String.substring there (beyond - there) (content +:+ more)
  = String.substring here (beyond - here) (content +:+ more).
Proof.
  intros H1 H2 H3. apply chars_inj. rewrite chars_app, !chars_substring, chars_app.
  set (C := list_ascii_of_string content). set (M := list_ascii_of_string more).
  assert (length C = String.length content) as HC by apply chars_length.
  replace (beyond - here)%nat with ((there - here) + (beyond - there))%nat by lia.
  rewrite <- take_take_drop, drop_drop.
  replace (here + (there - here))%nat with there by lia. f_equal.
  rewrite drop_app_le by lia. rewrite take_app_le; [done|]. rewrite length_drop. lia.
Qed.

(** X28. A session file that is only appended to is read once, byte by
    byte. Over any run of the watcher in which the file, each time it is
    scanned, holds what it held before and more, the recorded position never
    moves back and never passes the end of the file, and the chunks that the
    scans read, put together, are exactly the bytes between the first
    position and the last: none is skipped and none is read twice. *)
Theorem append_only_file_is_read_once (filePath before final : string)
    (scans : list (gmap string string * string)) (w : Watcher) (dir : gmap string string) :
  appendOnly filePath before scans final ->
  (positionOf w filePath <= N.of_nat (String.length before))%N ->
  let here := positionOf w filePath in
  let there := positionOf (watch writable scans w dir).1.2 filePath in
  (here <= there)%N /\ (there <= N.of_nat (String.length final))%N
  /\ (exists more, final = before +:+ more)
  /\ joined (chunksRead writable filePath scans w dir)
     = String.substring (N.to_nat here) (N.to_nat (there - here)) final.
Proof.
  revert w dir before. induction scans as [|[files scanned] rest IH];
    intros w dir before Hgrows Hhere; cbn [appendOnly watch chunksRead] in *.
  - subst final. cbn [fst snd]. split; [lia|]. split; [done|].
    split; [exists EmptyString; by rewrite append_nil_r|].
    rewrite N.sub_diag. by rewrite substring_none.
  - destruct (String.eqb_spec scanned filePath) as [->|Hne].
    + destruct Hgrows as (more & Hfile & Hgrows). rewrite Hfile.
      assert (positionOf w filePath <= N.of_nat (String.length (before +:+ more)))%N as Hle
        by (rewrite append_length; lia).
      destruct (scanFile_position files filePath _ w dir Hfile Hle) as [Hthere Hwindow].
      destruct (scanFile writable files filePath w dir) as [[ev w1] dir1].
      cbn [fst snd] in Hthere, Hwindow.
      assert (positionOf w1 filePath <= N.of_nat (String.length (before +:+ more)))%N as Hle1.
      { rewrite Hthere. pose proof (N.le_min_l
          (N.of_nat (String.length (before +:+ more)) - positionOf w filePath) WINDOW). lia. }
      destruct (IH w1 dir1 _ Hgrows Hle1) as (H1 & H2 & [more' Hfinal] & Hjoined).
      destruct (watch writable rest w1 dir1) as [[ev' w2] dir2]. cbn [fst snd] in *.
      assert (positionOf w filePath <= positionOf w1 filePath)%N as H0 by lia.
      split; [lia|]. split; [done|].
      split; [exists (more +:+ more'); by rewrite Hfinal, append_assoc|].
      cbn [app joined foldr]. fold (joined (chunksRead writable filePath rest w1 dir1)).
      rewrite Hjoined, Hwindow, Hfinal.
      replace (N.to_nat (positionOf w1 filePath - positionOf w filePath))
        with (N.to_nat (positionOf w1 filePath) - N.to_nat (positionOf w filePath))%nat by lia.
      replace (N.to_nat (positionOf w2 filePath - positionOf w1 filePath))
        with (N.to_nat (positionOf w2 filePath) - N.to_nat (positionOf w1 filePath))%nat by lia.
      replace (N.to_nat (positionOf w2 filePath - positionOf w filePath))
        with (N.to_nat (positionOf w2 filePath) - N.to_nat (positionOf w filePath))%nat by lia.
      apply window_of_prefix; lia.
    + pose proof (scanFile_position_other files scanned filePath w dir Hne) as Hsame.
      destruct (scanFile writable files scanned w dir) as [[ev w1] dir1]. cbn [fst snd] in Hsame.
      rewrite <- Hsame in Hhere.
      destruct (IH w1 dir1 _ Hgrows Hhere) as (H1 & H2 & Hmore & Hjoined).
      destruct (watch writable rest w1 dir1) as [[ev' w2] dir2]. cbn [fst snd] in *.
      rewrite <- Hsame.
      destruct (files !! scanned); cbn [app]; done.
Qed.
End Reading.

(** * Examples on the concrete collaborators *)

Module Examples.
Import Sample.

Definition line (text : string) : string := text +:+ Js.char 10.

Definition pong : JsValue :=
  JObject [("status", JString "ok"); ("pending", JNumber (Js.of_Z 0))].

(** S6 of the specification: a standing approval. *)
Example standing_approval_witness :
  matchesStandingApproval config "cron-key" (JString "cron:nightly")
  = Normal (Some {| sa_item := "cron-key"; sa_reasonMatch := "cron:*";
                    sa_note := JString "nightly" |})
  /\ matchesStandingApproval config "cron-key" (JString "cron") = Normal None
  /\ matchesStandingApproval config "cron-key" JUndefined = Normal None.
Proof.
  destruct (standing_approval_first_match config) as (Hfirst & Hempty & _).
  split; [|split].
  - rewrite Hfirst. reflexivity.
  - rewrite Hfirst. reflexivity.
  - apply Hempty. reflexivity.
Defined.

Definition bothUri : JsValue := JString "op://Both/k/f".
Definition bothParsed : ParsedUri := {| vault := "Both"; item := "k"; field := "f" |}.

(** A vault in both lists is read as an open vault, without a reason. *)
Example open_list_takes_precedence_witness :
  reference_of (readRequest "op://Both/k/f" JUndefined) = Some (bothUri, bothParsed)
  /\ Js.toLowerCase "Both" ∈ OPEN_VAULTS overlapping
  /\ Js.toLowerCase "Both" ∈ GATED_VAULTS overlapping
  /\ classify overlapping "Both" = Open
  /\ exists trace,
      handleRead overlapping [telegram] idle oracle (readRequest "op://Both/k/f" JUndefined)
      = Finished trace (Return (read_response (inl "v"))) idle
      /\ head (audited trace)
         = Some (JObject [("action", str "read"); ("uri", bothUri);
                          ("vault", str "Both"); ("item", str "k"); ("field", str "f");
                          ("type", str "open"); ("result", str "allowed")])
      /\ provider_calls trace = [(bothUri, None)]
      /\ prompts trace = [].
Proof.
  assert (Js.toLowerCase "Both" ∈ OPEN_VAULTS overlapping) as Hopen
    by (apply (bool_decide_unpack (Js.toLowerCase "Both" ∈ OPEN_VAULTS overlapping));
        vm_compute; exact I).
  assert (Js.toLowerCase "Both" ∈ GATED_VAULTS overlapping) as Hgated
    by (apply (bool_decide_unpack (Js.toLowerCase "Both" ∈ GATED_VAULTS overlapping));
        vm_compute; exact I).
  split; [reflexivity|]. split; [exact Hopen|]. split; [exact Hgated|].
  exact (open_list_takes_precedence overlapping [telegram] idle oracle
           (readRequest "op://Both/k/f" JUndefined) bothUri bothParsed
           eq_refl Hopen Hgated).
Defined.

Definition secUri : JsValue := JString "op://sec/k/f".
Definition secParsed : ParsedUri := {| vault := "sec"; item := "k"; field := "f" |}.
Definition noReason : JsValue := JObject [("action", JString "read"); ("uri", secUri)].

(** S2 of the specification: a gated read without a reason. *)
Example gated_read_requires_reason_witness :
  reference_of noReason = Some (secUri, secParsed)
  /\ classify config "sec" = Gated
  /\ Js.get noReason "reason" = Normal JUndefined
  /\ handleRead config [telegram] idle oracle noReason
     = Finished []
         (Return (JObject [("error",
                            JString ("Reason is REQUIRED for gated vault items. Pass --reason "
                                       +:+ Js.dquote +:+ "..." +:+ Js.dquote))]))
         idle.
Proof.
  assert (classify config "sec" = Gated) as Hgated by (vm_compute; reflexivity).
  split; [reflexivity|]. split; [exact Hgated|]. split; [reflexivity|].
  exact (gated_read_requires_reason config [telegram] idle oracle noReason secUri secParsed
           eq_refl Hgated (or_introl eq_refl)).
Defined.

Definition stripeUri : JsValue := JString "op://Sec/stripe/key".
Definition stripeParsed : ParsedUri := {| vault := "Sec"; item := "stripe"; field := "key" |}.
Definition stripeRequest : JsValue := readRequest "op://Sec/stripe/key" (JString "check webhook").
Definition pubUri : JsValue := JString "op://pub/k/f".
Definition pubParsed : ParsedUri := {| vault := "pub"; item := "k"; field := "f" |}.
Definition pubRequest : JsValue := readRequest "op://pub/k/f" JUndefined.

(** S1 and S3 of the specification: the open read goes to the provider
    without the flag, the approved gated read with it. *)
Example elevated_flag_witness :
  reference_of pubRequest = Some (pubUri, pubParsed)
  /\ reference_of stripeRequest = Some (stripeUri, stripeParsed)
  /\ classify config "pub" = Open
  /\ classify config "Sec" = Gated
  /\ provider_calls
       (handleRead_run config [telegram] idle oracle pubRequest (Fulfilled true) idle oracle).1.1
     = [(pubUri, None)]
  /\ provider_calls
       (handleRead_run config [telegram] idle oracle stripeRequest (Fulfilled true) waiting
          oracle).1.1
     = [(stripeUri, elevated_options)].
Proof.
  assert (classify config "pub" = Open) as Hopen by (vm_compute; reflexivity).
  assert (classify config "Sec" = Gated) as Hgated by (vm_compute; reflexivity).
  assert (reference_of pubRequest = Some (pubUri, pubParsed)) as Hpub
    by (vm_compute; reflexivity).
  assert (reference_of stripeRequest = Some (stripeUri, stripeParsed)) as Hstripe
    by (vm_compute; reflexivity).
  split; [exact Hpub|]. split; [exact Hstripe|]. split; [exact Hopen|].
  split; [exact Hgated|]. split.
  - destruct (elevated_flag_follows_classification config [telegram] idle oracle
                pubRequest pubUri pubParsed (Fulfilled true) idle oracle Hpub)
      as [Hcase _].
    exact (proj1 (Hcase Hopen)).
  - destruct (elevated_flag_follows_classification config [telegram] idle oracle
                stripeRequest stripeUri stripeParsed (Fulfilled true) waiting oracle Hstripe)
      as [_ Hcase].
    destruct (Hcase Hgated) as (_ & _ & Happroved).
    eapply Happroved; [vm_compute; reflexivity | reflexivity].
Defined.

Definition stale : State :=
  with_cache [(stripeUri, {| value := "old"; expiresAt := 5000 |})] idle.

(** With cacheTTL 0 a stored value is never served and never replaced. *)
Example cache_disabled_witness :
  cacheTTL overlapping <= 0
  /\ getCached overlapping oracle stripeUri stale = (None, stale)
  /\ setCache overlapping oracle stripeUri "new" stale = stale
  /\ existsb (has_result "cache_hit")
             (audited (handleRead_run overlapping [telegram] stale oracle stripeRequest
                         (Fulfilled true) stale oracle).1.1)
     = false.
Proof.
  assert (cacheTTL overlapping <= 0) as Httl by (cbn; lia).
  destruct (cache_disabled_without_ttl overlapping [telegram] Httl)
    as (Hget & Hset & Hrun & _).
  split; [exact Httl|]. split; [apply Hget|]. split; [apply Hset | apply Hrun].
Defined.

Definition entry : Pending := {| resolve := 0; timer := 1; pollInterval := 2 |}.


(** A callback without an approved field denies the waiting request. *)
Example callback_witness :
  JSON_parse bareBody = Some (JObject [("requestId", JString requestId)])
  /\ requestId <> EmptyString
  /\ pendingRequests waiting !! requestId = Some entry
  /\ exists st1,
      postCallback bareBody waiting
      = ([ClearTimeout 1; ClearInterval 2; RegistryDelete requestId;
          UnlinkSync (requestId +:+ ".json"); ResolveCall 0 false],
         {| statusCode := 200;
            body := JObject [("ok", JBool true); ("resolved", JBool true)] |},
         st1)
      /\ promises st1 !! 0%nat = Some (Fulfilled false).
Proof.
  assert (pendingRequests waiting !! requestId = Some entry) as Hentry
    by (vm_compute; reflexivity).
  assert (requestId <> EmptyString) as Hne by discriminate.
  assert (JSON_parse bareBody = Some (JObject [("requestId", JString requestId)]))
    as Hparse by (vm_compute; reflexivity).
  split; [exact Hparse|]. split; [exact Hne|]. split; [exact Hentry|].
  destruct (callback_coerces_approved config bareBody
              (JObject [("requestId", JString requestId)]) requestId entry waiting
              Hparse eq_refl Hne Hentry)
    as (approved & st1 & Happroved & Habsent & Hcall & Hsettled & _).
  destruct (Habsent _ eq_refl eq_refl) as [-> _].
  exists st1. split; [exact Hcall|]. apply Hsettled. vm_compute. reflexivity.
Defined.

(** A well-formed file dropped for the waiting request. *)
Example poll_witness :
  timers (dropped approvedFile) !! 2%nat = Some (PollTask requestId)
  /\ pendingRequests (dropped approvedFile) !! requestId = Some entry
  /\ pendingDir (dropped approvedFile) !! (requestId +:+ ".json") = Some approvedFile
  /\ exists st1,
      onPoll 2 (dropped approvedFile)
      = ([ExistsSync (requestId +:+ ".json"); ReadFileSync (requestId +:+ ".json");
          UnlinkSync (requestId +:+ ".json"); ClearInterval 2;
          ClearTimeout 1; ClearInterval 2; RegistryDelete requestId;
          UnlinkSync (requestId +:+ ".json"); ResolveCall 0 true],
         st1)
      /\ pendingDir st1 !! (requestId +:+ ".json") = None
      /\ pendingRequests st1 !! requestId = None
      /\ timers st1 !! 2%nat = None.
Proof.
  assert (timers (dropped approvedFile) !! 2%nat = Some (PollTask requestId)) as Htask
    by (vm_compute; reflexivity).
  assert (pendingRequests (dropped approvedFile) !! requestId = Some entry) as Hentry
    by (vm_compute; reflexivity).
  assert (pendingDir (dropped approvedFile) !! (requestId +:+ ".json") = Some approvedFile)
    as Hfile by (vm_compute; reflexivity).
  split; [exact Htask|]. split; [exact Hentry|]. split; [exact Hfile|].
  destruct (poll_unlinks_before_resolving 2 requestId approvedFile entry
              (dropped approvedFile) Htask Hentry Hfile) as (Hparsed & _ & _).
  assert (JSON_parse approvedFile = Some (JObject [("approved", JBool true)])) as Hparse
    by (vm_compute; reflexivity).
  exact (Hparsed (JObject [("approved", JBool true)]) (JBool true) Hparse eq_refl).
Defined.

(** C3 as stated fails on two files dropped for the waiting request. The
    text oops does not parse: the run of the poller unlinks nothing and
    calls no resolver, and the next run finds the file again. The text null
    parses: the file is unlinked and the interval cleared, yet no resolver
    is called and the request stays pending. *)
Example poll_without_resolution :
  (let st := dropped "oops" in
   timers st !! 2%nat = Some (PollTask requestId)
   /\ pendingRequests st !! requestId = Some entry
   /\ pendingDir st !! (requestId +:+ ".json") = Some "oops"
   /\ resolver_calls (onPoll 2 st).1 = []
   /\ pendingDir (onPoll 2 st).2 !! (requestId +:+ ".json") = Some "oops"
   /\ pendingRequests (onPoll 2 st).2 !! requestId = Some entry)
  /\ (let st := dropped "null" in
      timers st !! 2%nat = Some (PollTask requestId)
      /\ pendingRequests st !! requestId = Some entry
      /\ pendingDir st !! (requestId +:+ ".json") = Some "null"
      /\ (onPoll 2 st).1
         = [ExistsSync (requestId +:+ ".json"); ReadFileSync (requestId +:+ ".json");
            UnlinkSync (requestId +:+ ".json"); ClearInterval 2]
      /\ resolver_calls (onPoll 2 st).1 = []
      /\ pendingDir (onPoll 2 st).2 !! (requestId +:+ ".json") = None
      /\ pendingRequests (onPoll 2 st).2 !! requestId = Some entry
      /\ timers (onPoll 2 st).2 !! 2%nat = None).
Proof. vm_compute. repeat split. Qed.

Definition statusRequest : JsValue := JObject [("action", JString "status")].

(** The status of the daemon while one request is waiting. *)
Example status_witness :
  Js.get statusRequest "action" = Normal (JString "status")
  /\ (keys <$> response_to (handleRequest config [telegram] waiting oracle statusRequest))
     = Some ["status"; "pending"; "cacheSize"; "uptime"; "channels"; "provider"]
  /\ response_to (handleRequest config [telegram] waiting oracle statusRequest)
     = Some (JObject [("status", JString "running");
                      ("pending", JNumber (Js.of_Z 1));
                      ("cacheSize", JNumber (Js.of_Z 0));
                      ("uptime", JNumber (Js.of_Z 12));
                      ("channels", JArray [JString "telegram"]);
                      ("provider", JString "onepassword")]).
Proof.
  destruct (status_response_fields config [telegram] waiting oracle statusRequest eq_refl)
    as [Hresponse Hkeys].
  split; [reflexivity|]. split; [exact Hkeys|].
  rewrite Hresponse. vm_compute. reflexivity.
Defined.

(** C8 as stated fails: the response has no field uptimeSeconds. *)
Example status_has_no_uptimeSeconds :
  (keys <$> response_to (handleRequest config [telegram] idle oracle statusRequest))
  <> Some ["status"; "pending"; "cacheSize"; "uptimeSeconds"; "channels"; "provider"]
  /\ (response_to (handleRequest config [telegram] idle oracle statusRequest)
        ≫= fun response => Js.assoc "uptimeSeconds"
                             match response with JObject props => props | _ => [] end)
     = None.
Proof. split; [vm_compute; discriminate | vm_compute; reflexivity]. Qed.

(** A client that waits for each response before it sends the next line. *)
Definition patient : list ConnEvent :=
  [ Data (line statusLine); Settled 0 (Return pong);
    Data "x"; Data (line EmptyString);
    Data (line pingLine); Settled 2 (Return pong) ].

Example responses_ordered_witness :
  one_at_a_time newConnection patient = true
  /\ fst <$> written (connRun patient) = [0; 1; 2]%nat
  /\ in_request_order (connRun patient).
Proof.
  assert (one_at_a_time newConnection patient = true) as Hseq by (vm_compute; reflexivity).
  split; [exact Hseq|]. split; [vm_compute; reflexivity|].
  exact (responses_ordered_one_at_a_time patient Hseq).
Defined.

(** C7 as stated fails. Two lines arrive in one chunk, a request and then a
    malformed line: the malformed line is answered while the chunk is read,
    the request when its handler has settled, so the second response is
    written first. Two requests whose handlers settle in the other order
    are answered in that other order. *)
Example pipelined_responses_out_of_order :
  (let c := connRun [Data (line pingLine +:+ line "x"); Settled 0 (Return pong)] in
   written c = [(1%nat, JObject [("error", JString "Invalid JSON")]); (0%nat, pong)]
   /\ ~ in_request_order c)
  /\ (let c := connRun [Data (line statusLine +:+ line pingLine);
                        Settled 1 (Return pong); Settled 0 (Return JNull)] in
      fst <$> written c = [1; 0]%nat
      /\ ~ in_request_order c).
Proof. split; (split; [vm_compute; reflexivity | vm_compute; discriminate]). Qed.
End Examples.

(** * Examples for the further properties *)

Module Further.
Import Sample.

(** JSON.parse on the documents of these examples. *)
Definition pressedBody : string :=
  "{" +:+ quoted "callback_data" +:+ ":" +:+ quoted ("ag:approve:" +:+ requestId) +:+ "}".

Definition documents : list (string * JsValue) :=
  [ (pressedBody, JObject [("callback_data", JString ("ag:approve:" +:+ requestId))]);
    (approveBody, JObject [("requestId", JString requestId); ("approved", JBool true)]);
    (stringifyApproved true, JObject [("approved", JBool true)]);
    (stringifyApproved false, JObject [("approved", JBool false)]) ].

Definition parser : Runtime := {|
  JSON_parse text := Js.assoc text documents;
  Number_toString := wholeToString;
  Buffer_toString := asciiToString
|}.

(** An open read leaves a trace: it is a read of a classified container. *)
Example only_classified_reads_act_witness :
  trace_of (handleRequest config [telegram] idle oracle Examples.pubRequest) <> []
  /\ exists uri parsed,
       Js.get Examples.pubRequest "action" = Normal (JString "read")
       /\ reference_of Examples.pubRequest = Some (uri, parsed)
       /\ classify config (vault parsed) <> Unknown.
Proof.
  assert (trace_of (handleRequest config [telegram] idle oracle Examples.pubRequest) <> [])
    as Hacts by (vm_compute; discriminate).
  split; [exact Hacts|].
  exact (only_classified_reads_act config [telegram] idle oracle Examples.pubRequest
           (or_introl Hacts)).
Defined.

(** The gated read of the examples names a string as its reason. *)
Example typed_requests_witness :
  (forall trace m st1,
      handleRead config [telegram] idle oracle Examples.stripeRequest
      <> Finished trace (Reject m) st1)
  /\ (forall w s st' o',
         exists response, (handleRead_resumed config w s st' o').1.2 = Return response).
Proof.
  assert (forall m, @parseUri onepassword Examples.stripeUri <> Throw m) as Hexamined
    by (intros m; discriminate).
  destruct (typed_requests_get_a_response config [telegram] idle oracle Examples.stripeRequest
              Examples.stripeUri (JString "check webhook") eq_refl eq_refl Hexamined
              (or_intror (ex_intro _ "check webhook" eq_refl)))
    as (_ & _ & Hanswered & Hresumed).
  split; [|exact Hresumed]. apply Hanswered; intros x; discriminate.
Defined.

(** A number as the reason of a read of the item with a prefix rule. *)
Definition cronRequest : JsValue :=
  JObject [("action", JString "read"); ("uri", JString "op://Sec/cron-key/token");
           ("reason", JNumber (Js.of_Z 1))].

Example non_string_reason_witness :
  handleRead config [telegram] idle oracle cronRequest
  = Finished [] (Reject "reason.startsWith is not a function") idle.
Proof.
  assert (reference_of cronRequest
          = Some (JString "op://Sec/cron-key/token",
                  {| vault := "Sec"; item := "cron-key"; field := "token" |})) as Href
    by (vm_compute; reflexivity).
  assert (classify config "Sec" = Gated) as Hgated by (vm_compute; reflexivity).
  apply (proj1 (non_string_reason config [telegram] idle oracle cronRequest _ _
                  (JNumber (Js.of_Z 1)) Href Hgated eq_refl eq_refl
                  ltac:(intros r; discriminate))).
  exists {| sa_item := "cron-key"; sa_reasonMatch := "cron:*"; sa_note := JString "nightly" |}.
  split; [by left|]. by split.
Defined.

(** The gated read of the examples reaches the approval path: the one
    channel accepts the prompt and the read waits under the generated id. *)
Example prompt_decides_the_wait_witness :
  asks_approval config idle oracle Examples.stripeRequest Examples.stripeUri
    Examples.stripeParsed (JString "check webhook")
  /\ match handleRead config [telegram] idle oracle Examples.stripeRequest with
     | Finished _ _ _ => False
     | Awaiting trace w st1 =>
         prompts trace = [telegram] /\ w_requestId w = requestId
         /\ pendingRequests st1 !! requestId = Some Examples.entry
     end.
Proof.
  assert (asks_approval config idle oracle Examples.stripeRequest Examples.stripeUri
            Examples.stripeParsed (JString "check webhook")) as Hasks.
  { unfold asks_approval. split; [vm_compute; reflexivity|]. split; [reflexivity|].
    split; [vm_compute; reflexivity|]. split; [reflexivity|].
    split; vm_compute; reflexivity. }
  split; [exact Hasks|].
  pose proof (prompt_decides_the_wait config [telegram] idle oracle Examples.stripeRequest
                Examples.stripeUri Examples.stripeParsed (JString "check webhook") Hasks)
    as Hwait.
  cbv zeta in Hwait.
  destruct (handleRead config [telegram] idle oracle Examples.stripeRequest)
    as [trace outcome st1|trace w st1].
  - destruct Hwait as (Hrefs & _). vm_compute in Hrefs. discriminate Hrefs.
  - destruct Hwait as (_ & Hprompts & _ & Hid & _ & _ & Hentry & _).
    split; [exact Hprompts|]. split; [exact Hid | exact Hentry].
Defined.

(** The waiting read of the examples. *)
Definition asked : Waiting := {|
  w_uri := Examples.stripeUri; w_reason := JString "check webhook";
  w_parsed := Examples.stripeParsed; w_requestId := requestId;
  w_messageRefs := [(telegram, JObject [("messageId", JNumber (Js.of_Z 7))])];
  w_promise := 0
|}.

Example denied_reads_nothing_witness :
  provider_calls (handleRead_resumed config asked (Fulfilled false) waiting oracle).1.1 = []
  /\ (handleRead_resumed config asked (Fulfilled false) waiting oracle).2 = waiting.
Proof.
  pose proof (denied_or_timed_out_reads_nothing config asked (Fulfilled false) waiting
                oracle eq_refl) as H.
  destruct (handleRead_resumed config asked (Fulfilled false) waiting oracle)
    as [[trace outcome] st1].
  destruct H as (Hcalls & Hstate & _). by split.
Defined.

(** The timeout of the waiting read fires. *)
Example timeout_ends_the_wait_witness :
  promises idle !! nextId idle = None
  /\ exists st2,
       onTimeout config 1 waiting
       = ([ClearTimeout 1; ClearInterval 2; RegistryDelete requestId;
           UnlinkSync (requestId +:+ ".json"); RejectCall 0 (timeoutMessage config)],
          st2)
       /\ pendingRequests st2 !! requestId = None
       /\ promises st2 !! 0%nat = Some (Rejected (timeoutMessage config)).
Proof.
  assert (handleRead config [telegram] idle oracle Examples.stripeRequest
          = Awaiting (trace_of (handleRead config [telegram] idle oracle Examples.stripeRequest))
              asked waiting) as Hread by (vm_compute; reflexivity).
  split; [reflexivity|].
  destruct (timeout_ends_the_wait config [telegram] idle oracle Examples.stripeRequest
              _ asked waiting Hread eq_refl) as (st2 & Hfired & Hgone & _ & _ & Hrejected & _).
  exists st2. split; [exact Hfired|]. split; [exact Hgone | exact Hrejected].
Defined.

(** A value stored at time 1000 is served at time 1000. *)
Example cache_store_then_lookup_witness :
  0 < cacheTTL config
  /\ getCached config oracle Examples.stripeUri
       (setCache config oracle Examples.stripeUri "v" idle)
     = (Some "v", setCache config oracle Examples.stripeUri "v" idle).
Proof.
  assert (0 < cacheTTL config) as Httl by (cbn; lia).
  split; [exact Httl|].
  apply (proj1 (cache_store_then_lookup config oracle oracle "op://Sec/stripe/key" "v" idle
                  Httl)).
  cbn. lia.
Defined.


(** Resolving the waiting request calls its resolver and no other. *)
Example resolving_leaves_the_others_witness :
  pendingRequests waiting !! requestId = Some Examples.entry
  /\ resolver_calls (resolveApproval (JString requestId) (JBool true) waiting).1.2
     = [(0%nat, true)].
Proof.
  assert (pendingRequests waiting !! requestId = Some Examples.entry) as Hentry
    by (vm_compute; reflexivity).
  split; [exact Hentry|].
  pose proof (resolving_leaves_the_others requestId Examples.entry (JBool true) waiting
                Hentry) as H.
  destruct (resolveApproval (JString requestId) (JBool true) waiting) as [[resolved trace] st1].
  destruct H as (_ & _ & _ & Hcalls & _). exact Hcalls.
Defined.

(** The press of the Approve button of the waiting request, and the direct
    callback that approves it. *)
Example button_press_witness :
  @postChannelCallback parser pressedBody waiting = @postCallback parser approveBody waiting.
Proof.
  assert (@JSON_parse parser pressedBody
          = Some (JObject [("callback_data", JString ("ag:approve:" +:+ requestId))]))
    as Hpressed by (vm_compute; reflexivity).
  assert (@JSON_parse parser approveBody
          = Some (JObject [("requestId", JString requestId); ("approved", JBool true)]))
    as Hdirect by (vm_compute; reflexivity).
  apply (proj1 (@button_press_is_a_direct_callback parser true requestId pressedBody
                  approveBody _ _ waiting ltac:(discriminate) eq_refl Hpressed eq_refl
                  Hdirect eq_refl eq_refl)).
Defined.

(** A session file in which the Approve button of the waiting request was
    pressed, and the same file with more text behind. *)
Definition session : string := "s.jsonl".
Definition first : string := "tap " +:+ callbackData true requestId +:+ " ok".
Definition second : string := first +:+ " and more".
Definition everyWrite : string -> bool := fun _ => true.

Example watcher_file_witness :
  exists approve,
    Routed approve requestId
      ∈ (watch everyWrite [({[session := first]}, session)] newWatcher
           (pendingDir waiting)).1.1
    /\ resolver_calls
         (@onPoll parser 2
            (with_pendingDir
               (watch everyWrite [({[session := first]}, session)] newWatcher
                  (pendingDir waiting)).2
               waiting)).1
       = [(0%nat, approve)].
Proof.
  assert (forall approved,
            @JSON_parse parser (stringifyApproved approved)
            = Some (JObject [("approved", JBool approved)])) as Hjson
    by (intros [|]; vm_compute; reflexivity).
  assert (timers waiting !! 2%nat = Some (PollTask requestId)) as Hpoll
    by (vm_compute; reflexivity).
  assert (pendingRequests waiting !! requestId = Some Examples.entry) as Hentry
    by (vm_compute; reflexivity).
  assert (pendingDir waiting !! (requestId +:+ ".json") = None) as Hempty
    by (vm_compute; reflexivity).
  assert (is_Some ((watch everyWrite [({[session := first]}, session)] newWatcher
                      (pendingDir waiting)).2 !! (requestId +:+ ".json"))) as Hfile
    by (exists (stringifyApproved true); vm_compute; reflexivity).
  destruct (@watcher_file_resolves_the_request parser everyWrite
              [({[session := first]}, session)] newWatcher waiting 2 requestId
              Examples.entry Hjson Hpoll Hentry Hempty Hfile)
    as (approve & Hrouted & _ & Hcalls & _).
  exists approve. split; [exact Hrouted | exact Hcalls].
Defined.

Example press_in_window_witness :
  Routed true requestId
    ∈ (scanFile everyWrite {[session := first]} session newWatcher ∅).1.1.
Proof.
  assert (({[session := first]} : gmap string string) !! session = Some first) as Hfile
    by (vm_compute; reflexivity).
  assert (windowOf newWatcher session first
          = "tap " +:+ callbackData true requestId +:+ " ok") as Hwindow
    by (vm_compute; reflexivity).
  assert (forall c, Js.endsWith "tap " c = true -> isLowerHex c = false) as Hbefore.
  { intros c Hc. cbn [Js.endsWith] in Hc. apply Ascii.eqb_eq in Hc as <-. reflexivity. }
  assert (keyOf true requestId ∉ processed newWatcher) as Hnew
    by (cbn; apply not_elem_of_empty).
  exact (proj1 (proj2 (press_in_window_is_routed everyWrite {[session := first]} session
                         first newWatcher ∅ "tap " " ok" requestId true Hfile Hwindow
                         eq_refl eq_refl Hbefore Hnew))).
Defined.

(** Shutdown while the read of the examples is waiting. *)
Example shutdown_witness :
  pendingRequests (shutdown "SIGTERM" 42 [requestId] waiting).2 = ∅
  /\ resolver_calls (shutdown "SIGTERM" 42 [requestId] waiting).1
     = denials (pendingRequests waiting) [requestId].
Proof.
  assert (pendingRequests waiting = {[requestId := Examples.entry]}) as Hregistry
    by (vm_compute; reflexivity).
  assert (forall id, id ∈ [requestId] <-> is_Some (pendingRequests waiting !! id)) as Horder.
  { intros id. rewrite Hregistry, list_elem_of_singleton. split.
    - intros ->. exists Examples.entry. apply lookup_singleton_eq.
    - intros [p Hp]. by apply lookup_singleton_Some in Hp as [<- _]. }
  destruct (shutdown_denies_every_pending_request "SIGTERM" 42 [requestId] waiting
              (NoDup_singleton requestId) Horder) as (Hgone & Hcalls & _).
  split; [exact Hgone | exact Hcalls].
Defined.

(** A read that waits, an approval by the callback server, and a shutdown. *)
Example no_resolver_is_called_twice_witness :
  NoDup (fst <$> resolver_calls
           ((runDaemon config [telegram] initialState
               [Loop (Request oracle Examples.stripeRequest);
                Http "POST" "/callback" approveBody]).1
            ++ (shutdown "SIGTERM" 42 [requestId]
                  (runDaemon config [telegram] initialState
                     [Loop (Request oracle Examples.stripeRequest);
                      Http "POST" "/callback" approveBody]).2).1)).
Proof.
  exact (no_resolver_is_called_twice config [telegram]
           [Loop (Request oracle Examples.stripeRequest); Http "POST" "/callback" approveBody]
           "SIGTERM" 42 [requestId] (NoDup_singleton requestId)).
Defined.

(** agent-gate read op://Sec/stripe/key --reason "check webhook" *)
Example cli_reads_are_answered_witness :
  cmdRead_request ["op://Sec/stripe/key"; "--reason"; "check webhook"]
  = inr Examples.stripeRequest
  /\ forall trace m st1,
       handleRequest config [telegram] idle oracle Examples.stripeRequest
       <> Finished trace (Reject m) st1.
Proof.
  assert (cmdRead_request ["op://Sec/stripe/key"; "--reason"; "check webhook"]
          = inr Examples.stripeRequest) as Hsent by (vm_compute; reflexivity).
  assert (forall s m, @parseUri onepassword (JString s) <> Throw m) as Hparse
    by (intros s m; discriminate).
  split; [exact Hsent|].
  exact (proj2 (cli_reads_are_answered config [telegram] _ _ idle oracle Hsent Hparse)).
Defined.

(** A gated read awaits approval, an open read follows: the gated read is
    still in the registry under its id, and its timeout would reject its
    promise. *)
Example pending_requests_time_out_witness :
  exists pending,
    pendingRequests
      (runDaemon config [telegram] initialState
         [Loop (Request oracle Examples.stripeRequest);
          Loop (Request oracle Examples.pubRequest)]).2 !! requestId
    = Some pending
    /\ resolve pending = 0%nat
    /\ promises
         (onTimeout config (timer pending)
            (runDaemon config [telegram] initialState
               [Loop (Request oracle Examples.stripeRequest);
                Loop (Request oracle Examples.pubRequest)]).2).2 !! 0%nat
       = Some (Rejected (timeoutMessage config)).
Proof.
  assert (handleRequest config [telegram] initialState oracle Examples.stripeRequest
          = Awaiting
              (trace_of (handleRequest config [telegram] initialState oracle
                           Examples.stripeRequest))
              asked waiting) as Hawaits by (vm_compute; reflexivity).
  assert (distinctIds config [telegram] initialState
            [Loop (Request oracle Examples.stripeRequest);
             Loop (Request oracle Examples.pubRequest)] = true) as Hdistinct
    by (vm_compute; reflexivity).
  assert (promises
            (runDaemon config [telegram] initialState
               [Loop (Request oracle Examples.stripeRequest);
                Loop (Request oracle Examples.pubRequest)]).2 !! w_promise asked = None)
    as Hunsettled by (vm_compute; reflexivity).
  destruct (pending_requests_time_out config [telegram] []
              [Loop (Request oracle Examples.pubRequest)] oracle Examples.stripeRequest
              _ asked waiting eq_refl Hawaits Hdistinct Hunsettled)
    as (pending & Hentry & Hresolve & _ & _ & _ & _ & _ & Hrejected).
  exists pending. split; [exact Hentry|]. split; [exact Hresolve | exact Hrejected].
Defined.

(** The session file is scanned, grows, and is scanned again. *)
Example append_only_witness :
  (positionOf newWatcher session
   <= positionOf (watch everyWrite [({[session := first]}, session);
                                    ({[session := second]}, session)]
                    newWatcher ∅).1.2 session)%N
  /\ joined (chunksRead everyWrite session
               [({[session := first]}, session); ({[session := second]}, session)]
               newWatcher ∅)
     = String.substring
         (N.to_nat (positionOf newWatcher session))
         (N.to_nat
            (positionOf (watch everyWrite [({[session := first]}, session);
                                           ({[session := second]}, session)]
                           newWatcher ∅).1.2 session
             - positionOf newWatcher session))
         second.
Proof.
  assert (appendOnly session EmptyString
            [({[session := first]}, session); ({[session := second]}, session)] second)
    as Hgrows.
  { cbn [appendOnly]. rewrite String.eqb_refl. exists first.
    split; [vm_compute; reflexivity|]. exists " and more".
    split; vm_compute; reflexivity. }
  assert (positionOf newWatcher session <= N.of_nat (String.length EmptyString))%N as Hhere
    by (vm_compute; discriminate).
  destruct (append_only_file_is_read_once everyWrite session EmptyString second _
              newWatcher ∅ Hgrows Hhere) as (Hforward & _ & _ & Hjoined).
  split; [exact Hforward | exact Hjoined].
Defined.
(** A status request and a ping, cut behind the first request. *)
Example framing_ignores_chunking_witness :
  onData (Js.char 10 +:+ pingLine) (onData statusLine newConnection)
  = onData (statusLine +:+ (Js.char 10 +:+ pingLine)) newConnection.
Proof.
  exact (framing_ignores_chunking statusLine (Js.char 10 +:+ pingLine) newConnection eq_refl).
Defined.

(** A callback whose requestId does not render: it is answered, and the
    process ends; the timeout of the waiting read never fires. *)
Example spoiled_callback_ends_the_process :
  requestListener "POST" "/callback" spoiledBody waiting
  = ([Uncaught headersSent],
     {| status := 200;
        payload := Some (JObject [("ok", JBool true); ("resolved", JBool false)]) |},
     waiting)
  /\ runDaemon config [telegram] waiting
       [Http "POST" "/callback" spoiledBody; Loop (TimerFired 1)]
     = ([Uncaught headersSent], waiting).
Proof. split; vm_compute; reflexivity. Qed.

(** Two gated reads draw the same random bytes. The timeout of the first
    read takes the entry of the second read out of the registry and clears
    its timeout: the promise of the second read, 3, is not settled, and no
    timeout is left that would settle it. *)
Example colliding_ids_leave_a_read_waiting :
  let jobs := [Loop (Request oracle Examples.stripeRequest);
               Loop (Request oracle Examples.stripeRequest);
               Loop (TimerFired 1)] in
  let st := (runDaemon config [telegram] initialState jobs).2 in
  distinctIds config [telegram] initialState jobs = false
  /\ pendingRequests st = ∅
  /\ promises st = {[0%nat := Rejected (timeoutMessage config)]}
  /\ timers st = {[2%nat := PollTask requestId]}.
Proof. repeat split; vm_compute; reflexivity. Qed.
End Further.
